(** * A verification development for the JSON manipulation engine

    The engine has six components: Path, Compare, Merge, Transform, Validate
    and Generate.  The functions that only build new values out of their
    arguments (schema validation, unordered array comparison, template
    expansion) are embedded over JSON trees.  The functions that write into
    JavaScript objects (the Path Engine, the Merge Engine) and every function
    whose absence of writes is itself in question are embedded over an
    explicit store of objects, so that aliasing and in-place updates are
    visible.

    Abstractions made throughout:
    - a JavaScript number is an integer ([Z]); no claim below depends on
      fractional numbers, and quotients are kept exact in [Q];
    - a string is a [string] of bytes, its length the number of bytes;
    - an object is its list of own properties in insertion order; the
      prototype chain is not modelled, so [key in obj] is an own-key test. *)

From Stdlib Require Import ZArith QArith Lia Bool Ascii String.
From stdpp Require Import base strings list pretty.

Set Warnings "-register-all".

Local Open Scope string_scope.
Local Open Scope Z_scope.

(** ** JSON trees *)

(** Modelled from the spec: the [JsonValue] union of [types/json.types],
    which is not among the sources: null, boolean, number, string, array,
    and object with insertion order preserved. *)
Inductive JsonValue : Type :=
| JNull
| JBool (b : bool)
| JNumber (n : Z)
| JString (s : string)
| JArray (items : list JsonValue)
| JObject (fields : list (string * JsonValue)).

(** The double quote character, for messages that quote a name. *)
Definition dq : string := String (Ascii.ascii_of_nat 34) EmptyString.

(** [key in obj] and [obj[key]] on the property list of an object. *)
Fixpoint getProp {A : Type} (fields : list (string * A)) (key : string) : option A :=
  match fields with
  | [] => None
  | (k, v) :: rest => if String.eqb k key then Some v else getProp rest key
  end.

Definition hasProp {A : Type} (fields : list (string * A)) (key : string) : bool :=
  match getProp fields key with Some _ => true | None => false end.

(** [obj[key] = v]: an existing key keeps its position, a new key goes last. *)
Fixpoint setProp {A : Type} (fields : list (string * A)) (key : string) (v : A)
  : list (string * A) :=
  match fields with
  | [] => [(key, v)]
  | (k, w) :: rest =>
      if String.eqb k key then (k, v) :: rest else (k, w) :: setProp rest key v
  end.

(** [delete obj[key]]. *)
Fixpoint deleteProp {A : Type} (fields : list (string * A)) (key : string)
  : list (string * A) :=
  match fields with
  | [] => []
  | (k, w) :: rest =>
      if String.eqb k key then rest else (k, w) :: deleteProp rest key
  end.

Definition objectKeys {A : Type} (fields : list (string * A)) : list string :=
  map fst fields.

(** [arr.includes(s)] on strings. *)
Definition includesStr (l : list string) (s : string) : bool :=
  existsb (String.eqb s) l.

(** Structural equality of trees.  [JSON.stringify] is injective on JSON
    trees (key order included), so two stringified keys are equal exactly
    when the trees are. *)
Fixpoint json_eqb (a b : JsonValue) {struct a} : bool :=
  match a, b with
  | JNull, JNull => true
  | JBool x, JBool y => Bool.eqb x y
  | JNumber x, JNumber y => Z.eqb x y
  | JString x, JString y => String.eqb x y
  | JArray xs, JArray ys =>
      (fix go (l1 l2 : list JsonValue) {struct l1} : bool :=
         match l1, l2 with
         | [], [] => true
         | x :: r1, y :: r2 => json_eqb x y && go r1 r2
         | _, _ => false
         end) xs ys
  | JObject fs, JObject gs =>
      (fix go (l1 l2 : list (string * JsonValue)) {struct l1} : bool :=
         match l1, l2 with
         | [], [] => true
         | (k1, x) :: r1, (k2, y) :: r2 =>
             String.eqb k1 k2 && json_eqb x y && go r1 r2
         | _, _ => false
         end) fs gs
  | _, _ => false
  end.

(** [a === b] when at least one side is known to be a primitive: arrays and
    objects are never strictly equal to a primitive. *)
Definition strictEqPrim (a b : JsonValue) : bool :=
  match a, b with
  | JNull, JNull => true
  | JBool x, JBool y => Bool.eqb x y
  | JNumber x, JNumber y => Z.eqb x y
  | JString x, JString y => String.eqb x y
  | _, _ => false
  end.

(** [String(v)] as template literals and [join] apply it. *)
Fixpoint toStringJS (v : JsonValue) : string :=
  match v with
  | JNull => "null"
  | JBool true => "true"
  | JBool false => "false"
  | JNumber n => pretty n
  | JString s => s
  | JArray xs =>
      String.concat ","
        (map (fun x => match x with JNull => "" | _ => toStringJS x end) xs)
  | JObject _ => "[object Object]"
  end.

(** [arr.join(sep)]: null elements print as the empty string. *)
Definition joinJS (sep : string) (xs : list JsonValue) : string :=
  String.concat sep
    (map (fun x => match x with JNull => "" | _ => toStringJS x end) xs).

(** [String(v)] for a value that may be [undefined]. *)
Definition toStringOpt (v : option JsonValue) : string :=
  match v with Some x => toStringJS x | None => "undefined" end.

(** ** What a call produces

    A value, a thrown error, or nothing within the recursion budget of the
    model (the only way a model records a run that does not end). *)
Inductive Outcome (E A : Type) : Type :=
| Returns (a : A)
| Throws (e : E)
| OutOfFuel.
Arguments Returns {E A} a.
Arguments Throws {E A} e.
Arguments OutOfFuel {E A}.

Declare Scope gen_scope.
Declare Scope js_scope.

(** ** Validate Engine (json.validator) *)

Module Validator.

(** Modelled from the spec: the [JsonSchema] descriptor of
    [types/json.types], which is not among the sources.  The fields are the
    schema vocabulary that [validateAgainstSchema] reads; a field that is
    absent (or holds a falsy value where the code tests truthiness) is
    [None].  A well-formed schema is a value of this type. *)
Inductive SchemaType : Type :=
| TypeOne (t : string)
| TypeMany (ts : list string).

Inductive JsonSchema : Type := mkSchema {
  type : option SchemaType;
  minItems : option Z;
  maxItems : option Z;
  uniqueItems : bool;
  items : option JsonSchema;
  required : option (list string);
  properties : option (list (string * JsonSchema));
  additionalProperties : option bool;
  minProperties : option Z;
  maxProperties : option Z;
  enum : option (list JsonValue);
  const : option JsonValue;
  format : option string;
  pattern : option string;
  minimum : option Z;
  exclusiveMinimum : option Z;
  maximum : option Z;
  exclusiveMaximum : option Z;
  multipleOf : option Z;
  minLength : option Z;
  maxLength : option Z
}.

(** The schema with no constraint, to build schemas from. *)
Definition emptySchema : JsonSchema :=
  mkSchema None None None false None None None None None None None None None
           None None None None None None None None.

Record ValidationError : Type := mkError {
  path : string;
  message : string;
  value : option JsonValue;
  expected : option JsonValue
}.

Record ValidationResult : Type := mkResult {
  valid : bool;
  errors : list ValidationError
}.

Definition createError (path message : string)
  (value expected : option JsonValue) : ValidationError :=
  {| path := path; message := message; value := value; expected := expected |}.

Definition getTypeName (value : JsonValue) : string :=
  match value with
  | JNull => "null"
  | JArray _ => "array"
  | JBool _ => "boolean"
  | JNumber _ => "number"
  | JString _ => "string"
  | JObject _ => "object"
  end.

(** [schema.type] when truthy, as the list [expectedTypes]. *)
Definition expectedTypesOf (schema : JsonSchema) : option (list string) :=
  match type schema with
  | Some (TypeOne "") => None
  | Some (TypeOne t) => Some [t]
  | Some (TypeMany ts) => Some ts
  | None => None
  end.

Definition numLen {A : Type} (l : list A) : Z := Z.of_nat (length l).

Section WithPlatform.

(** What the platform supplies: [new RegExp(p).test(s)] for a pattern that
    compiles, the case-insensitive variant, [new URL(s)] succeeding, and
    [Date.parse(s)] being a number. *)
Variable regexTest : string -> string -> bool.
Variable regexTestI : string -> string -> bool.
Variable urlParses : string -> bool.
Variable dateParses : string -> bool.

Definition validateFormat (value format : string) : bool :=
  if String.eqb format "email" then regexTest "^[^\s@]+@[^\s@]+\.[^\s@]+$" value
  else if String.eqb format "url" then urlParses value
  else if String.eqb format "date" then
    regexTest "^\d{4}-\d{2}-\d{2}$" value && dateParses value
  else if String.eqb format "date-time" then dateParses value
  else if String.eqb format "uuid" then
    regexTestI
      "^[0-9a-f]{8}-[0-9a-f]{4}-[1-5][0-9a-f]{3}-[89ab][0-9a-f]{3}-[0-9a-f]{12}$"
      value
  else true.

(** One conditional [errors.push(...)]. *)
Definition pushIf (c : bool) (e : ValidationError) : list ValidationError :=
  if c then [e] else [].

Definition whenSome {A : Type} (o : option A) (f : A -> list ValidationError)
  : list ValidationError :=
  match o with Some a => f a | None => [] end.

Definition indexPath (basePath : string) (i : nat) : string :=
  basePath +:+ "[" +:+ pretty i +:+ "]".

Definition propPath (basePath prop : string) : string :=
  basePath +:+ "." +:+ prop.

(** *** The error records, one builder for each [createError] call *)

Definition typeError (basePath : string) (json : JsonValue)
  (expectedTypes : list string) : ValidationError :=
  createError basePath
    ("Type " +:+ dq +:+ getTypeName json +:+ dq
       +:+ " does not match expected type(s): " +:+ String.concat ", " expectedTypes)
    (Some json) (Some (JArray (map JString expectedTypes))).

Definition minItemsError (basePath : string) (len m : Z) : ValidationError :=
  createError basePath
    ("Array has " +:+ pretty len +:+ " items, minimum required is " +:+ pretty m)
    (Some (JNumber len)) (Some (JString (">= " +:+ pretty m))).

Definition maxItemsError (basePath : string) (len m : Z) : ValidationError :=
  createError basePath
    ("Array has " +:+ pretty len +:+ " items, maximum allowed is " +:+ pretty m)
    (Some (JNumber len)) (Some (JString ("<= " +:+ pretty m))).

Definition duplicateError (basePath : string) (i : nat) (x : JsonValue)
  : ValidationError :=
  createError (indexPath basePath i) "Duplicate item found" (Some x)
    (Some (JString "unique value")).

Definition requiredError (basePath prop : string) : ValidationError :=
  createError (propPath basePath prop)
    ("Required property " +:+ dq +:+ prop +:+ dq +:+ " is missing")
    None (Some (JString "present")).

Definition additionalError (basePath prop : string) (v : option JsonValue)
  : ValidationError :=
  createError (propPath basePath prop)
    ("Additional property " +:+ dq +:+ prop +:+ dq +:+ " is not allowed")
    v (Some (JString "undefined")).

Definition minPropertiesError (basePath : string) (n m : Z) : ValidationError :=
  createError basePath
    ("Object has " +:+ pretty n +:+ " properties, minimum required is " +:+ pretty m)
    (Some (JNumber n)) (Some (JString (">= " +:+ pretty m))).

Definition maxPropertiesError (basePath : string) (n m : Z) : ValidationError :=
  createError basePath
    ("Object has " +:+ pretty n +:+ " properties, maximum allowed is " +:+ pretty m)
    (Some (JNumber n)) (Some (JString ("<= " +:+ pretty m))).

Definition enumError (basePath : string) (v : JsonValue) (en : list JsonValue)
  : ValidationError :=
  createError basePath
    ("Value " +:+ dq +:+ toStringJS v +:+ dq +:+ " is not in allowed values: "
       +:+ joinJS ", " en)
    (Some v) (Some (JArray en)).

Definition constError (basePath : string) (v c : JsonValue) : ValidationError :=
  createError basePath
    ("Value " +:+ dq +:+ toStringJS v +:+ dq +:+ " does not match constant "
       +:+ dq +:+ toStringJS c +:+ dq)
    (Some v) (Some c).

Definition formatError (basePath : string) (v : JsonValue) (f : string)
  : ValidationError :=
  createError basePath
    ("Value " +:+ dq +:+ toStringJS v +:+ dq +:+ " is not a valid " +:+ f)
    (Some v) (Some (JString ("valid " +:+ f))).

Definition patternError (basePath : string) (v : JsonValue) (p : string)
  : ValidationError :=
  createError basePath
    ("Value " +:+ dq +:+ toStringJS v +:+ dq +:+ " does not match pattern " +:+ p)
    (Some v) (Some (JString ("matches " +:+ p))).

Definition minimumError (basePath : string) (n m : Z) : ValidationError :=
  createError basePath
    ("Value " +:+ pretty n +:+ " is less than minimum " +:+ pretty m)
    (Some (JNumber n)) (Some (JString (">= " +:+ pretty m))).

Definition exclusiveMinimumError (basePath : string) (n m : Z) : ValidationError :=
  createError basePath
    ("Value " +:+ pretty n +:+ " is not greater than " +:+ pretty m)
    (Some (JNumber n)) (Some (JString ("> " +:+ pretty m))).

Definition maximumError (basePath : string) (n m : Z) : ValidationError :=
  createError basePath
    ("Value " +:+ pretty n +:+ " exceeds maximum " +:+ pretty m)
    (Some (JNumber n)) (Some (JString ("<= " +:+ pretty m))).

Definition exclusiveMaximumError (basePath : string) (n m : Z) : ValidationError :=
  createError basePath
    ("Value " +:+ pretty n +:+ " is not less than " +:+ pretty m)
    (Some (JNumber n)) (Some (JString ("< " +:+ pretty m))).

Definition multipleOfError (basePath : string) (n m : Z) : ValidationError :=
  createError basePath
    ("Value " +:+ pretty n +:+ " is not a multiple of " +:+ pretty m)
    (Some (JNumber n)) (Some (JString ("multiple of " +:+ pretty m))).

Definition minLengthError (basePath : string) (len m : Z) : ValidationError :=
  createError basePath
    ("String length " +:+ pretty len +:+ " is less than minimum " +:+ pretty m)
    (Some (JNumber len)) (Some (JString (">= " +:+ pretty m))).

Definition maxLengthError (basePath : string) (len m : Z) : ValidationError :=
  createError basePath
    ("String length " +:+ pretty len +:+ " exceeds maximum " +:+ pretty m)
    (Some (JNumber len)) (Some (JString ("<= " +:+ pretty m))).

(** [value % m !== 0]: the remainder by zero is NaN, which differs from 0. *)
Definition notMultiple (n m : Z) : bool := (m =? 0) || negb (Z.rem n m =? 0).

Definition strLength (s : string) : Z := Z.of_nat (String.length s).

(** *** The validators *)

(** The uniqueItems loop: [seen] holds the keys of the elements already
    visited, [i] is the index of the head of [rest]. *)
Fixpoint uniqueItemsErrors (basePath : string) (seen rest : list JsonValue)
  (i : nat) : list ValidationError :=
  match rest with
  | [] => []
  | x :: rest' =>
      pushIf (existsb (json_eqb x) seen) (duplicateError basePath i x)
      ++ uniqueItemsErrors basePath (seen ++ [x]) rest' (S i)
  end.

(** The required-properties loop. *)
Definition requiredErrors (obj : list (string * JsonValue)) (basePath : string)
  (req : list string) : list ValidationError :=
  flat_map (fun prop =>
    pushIf (negb (hasProp obj prop)) (requiredError basePath prop)) req.

(** The additional-properties loop over [Object.keys(obj)]. *)
Definition additionalErrors (obj : list (string * JsonValue)) (basePath : string)
  (allowedProps : list string) : list ValidationError :=
  flat_map (fun prop =>
    pushIf (negb (includesStr allowedProps prop))
      (additionalError basePath prop (getProp obj prop))) (objectKeys obj).

Definition validatePrimitiveAgainstSchema (value : JsonValue)
  (schema : JsonSchema) (basePath : string) : list ValidationError :=
  whenSome (enum schema) (fun en =>
    pushIf (negb (existsb (strictEqPrim value) en)) (enumError basePath value en))
  ++ whenSome (const schema) (fun c =>
    pushIf (negb (strictEqPrim value c)) (constError basePath value c))
  ++ match value with
     | JString s =>
         whenSome (format schema) (fun f =>
           pushIf (negb (String.eqb f "") && negb (validateFormat s f))
             (formatError basePath value f))
     | _ => []
     end
  ++ match value with
     | JString s =>
         whenSome (pattern schema) (fun p =>
           pushIf (negb (String.eqb p "") && negb (regexTest p s))
             (patternError basePath value p))
     | _ => []
     end
  ++ match value with
     | JNumber n =>
         whenSome (minimum schema) (fun m =>
           pushIf (n <? m) (minimumError basePath n m))
         ++ whenSome (exclusiveMinimum schema) (fun m =>
           pushIf (n <=? m) (exclusiveMinimumError basePath n m))
         ++ whenSome (maximum schema) (fun m =>
           pushIf (m <? n) (maximumError basePath n m))
         ++ whenSome (exclusiveMaximum schema) (fun m =>
           pushIf (m <=? n) (exclusiveMaximumError basePath n m))
         ++ whenSome (multipleOf schema) (fun m =>
           pushIf (notMultiple n m) (multipleOfError basePath n m))
     | _ => []
     end
  ++ match value with
     | JString s =>
         whenSome (minLength schema) (fun m =>
           pushIf (strLength s <? m) (minLengthError basePath (strLength s) m))
         ++ whenSome (maxLength schema) (fun m =>
           pushIf (m <? strLength s) (maxLengthError basePath (strLength s) m))
     | _ => []
     end
  ++ match value with
     | JString s =>
         (* the second minLength test of the source *)
         whenSome (minLength schema) (fun m =>
           pushIf (strLength s <? m) (minLengthError basePath (strLength s) m))
     | _ => []
     end.

(** The two container validators take the validator of sub-schemas as
    [rec]: in the source they call [validateAgainstSchema] back. *)
Section Containers.

Variable rec : JsonSchema -> JsonValue -> string -> list ValidationError.

(** The item loop: [i] is the index of the head of [rest]. *)
Fixpoint itemErrors (itemSchema : JsonSchema) (basePath : string)
  (rest : list JsonValue) (i : nat) : list ValidationError :=
  match rest with
  | [] => []
  | x :: rest' =>
      rec itemSchema x (indexPath basePath i)
      ++ itemErrors itemSchema basePath rest' (S i)
  end.

Definition validateArrayAgainstSchema (array : list JsonValue)
  (schema : JsonSchema) (basePath : string) : list ValidationError :=
  whenSome (minItems schema) (fun m =>
    pushIf (numLen array <? m) (minItemsError basePath (numLen array) m))
  ++ whenSome (maxItems schema) (fun m =>
    pushIf (m <? numLen array) (maxItemsError basePath (numLen array) m))
  ++ (if uniqueItems schema then uniqueItemsErrors basePath [] array 0 else [])
  ++ whenSome (items schema) (fun itemSchema =>
       itemErrors itemSchema basePath array 0).

(** The property loop over [Object.entries(schema.properties)]. *)
Fixpoint propertyErrors (obj : list (string * JsonValue)) (basePath : string)
  (props : list (string * JsonSchema)) : list ValidationError :=
  match props with
  | [] => []
  | (prop, propSchema) :: props' =>
      match getProp obj prop with
      | Some v => rec propSchema v (propPath basePath prop)
      | None => []
      end
      ++ propertyErrors obj basePath props'
  end.

Definition allowedProps (schema : JsonSchema) : list string :=
  match properties schema with
  | Some ps => objectKeys ps
  | None => []
  end.

Definition validateObjectAgainstSchema (obj : list (string * JsonValue))
  (schema : JsonSchema) (basePath : string) : list ValidationError :=
  let propCount := numLen (objectKeys obj) in
  whenSome (required schema) (requiredErrors obj basePath)
  ++ whenSome (properties schema) (propertyErrors obj basePath)
  ++ (match additionalProperties schema with
      | Some false => additionalErrors obj basePath (allowedProps schema)
      | _ => []
      end)
  ++ whenSome (minProperties schema) (fun m =>
    pushIf (propCount <? m) (minPropertiesError basePath propCount m))
  ++ whenSome (maxProperties schema) (fun m =>
    pushIf (m <? propCount) (maxPropertiesError basePath propCount m)).

(** The dispatch on the runtime type that follows the type check. *)
Definition validateByType (schema : JsonSchema) (json : JsonValue)
  (basePath : string) : list ValidationError :=
  match json with
  | JArray array => validateArrayAgainstSchema array schema basePath
  | JObject obj => validateObjectAgainstSchema obj schema basePath
  | _ => validatePrimitiveAgainstSchema json schema basePath
  end.

(** [schema.type] is set and does not list the type of [json]. *)
Definition typeMismatch (schema : JsonSchema) (json : JsonValue) : bool :=
  match expectedTypesOf schema with
  | Some expectedTypes => negb (includesStr expectedTypes (getTypeName json))
  | None => false
  end.

(** The body of [validateAgainstSchema], with the calls on sub-schemas
    going through [rec]. *)
Definition validateBody (schema : JsonSchema) (json : JsonValue)
  (basePath : string) : list ValidationError :=
  if typeMismatch schema json then
    (* stop further validation on type mismatch *)
    [typeError basePath json (default [] (expectedTypesOf schema))]
  else validateByType schema json basePath.

End Containers.

(** [validateAgainstSchema], by recursion on the schema: every call back
    is on [schema.items] or on a member of [schema.properties]. *)
Fixpoint validateAgainstSchema (schema : JsonSchema) (json : JsonValue)
  (basePath : string) {struct schema} : list ValidationError :=
  validateBody validateAgainstSchema schema json basePath.

Definition validateSchema (json : JsonValue) (schema : JsonSchema)
  : ValidationResult :=
  let errors := validateAgainstSchema schema json "" in
  {| valid := (length errors =? 0)%nat; errors := errors |}.

End WithPlatform.

End Validator.

(** ** Compare Engine (json.compare), on trees *)

Module Compare.

Record JsonDifference : Type := mkDiff {
  path : string;
  type : string;
  valueA : option JsonValue;
  valueB : option JsonValue;
  detail : option string
}.

Record JsonCompareResult : Type := mkCompare {
  equal : bool;
  differences : list JsonDifference;
  similarity : Q
}.

Definition getType (value : JsonValue) : string :=
  match value with
  | JNull => "null"
  | JArray _ => "array"
  | JObject _ => "object"
  | JBool _ => "boolean"
  | JNumber _ => "number"
  | JString _ => "string"
  end.

(** The tail of the [compareArrays] loop once [a] is exhausted. *)
Fixpoint missingInA (path : string) (ys : list JsonValue) (i : nat)
  : list JsonDifference :=
  match ys with
  | [] => []
  | y :: ys' =>
      mkDiff (path +:+ "[" +:+ pretty i +:+ "]") "missing-in-a" None (Some y) None
      :: missingInA path ys' (S i)
  end.

(** [deepCompare(a, b, path, differences)]: the boolean returned and the
    differences pushed, in order.  An object is walked through its own
    property list, whose keys are distinct. *)
Fixpoint deepCompare (a b : JsonValue) (path : string) {struct a}
  : bool * list JsonDifference :=
  if negb (String.eqb (getType a) (getType b)) then
    (false,
     [mkDiff path "type-mismatch" (Some a) (Some b)
        (Some ("Type A: " +:+ getType a +:+ ", Type B: " +:+ getType b))])
  else
    match a, b with
    | JArray xs, JArray ys =>
        let lengthDiff :=
          if negb (length xs =? length ys)%nat then
            [mkDiff path "length-mismatch" (Some (JNumber (Z.of_nat (length xs))))
               (Some (JNumber (Z.of_nat (length ys)))) None]
          else [] in
        let '(eq, ds) :=
          (fix compareArrays (l1 l2 : list JsonValue) (i : nat) {struct l1}
             : bool * list JsonDifference :=
             match l1, l2 with
             | [], [] => (true, [])
             | [], _ :: _ => (false, missingInA path l2 i)
             | x :: r1, [] =>
                 let '(_, ds) := compareArrays r1 [] (S i) in
                 (false,
                  mkDiff (path +:+ "[" +:+ pretty i +:+ "]") "missing-in-b"
                    (Some x) None None :: ds)
             | x :: r1, y :: r2 =>
                 let '(e, d) :=
                   deepCompare x y (path +:+ "[" +:+ pretty i +:+ "]") in
                 let '(e', d') := compareArrays r1 r2 (S i) in
                 (e && e', (d ++ d')%list)
             end) xs ys 0%nat in
        (eq && (length xs =? length ys)%nat, (lengthDiff ++ ds)%list)
    | JObject fs, JObject gs =>
        let propertyPath key :=
          if String.eqb path "" then key else path +:+ "." +:+ key in
        let '(eq, ds) :=
          (fix compareObjects (l1 : list (string * JsonValue)) {struct l1}
             : bool * list JsonDifference :=
             match l1 with
             | [] => (true, [])
             | (key, x) :: r1 =>
                 let '(e, d) :=
                   match getProp gs key with
                   | None =>
                       (false,
                        [mkDiff (propertyPath key) "missing-in-b" (Some x) None None])
                   | Some y => deepCompare x y (propertyPath key)
                   end in
                 let '(e', d') := compareObjects r1 in
                 (e && e', (d ++ d')%list)
             end) fs in
        let onlyB := filter (fun kv => negb (hasProp fs (fst kv))) gs in
        (eq && (length onlyB =? 0)%nat,
         (ds ++ map (fun kv =>
                  mkDiff (propertyPath (fst kv)) "missing-in-a" None (Some (snd kv)) None)
                onlyB)%list)
    | _, _ =>
        if strictEqPrim a b then (true, [])
        else (false, [mkDiff path "value-mismatch" (Some a) (Some b) None])
    end.

(** [deepEqual(a, b)] is [deepCompare(a, b)] with a scratch list. *)
Definition deepEqual (a b : JsonValue) : bool := fst (deepCompare a b "").

(** The inner loop of [compareArraysUnordered]: the first [j] with
    [deepEqual(a[i], bCopy[j])] is spliced out of [bCopy]. *)
Fixpoint spliceFirstMatch (x : JsonValue) (bCopy : list JsonValue)
  : option (list JsonValue) :=
  match bCopy with
  | [] => None
  | y :: rest =>
      if deepEqual x y then Some rest
      else match spliceFirstMatch x rest with
           | Some rest' => Some (y :: rest')
           | None => None
           end
  end.

(** The outer loop, as a state transformer on [bCopy], [matches] and
    [differences]; [i] is the index of the head of [rest]. *)
Fixpoint matchLoop (rest : list JsonValue) (i : nat) (bCopy : list JsonValue)
  (matches : nat) (differences : list JsonDifference)
  : list JsonValue * nat * list JsonDifference :=
  match rest with
  | [] => (bCopy, matches, differences)
  | x :: rest' =>
      match spliceFirstMatch x bCopy with
      | Some bCopy' => matchLoop rest' (S i) bCopy' (S matches) differences
      | None =>
          matchLoop rest' (S i) bCopy matches
            (differences ++
               [mkDiff ("[" +:+ pretty i +:+ "]") "missing-element" (Some x) None None])%list
      end
  end.

Definition ratio (n d : nat) : Q :=
  Qdiv (inject_Z (Z.of_nat n)) (inject_Z (Z.of_nat d)).

(** [compareArraysUnordered(a, b)] on two arrays. *)
Definition compareArraysUnordered (a b : list JsonValue) : JsonCompareResult :=
  if negb (length a =? length b)%nat then
    {| equal := false;
       differences :=
         [mkDiff "" "length-mismatch" (Some (JNumber (Z.of_nat (length a))))
            (Some (JNumber (Z.of_nat (length b)))) None];
       similarity := 0%Q |}
  else
    let '(bCopy, matches, differences) := matchLoop a 0 b 0 [] in
    let differences :=
      (differences ++
         map (fun extra => mkDiff "" "extra-element" None (Some extra) None) bCopy)%list in
    {| equal := (length differences =? 0)%nat;
       differences := differences;
       similarity := if (0 <? length a)%nat then ratio matches (length a) else 1%Q |}.

(** *** The matching as the specification words it

    For each element of [a], scan the remaining unmatched elements of [b]
    for the first deep-equal one and remove it from the pool. *)
Fixpoint firstMatch (x : JsonValue) (pool : list JsonValue) : option nat :=
  match pool with
  | [] => None
  | y :: rest =>
      if deepEqual x y then Some 0%nat
      else option_map S (firstMatch x rest)
  end.

(** The outcome of the greedy matching: the indexed elements of [a] left
    unmatched, the elements of [b] left over, and the number of matches. *)
Fixpoint greedy (a : list JsonValue) (i : nat) (pool : list JsonValue)
  : list (nat * JsonValue) * list JsonValue * nat :=
  match a with
  | [] => ([], pool, 0%nat)
  | x :: rest =>
      match firstMatch x pool with
      | Some j =>
          let '(un, leftover, m) := greedy rest (S i) (delete j pool) in
          (un, leftover, S m)
      | None =>
          let '(un, leftover, m) := greedy rest (S i) pool in
          ((i, x) :: un, leftover, m)
      end
  end.

(** The result the specification describes for every pair of arrays. *)
Definition specUnordered (a b : list JsonValue) : JsonCompareResult :=
  let '(un, leftover, m) := greedy a 0 b in
  let differences :=
    (map (fun ix => mkDiff ("[" +:+ pretty (fst ix) +:+ "]") "missing-element"
                      (Some (snd ix)) None None) un
     ++ map (fun extra => mkDiff "" "extra-element" None (Some extra) None) leftover)%list in
  {| equal := (length differences =? 0)%nat;
     differences := differences;
     similarity :=
       match a with
       | [] => if (length b =? 0)%nat then 1%Q else 0%Q
       | _ => ratio m (length a)
       end |}.

End Compare.

(** ** Generate Engine (json.generate), on trees *)

Module Generate.

Inductive GenError : Type :=
| JsonGeneratorError (message : string)
| OtherError (message : string).

Definition errorMessage (e : GenError) : string :=
  match e with JsonGeneratorError m => m | OtherError m => m end.

(** The outcome of a template computation; a value of [None] is
    [undefined]. *)
Definition Gen (A : Type) : Type := Outcome GenError A.

Definition bindO {A B : Type} (m : Gen A) (k : A -> Gen B) : Gen B :=
  match m with
  | Returns a => k a
  | Throws e => Throws e
  | OutOfFuel => OutOfFuel
  end.

Notation "x <- m ;; k" := (bindO m (fun x => k))
  (at level 100, m at next level, right associativity) : gen_scope.
Local Open Scope gen_scope.

Fixpoint mapO {A B : Type} (f : A -> Gen B) (l : list A) : Gen (list B) :=
  match l with
  | [] => Returns []
  | x :: rest => y <- f x ;; ys <- mapO f rest ;; Returns (y :: ys)
  end.

Inductive OnError : Type := OnThrow | OnDefault | OnIgnore.

Record JsonGeneratorOptions : Type := mkOptions {
  strict : bool;
  defaultValue : option JsonValue;
  validate : bool;
  validationSchema : option JsonValue;
  onError : OnError
}.

(** The defaults of the destructuring in [generateJson]. *)
Definition defaultOptions : JsonGeneratorOptions :=
  {| strict := false; defaultValue := Some JNull; validate := false;
     validationSchema := None; onError := OnThrow |}.

(** Truthiness of a property that may be absent. *)
Definition truthy (v : option JsonValue) : bool :=
  match v with
  | None | Some JNull | Some (JBool false) | Some (JNumber 0) | Some (JString "") => false
  | Some _ => true
  end.

Fixpoint deepCloneTemplate (template : JsonValue) : JsonValue :=
  match template with
  | JArray xs => JArray (map deepCloneTemplate xs)
  | JObject fs => JObject (map (fun kv => (fst kv, deepCloneTemplate (snd kv))) fs)
  | _ => template
  end.

Section WithCollaborators.

(** The collaborators of the template processor that are taken as given:
    the Path Engine's [getValue] on the data context, the placeholder
    expansion of a string, the evaluation of a string condition, the
    arithmetic of the math directive on processed operands, the clock and
    the random source, the number of iterations a truthy [$count] stands
    for, and the validity flag of [validateJson]. *)
Variable getValue : list (string * JsonValue) -> JsonValue -> option JsonValue.
Variable processTemplateString :
  string -> list (string * JsonValue) -> bool -> option JsonValue ->
  Gen (option JsonValue).
Variable evalStringCondition : string -> list (string * JsonValue) -> bool.
Variable mathOperation : option JsonValue -> list (option JsonValue) -> option JsonValue.
Variable generateDate : list (string * JsonValue) -> list (string * JsonValue) -> string.
Variable generateRandomValue : list (string * JsonValue) -> JsonValue.
Variable iterations : JsonValue -> nat.
Variable validateJsonValid : option JsonValue -> option JsonValue -> bool.

Definition evaluateCondition (condition : option JsonValue)
  (data : list (string * JsonValue)) : bool :=
  match condition with
  | Some (JString s) => evalStringCondition s data
  | _ => truthy condition
  end.

(** [caseItem.$condition] and [caseItem.$value]: reading a property of
    [null] throws, a primitive has none. *)
Definition caseField (caseItem : JsonValue) (key : string)
  : Gen (option JsonValue) :=
  match caseItem with
  | JNull => Throws (OtherError "Cannot read properties of null")
  | JObject fs => Returns (getProp fs key)
  | _ => Returns None
  end.

Definition orUndefined (v : option JsonValue) : string :=
  match v with Some x => toStringJS x | None => "undefined" end.

(** [processTemplate] and [processTemplateDirective]; [fuel] bounds the
    nesting depth of the calls.  A tree holds no [undefined]: an array
    element that processes to [undefined] is kept as null and an object
    property that does is left out. *)
Fixpoint processTemplate (fuel : nat) (template : option JsonValue)
  (data : list (string * JsonValue)) (strict : bool)
  (defaultValue : option JsonValue) {struct fuel} : Gen (option JsonValue) :=
  match fuel with
  | O => OutOfFuel
  | S fuel =>
      let process t d := processTemplate fuel t d strict defaultValue in
      match template with
      | Some (JString s) => processTemplateString s data strict defaultValue
      | Some (JArray xs) =>
          ys <- mapO (fun item => process (Some item) data) xs ;;
          Returns (Some (JArray (map (fun y => match y with Some v => v | None => JNull end) ys)))
      | Some (JObject directive) =>
          if truthy (getProp directive "$type") then
            (* processTemplateDirective *)
            match getProp directive "$type" with
            | Some (JString "ref") =>
                let path := getProp directive "$path" in
                if negb (truthy path) then
                  Throws (JsonGeneratorError "Missing $path in $type:ref directive")
                else
                  match getValue data (match path with Some p => p | None => JNull end) with
                  | None =>
                      if strict then
                        Throws (JsonGeneratorError
                                  ("Missing data for path: " +:+ orUndefined path))
                      else
                        Returns (match getProp directive "$default" with
                                 | Some d => Some d
                                 | None => defaultValue
                                 end)
                  | Some value => Returns (Some value)
                  end
            | Some (JString "array") =>
                let items := getProp directive "$items" in
                let count := getProp directive "$count" in
                if truthy items && truthy count then
                  let n := iterations (match count with Some c => c | None => JNull end) in
                  ys <- mapO (fun i : nat =>
                          process items
                            (setProp (setProp data "$index" (JNumber (Z.of_nat i)))
                               "$count" (match count with Some c => c | None => JNull end)))
                        (seq 0 n) ;;
                  Returns (Some (JArray (map (fun y => match y with Some v => v | None => JNull end) ys)))
                else if truthy items then process items data
                else Returns (Some (JArray []))
            | Some (JString "object") =>
                match getProp directive "$properties" with
                | Some (JObject ps) => process (Some (JObject ps)) data
                | Some (JArray ps) => process (Some (JArray ps)) data
                | _ => Returns (Some (JObject []))
                end
            | Some (JString "switch") =>
                let defaultCase := getProp directive "$default" in
                let fallback :=
                  match defaultCase with
                  | Some d => process (Some d) data
                  | None => Returns defaultValue
                  end in
                match getProp directive "$cases" with
                | Some (JArray cases) =>
                    (fix firstCase (cs : list JsonValue) : Gen (option JsonValue) :=
                       match cs with
                       | [] => fallback
                       | caseItem :: cs' =>
                           condition <- caseField caseItem "$condition" ;;
                           value <- caseField caseItem "$value" ;;
                           if evaluateCondition condition data
                           then process value data
                           else firstCase cs'
                       end) cases
                | _ => fallback
                end
            | Some (JString "transform") =>
                (* a JSON template holds no function in $transform *)
                Returns defaultValue
            | Some (JString "concat") =>
                match getProp directive "$parts" with
                | Some (JArray parts) =>
                    ys <- mapO (fun part => process (Some part) data) parts ;;
                    let separator :=
                      if truthy (getProp directive "$separator")
                      then orUndefined (getProp directive "$separator") else "" in
                    Returns (Some (JString (String.concat separator (map orUndefined ys))))
                | _ => Returns (Some (JString ""))
                end
            | Some (JString "math") =>
                operands <-
                  match getProp directive "$operands" with
                  | Some (JArray ops) => Returns ops
                  | other =>
                      if truthy other
                      then Throws (OtherError "operands.map is not a function")
                      else Returns []
                  end ;;
                ys <- mapO (fun operand => process (Some operand) data) operands ;;
                match mathOperation (getProp directive "$operation") ys with
                | Some r => Returns (Some r)
                | None =>
                    Throws (JsonGeneratorError
                              ("Unknown math operation: "
                                 +:+ orUndefined (getProp directive "$operation")))
                end
            | Some (JString "date") =>
                Returns (Some (JString (generateDate directive data)))
            | Some (JString "random") =>
                Returns (Some (generateRandomValue directive))
            | type =>
                Throws (JsonGeneratorError
                          ("Unknown template directive: " +:+ orUndefined type))
            end
          else
            ys <- mapO (fun kv => v <- process (Some (snd kv)) data ;; Returns (fst kv, v))
                    directive ;;
            Returns (Some (JObject
              (flat_map (fun kv => match snd kv with
                                   | Some v => [(fst kv, v)]
                                   | None => []
                                   end) ys)))
      | _ => Returns template
      end
  end.

(** [generateJson(template, data, options)]; [data] is [None] when the
    argument is omitted. *)
Definition generateJson (fuel : nat) (template : JsonValue)
  (data : option (list (string * JsonValue))) (options : JsonGeneratorOptions)
  : Gen (option JsonValue) :=
  let attempt :=
    let result := Some (deepCloneTemplate template) in
    result <- match data with
              | Some d => processTemplate fuel result d (strict options) (defaultValue options)
              | None => Returns result
              end ;;
    if validate options
       && negb (validateJsonValid result (validationSchema options))
       && strict options
    then Throws (JsonGeneratorError "Generated JSON failed validation")
    else Returns result in
  match attempt with
  | Throws error =>
      match onError options with
      | OnThrow =>
          match error with
          | JsonGeneratorError _ => Throws error
          | OtherError m => Throws (JsonGeneratorError ("Failed to generate JSON: " +:+ m))
          end
      | OnDefault => Returns (defaultValue options)
      | OnIgnore => Returns (Some template)
      end
  | other => other
  end.

End WithCollaborators.

End Generate.

(** ** The store of JavaScript objects

    A value is a primitive or a reference to an object of the store; two
    references to the same location are the same object, so a write through
    one is seen through the other. *)

Module Store.

Abbreviation loc := nat.

Inductive val : Type :=
| VUndefined
| VNull
| VBool (b : bool)
| VNumber (n : Z)
| VString (s : string)
| VRef (l : loc).

(** An array holds its elements and the properties stored on it under
    keys that are not indices (the code can only create those under a
    negative number); a plain object holds its properties in insertion
    order. *)
Inductive object : Type :=
| Arr (elems : list val) (extra : list (string * val))
| Obj (fields : list (string * val)).

Abbreviation heap := (list object).

Inductive JsError : Type :=
| JsonPathError (message path : string)
| JsonMergeError (message path : string) (valueA valueB : val)
| JsonCompareError (message : string)
| TypeError (message : string).

(** A computation reads and writes the store; a thrown error keeps the
    writes made before it. *)
Definition M (A : Type) : Type := heap -> Outcome JsError A * heap.

Definition ret {A : Type} (a : A) : M A := fun h => (Returns a, h).

Definition bind {A B : Type} (m : M A) (k : A -> M B) : M B :=
  fun h =>
    match m h with
    | (Returns a, h') => k a h'
    | (Throws e, h') => (Throws e, h')
    | (OutOfFuel, h') => (OutOfFuel, h')
    end.

Definition throw {A : Type} (e : JsError) : M A := fun h => (Throws e, h).

Definition outOfFuel {A : Type} : M A := fun h => (OutOfFuel, h).

Notation "x <- m ;; k" := (bind m (fun x => k))
  (at level 100, m at next level, right associativity) : js_scope.
Notation "m ;;; k" := (bind m (fun _ => k))
  (at level 100, right associativity) : js_scope.
Local Open Scope js_scope.

(** [try { m } catch { handler }]. *)
Definition tryCatch {A : Type} (m : M A) (handler : JsError -> M A) : M A :=
  fun h =>
    match m h with
    | (Throws e, h') => handler e h'
    | other => other
    end.

(** A new object gets the next free location. *)
Definition alloc (o : object) : M val :=
  fun h => (Returns (VRef (length h)), (h ++ [o])%list).

Definition readHeap : M heap := fun h => (Returns h, h).

Definition store (l : loc) (o : object) : M unit :=
  fun h => (Returns tt, <[l := o]> h).

(** The object a value refers to, if it refers to one. *)
Definition objectOf (h : heap) (v : val) : option object :=
  match v with VRef l => h !! l | _ => None end.

Definition isArray (h : heap) (v : val) : bool :=
  match objectOf h v with Some (Arr _ _) => true | _ => false end.

Definition isPlainObject (h : heap) (v : val) : bool :=
  match objectOf h v with Some (Obj _) => true | _ => false end.

Definition isNullish (v : val) : bool :=
  match v with VUndefined | VNull => true | _ => false end.

(** [s] repeated: [n] times [undefined], for an array that is extended. *)
Definition undefineds (n : nat) : list val := replicate n VUndefined.

(** [arr[k]] on the parts of an array. *)
Definition arrayGet (elems : list val) (extra : list (string * val)) (k : Z)
  : val :=
  if k <? 0 then
    match getProp extra (pretty k) with Some v => v | None => VUndefined end
  else
    match elems !! Z.to_nat k with Some v => v | None => VUndefined end.

(** [arr[k] = v]: an index past the end extends the array, a negative
    number is an ordinary property key. *)
Definition arraySet (elems : list val) (extra : list (string * val)) (k : Z)
  (v : val) : object :=
  if k <? 0 then Arr elems (setProp extra (pretty k) v)
  else if (Z.to_nat k <? length elems)%nat then Arr (<[Z.to_nat k := v]> elems) extra
  else Arr (elems ++ undefineds (Z.to_nat k - length elems) ++ [v])%list extra.

(** [arr.splice(k, 1)]. *)
Definition arraySplice1 (elems : list val) (k : Z) : list val :=
  let len := Z.of_nat (length elems) in
  let start := if k <? 0 then Z.max (len + k) 0 else Z.min k len in
  delete (Z.to_nat start) elems.

(** *** Trees in the store

    [allocJson] builds a JSON tree in the store, every node a new object;
    [snapshot] reads the structure reachable from a value back, which is
    how two states of an argument are compared. *)

Inductive shape : Type :=
| SUndefined
| SNull
| SBool (b : bool)
| SNumber (n : Z)
| SString (s : string)
| SArray (elems : list shape) (extra : list (string * shape))
| SObject (fields : list (string * shape)).

Fixpoint shapeOf (j : JsonValue) : shape :=
  match j with
  | JNull => SNull
  | JBool b => SBool b
  | JNumber n => SNumber n
  | JString s => SString s
  | JArray xs => SArray (map shapeOf xs) []
  | JObject fs => SObject (map (fun kv => (fst kv, shapeOf (snd kv))) fs)
  end.

Fixpoint allocJson (j : JsonValue) : M val :=
  match j with
  | JNull => ret VNull
  | JBool b => ret (VBool b)
  | JNumber n => ret (VNumber n)
  | JString s => ret (VString s)
  | JArray xs =>
      elems <- (fix go (l : list JsonValue) : M (list val) :=
                  match l with
                  | [] => ret []
                  | x :: rest => v <- allocJson x ;; vs <- go rest ;; ret (v :: vs)
                  end) xs ;;
      alloc (Arr elems [])
  | JObject fs =>
      fields <- (fix go (l : list (string * JsonValue)) : M (list (string * val)) :=
                   match l with
                   | [] => ret []
                   | (k, x) :: rest =>
                       v <- allocJson x ;; vs <- go rest ;; ret ((k, v) :: vs)
                   end) fs ;;
      alloc (Obj fields)
  end.

Fixpoint snapshot (fuel : nat) (h : heap) (v : val) : option shape :=
  match v with
  | VUndefined => Some SUndefined
  | VNull => Some SNull
  | VBool b => Some (SBool b)
  | VNumber n => Some (SNumber n)
  | VString s => Some (SString s)
  | VRef l =>
      match fuel with
      | O => None
      | S fuel =>
          let snapAll (vs : list val) : option (list shape) :=
            foldr (fun v acc =>
                     match snapshot fuel h v, acc with
                     | Some s, Some ss => Some (s :: ss)
                     | _, _ => None
                     end) (Some []) vs in
          let snapProps (ps : list (string * val)) : option (list (string * shape)) :=
            foldr (fun kv acc =>
                     match snapshot fuel h (snd kv), acc with
                     | Some s, Some ss => Some ((fst kv, s) :: ss)
                     | _, _ => None
                     end) (Some []) ps in
          match h !! l with
          | Some (Arr elems extra) =>
              match snapAll elems, snapProps extra with
              | Some es, Some xs => Some (SArray es xs)
              | _, _ => None
              end
          | Some (Obj fields) =>
              match snapProps fields with
              | Some fs => Some (SObject fs)
              | None => None
              end
          | None => None
          end
      end
  end.

End Store.

(** ** Path Engine (json.path), on the store *)

Module Path.

Import Store.
Local Open Scope js_scope.
Local Open Scope char_scope.

Inductive Segment : Type :=
| Key (s : string)
| Index (n : Z).

Definition segmentText (s : Segment) : string :=
  match s with Key k => k | Index n => pretty n end.

(** *** parsePathExpression *)

Definition quoteChar : Ascii.ascii := Ascii.ascii_of_nat 34.
Definition isQuote (c : Ascii.ascii) : bool :=
  Ascii.eqb c quoteChar || Ascii.eqb c "'".

Definition isSpace (c : Ascii.ascii) : bool :=
  let n := Ascii.nat_of_ascii c in
  ((n =? 32) || ((9 <=? n) && (n <=? 13)))%nat.

Definition isDigit (c : Ascii.ascii) : bool :=
  let n := Ascii.nat_of_ascii c in ((48 <=? n) && (n <=? 57))%nat.

Fixpoint dropSpaces (l : list Ascii.ascii) : list Ascii.ascii :=
  match l with
  | c :: rest => if isSpace c then dropSpaces rest else l
  | [] => []
  end.

(** [content.trim()]. *)
Definition trim (l : list Ascii.ascii) : list Ascii.ascii :=
  rev (dropSpaces (rev (dropSpaces l))).

(** [/^-?\d+$/.test(content)]. *)
Definition isIntegerText (l : list Ascii.ascii) : bool :=
  let digits := match l with "-" :: rest => rest | _ => l end in
  negb (length digits =? 0)%nat && forallb isDigit digits.

(** [parseInt(content, 10)] on a text that passed the test above. *)
Definition parseInt (l : list Ascii.ascii) : Z :=
  let digitsValue ds :=
    fold_left (fun acc c => acc * 10 + (Z.of_nat (Ascii.nat_of_ascii c) - 48)) ds 0 in
  match l with
  | "-" :: rest => - digitsValue rest
  | _ => digitsValue l
  end.

(** [s.replace(/\\q/g, q)]: a backslash before the quote [q] is dropped. *)
Fixpoint unescape (q : Ascii.ascii) (l : list Ascii.ascii) : list Ascii.ascii :=
  match l with
  | [] => []
  | a :: t =>
      match t with
      | c :: r =>
          if Ascii.eqb a "\" && Ascii.eqb c q then q :: unescape q r
          else a :: unescape q t
      | [] => [a]
      end
  end.

Definition startsWith (c : Ascii.ascii) (l : list Ascii.ascii) : bool :=
  match l with a :: _ => Ascii.eqb a c | [] => false end.

Definition endsWith (c : Ascii.ascii) (l : list Ascii.ascii) : bool :=
  startsWith c (rev l).

(** [content.slice(1, -1)]. *)
Definition slice1 (l : list Ascii.ascii) : list Ascii.ascii :=
  removelast (tail l).

Definition text (l : list Ascii.ascii) : string := string_of_list_ascii l.

(** The segment a bracket body stands for. *)
Definition bracketSegment (content : list Ascii.ascii) : Segment :=
  if isIntegerText content then Index (parseInt content)
  else if (startsWith quoteChar content && endsWith quoteChar content)
          || (startsWith "'" content && endsWith "'" content)
  then Key (text (unescape "'" (unescape quoteChar (slice1 content))))
  else Key (text content).

(** The scanning loop: [chars] is what is left of the expression, [prev]
    the character before it, and the other arguments are the loop's
    variables ([quote] is [None] for the empty [quoteChar]). *)
Fixpoint parseLoop (expression : string) (chars : list Ascii.ascii)
  (prev : option Ascii.ascii) (segments : list Segment)
  (current : list Ascii.ascii) (inBrackets : bool) (quote : option Ascii.ascii)
  : Outcome JsError (list Segment) :=
  match chars with
  | [] =>
      let segments :=
        if (length current =? 0)%nat then segments
        else (segments ++ [Key (text current)])%list in
      if inBrackets
      then Throws (JsonPathError "Unclosed bracket in path expression" expression)
      else Returns segments
  | char :: rest =>
      let continue := parseLoop expression rest (Some char) in
      if inBrackets then
        match quote with
        | Some q =>
            let escaped := match prev with Some p => Ascii.eqb p "\" | None => false end in
            if Ascii.eqb char q && negb escaped
            then continue segments (current ++ [char])%list true None
            else continue segments (current ++ [char])%list true quote
        | None =>
            if isQuote char then
              continue segments (current ++ [char])%list true (Some char)
            else if Ascii.eqb char "]" then
              let content := trim current in
              if (length content =? 0)%nat
              then Throws (JsonPathError "Empty bracket expression" expression)
              else continue (segments ++ [bracketSegment content])%list [] false None
            else continue segments (current ++ [char])%list true None
        end
      else if Ascii.eqb char "." then
        if (length current =? 0)%nat then continue segments [] false quote
        else continue (segments ++ [Key (text current)])%list [] false quote
      else if Ascii.eqb char "[" then
        if (length current =? 0)%nat then continue segments [] true quote
        else continue (segments ++ [Key (text current)])%list [] true quote
      else continue segments (current ++ [char])%list false quote
  end.

Definition parsePathExpression (expression : string)
  : Outcome JsError (list Segment) :=
  if String.eqb expression "" then Returns []
  else parseLoop expression (list_ascii_of_string expression) None [] [] false None.

(** [getPathString(segments)]. *)
Fixpoint dropDotBeforeBracket (l : list Ascii.ascii) : list Ascii.ascii :=
  match l with
  | [] => []
  | a :: t =>
      match t with
      | c :: r =>
          if Ascii.eqb a "." && Ascii.eqb c "[" then "[" :: dropDotBeforeBracket r
          else a :: dropDotBeforeBracket t
      | [] => [a]
      end
  end.

Definition getPathString (segments : list Segment) : string :=
  text (dropDotBeforeBracket (list_ascii_of_string
    (String.concat "."
       (map (fun s => match s with
                      | Index n => "[" +:+ pretty n +:+ "]"
                      | Key k => k
                      end) segments)))).

Local Close Scope char_scope.

(** *** jsonPath *)

Record JsonPathOptions : Type := mkPathOptions {
  create : bool;
  deleteFlag : bool;
  newValue : val;
  multiple : bool
}.

(** [options = {}]. *)
Definition noOptions : JsonPathOptions :=
  {| create := false; deleteFlag := false; newValue := VUndefined; multiple := false |}.

Record JsonPathResult : Type := mkPathResult {
  value : val;
  parent : val;
  key : Segment;
  exists_ : bool;
  target : val
}.

Definition createDefaultValue (currentSegment : Segment)
  (nextSegment : option Segment) : object :=
  match nextSegment with
  | Some (Index _) => Arr [] []
  | Some (Key "0") => Arr [] []
  | Some (Key _) => Obj []
  | None =>
      match currentSegment with
      | Index _ => Arr [] []
      | Key _ => Obj []
      end
  end.

Definition isNull (v : val) : bool :=
  match v with VNull => true | _ => false end.

(** [parent[parentKey] = v] on the object [parent] refers to, as the code
    writes it: through a number on an array and through a string
    otherwise. *)
Definition writeMember (o : object) (parentKey : Segment) (v : val) : object :=
  match o with
  | Arr elems extra =>
      match parentKey with
      | Index n => arraySet elems extra n v
      | Key s => Arr elems (setProp extra s v)
      end
  | Obj fields => Obj (setProp fields (segmentText parentKey) v)
  end.

(** Module code runs in strict mode, where creating a property on a
    primitive raises a TypeError. *)
Definition setMember (parent : val) (parentKey : Segment) (v : val) : M unit :=
  h <- readHeap ;;
  match parent with
  | VRef l =>
      match h !! l with
      | Some o => store l (writeMember o parentKey v)
      | None => throw (TypeError "Cannot create property on a missing object")
      end
  | _ => throw (TypeError ("Cannot create property " +:+ segmentText parentKey))
  end.

(** [parent.splice(parentKey, 1)] on an array, [delete parent[parentKey]]
    otherwise. *)
Definition deleteMember (parent : val) (parentKey : Segment) : M unit :=
  h <- readHeap ;;
  match parent with
  | VRef l =>
      match h !! l with
      | Some (Arr elems extra) =>
          match parentKey with
          | Index n => store l (Arr (arraySplice1 elems n) extra)
          | Key s => ret tt
          end
      | Some (Obj fields) => store l (Obj (deleteProp fields (segmentText parentKey)))
      | None => ret tt
      end
  | _ => ret tt
  end.

(** [while (current.length <= k) current.push(undefined)]. *)
Definition extendTo (elems : list val) (k : Z) : list val :=
  if Z.of_nat (length elems) <=? k
  then (elems ++ undefineds (Z.to_nat (k + 1) - length elems))%list
  else elems.

(** The state of the traversal loop. *)
Record Cursor : Type := mkCursor {
  current : val;
  cparent : val;
  parentKey : Segment;
  cexists : bool
}.

(** The traversal loop of [jsonPath]: [rest] holds [segments[i..]], and the
    result is the state of the loop variables when the loop is left, by
    exhaustion or by [break]. *)
Fixpoint traverse (create : bool) (expression : string) (segments : list Segment)
  (i : nat) (rest : list Segment) (c : Cursor) {struct rest} : M Cursor :=
  match rest with
  | [] => ret c
  | segment :: rest' =>
      let isLast := match rest' with [] => true | _ => false end in
      (* the container a missing link is replaced by *)
      let fresh :=
        match rest' with
        | [] => createDefaultValue segment None
        | nextSegment :: rest'' => createDefaultValue nextSegment (head rest'')
        end in
      c <- (if isNullish (current c) then
              if negb create then
                throw (JsonPathError
                         ("Cannot traverse null/undefined at path: "
                            +:+ getPathString (take i segments)) expression)
              else
                cur <- alloc fresh ;;
                (if negb (isNull (cparent c))
                 then setMember (cparent c) (parentKey c) cur
                 else ret tt) ;;;
                ret (mkCursor cur (cparent c) (parentKey c) false)
            else ret c) ;;
      let c := mkCursor (current c) (current c) segment (cexists c) in
      h <- readHeap ;;
      match current c with
      | VRef l =>
          match h !! l with
          | Some (Arr elems extra) =>
              match segment with
              | Index n =>
                  let len := Z.of_nat (length elems) in
                  let idx := if n <? 0 then len + n else n in
                  let outOfBounds :=
                    if n <? 0 then (idx <? 0) || (len <=? idx) else len <=? n in
                  elems <- (if outOfBounds then
                              if create then
                                store l (Arr (extendTo elems idx) extra) ;;;
                                ret (extendTo elems idx)
                              else
                                throw (JsonPathError
                                         ("Array index out of bounds: " +:+ pretty n)
                                         expression)
                            else ret elems) ;;
                  traverse create expression segments (S i) rest'
                    (mkCursor (arrayGet elems extra idx) (cparent c) (parentKey c)
                       (cexists c))
              | Key s =>
                  throw (JsonPathError ("Expected array index, got: " +:+ s) expression)
              end
          | Some (Obj fields) =>
              match segment with
              | Key s =>
                  if hasProp fields s then
                    traverse create expression segments (S i) rest'
                      (mkCursor (default VUndefined (getProp fields s))
                         (cparent c) (parentKey c) (cexists c))
                  else if create then
                    v <- (if isLast then ret VUndefined else alloc fresh) ;;
                    store l (Obj (setProp fields s v)) ;;;
                    traverse create expression segments (S i) rest'
                      (mkCursor v (cparent c) (parentKey c) (cexists c))
                  else if negb isLast then
                    ret (mkCursor (current c) (cparent c) (parentKey c) false)
                  else
                    traverse create expression segments (S i) rest'
                      (mkCursor VUndefined (cparent c) (parentKey c) (cexists c))
              | Index n =>
                  throw (JsonPathError ("Expected object key, got: " +:+ pretty n)
                           expression)
              end
          | None => throw (TypeError "missing object")
          end
      | _ =>
          (* a primitive: the traversal cannot go deeper *)
          if create && isLast then
            defaultValue <- alloc (createDefaultValue segment (head rest')) ;;
            (if negb (isNull (cparent c))
             then setMember (cparent c) (parentKey c) defaultValue
             else ret tt) ;;;
            traverse create expression segments (S i) rest'
              (mkCursor defaultValue (cparent c) (parentKey c) (cexists c))
          else
            ret (mkCursor (current c) (cparent c) (parentKey c) false)
      end
  end.

Definition liftOutcome {A : Type} (o : Outcome JsError A) : M A :=
  fun h => (o, h).

Definition jsonPath (json : val) (expression : string) (options : JsonPathOptions)
  : M JsonPathResult :=
  segments <- liftOutcome (parsePathExpression expression) ;;
  match segments with
  | [] => ret (mkPathResult json VNull (Key "") true json)
  | _ =>
      c <- traverse (create options) expression segments 0 segments
             (mkCursor json VNull (Key "") true) ;;
      let assign :=
        if negb (isNull (cparent c))
        then setMember (cparent c) (parentKey c) (newValue options)
        else ret tt in
      let isDefined := match newValue options with VUndefined => false | _ => true end in
      if cexists c then
        if deleteFlag options then
          (if negb (isNull (cparent c))
           then deleteMember (cparent c) (parentKey c)
           else ret tt) ;;;
          ret (mkPathResult VUndefined (cparent c) (parentKey c) false json)
        else if isDefined then
          assign ;;;
          ret (mkPathResult (newValue options) (cparent c) (parentKey c) true json)
        else
          ret (mkPathResult (current c) (cparent c) (parentKey c) true json)
      else if create options && isDefined && negb (isNull (cparent c)) then
        assign ;;;
        ret (mkPathResult (newValue options) (cparent c) (parentKey c) true json)
      else
        ret (mkPathResult VUndefined (cparent c) (parentKey c) false json)
  end.

Definition getValue (json : val) (path : string) : M val :=
  tryCatch (result <- jsonPath json path noOptions ;; ret (value result))
           (fun _ => ret VUndefined).

Definition setValue (json : val) (path : string) (v : val) : M val :=
  result <- jsonPath json path
              {| create := true; deleteFlag := false; newValue := v; multiple := false |} ;;
  ret (target result).

Definition deleteValue (json : val) (path : string) : M val :=
  jsonPath json path
    {| create := false; deleteFlag := true; newValue := VUndefined; multiple := false |} ;;;
  ret json.

Definition hasPath (json : val) (path : string) : M bool :=
  tryCatch (result <- jsonPath json path noOptions ;; ret (exists_ result))
           (fun _ => ret false).

End Path.

(** ** Merge Engine (json.merge), on the store

    An array or object that a function builds from scratch and returns is
    kept as a list until it is complete and enters the store then; an
    object obtained from another call ([result = deepClone(target)]) is
    written to where it lives. *)

Module Merge.

Import Store.
Local Open Scope js_scope.

Fixpoint mapM {A B : Type} (f : A -> M B) (l : list A) : M (list B) :=
  match l with
  | [] => ret []
  | x :: rest => y <- f x ;; ys <- mapM f rest ;; ret (y :: ys)
  end.

(** [for (const x of l) { acc = f(acc, x) }]. *)
Fixpoint foldM {A B : Type} (f : B -> A -> M B) (l : list A) (acc : B) : M B :=
  match l with
  | [] => ret acc
  | x :: rest => acc' <- f acc x ;; foldM f rest acc'
  end.

Definition getValueType (h : heap) (v : val) : string :=
  match v with
  | VNull => "null"
  | VUndefined => "undefined"
  | VBool _ => "boolean"
  | VNumber _ => "number"
  | VString _ => "string"
  | VRef l => match h !! l with Some (Arr _ _) => "array" | _ => "object" end
  end.

(** [a === b]: primitives by value, objects by identity. *)
Definition strictEq (a b : val) : bool :=
  match a, b with
  | VUndefined, VUndefined => true
  | VNull, VNull => true
  | VBool x, VBool y => Bool.eqb x y
  | VNumber x, VNumber y => Z.eqb x y
  | VString x, VString y => String.eqb x y
  | VRef x, VRef y => Nat.eqb x y
  | _, _ => false
  end.

(** [String(v)] of a primitive. *)
Definition primText (v : val) : string :=
  match v with
  | VUndefined => "undefined"
  | VNull => "null"
  | VBool true => "true"
  | VBool false => "false"
  | VNumber n => pretty n
  | VString s => s
  | VRef _ => "[object Object]"
  end.

(** [Object.entries(o)]: the elements of an array under their indices, then
    its other properties; the properties of a plain object. *)
Definition entriesOf (o : object) : list (string * val) :=
  match o with
  | Arr elems extra => (imap (fun i v => (pretty i, v)) elems ++ extra)%list
  | Obj fields => fields
  end.

Definition elemsOf (h : heap) (v : val) : list val :=
  match objectOf h v with Some (Arr elems _) => elems | _ => [] end.

Definition fieldsOf (h : heap) (v : val) : list (string * val) :=
  match objectOf h v with Some (Obj fields) => fields | _ => [] end.

(** [deepClone(value)]. *)
Fixpoint deepClone (fuel : nat) (value : val) : M val :=
  match value with
  | VRef l =>
      match fuel with
      | O => outOfFuel
      | S fuel =>
          h <- readHeap ;;
          match h !! l with
          | Some (Arr elems _) =>
              items <- mapM (deepClone fuel) elems ;;
              alloc (Arr items [])
          | Some (Obj fields) =>
              cloned <- mapM (fun kv => v <- deepClone fuel (snd kv) ;; ret (fst kv, v))
                          fields ;;
              alloc (Obj cloned)
          | None => ret value
          end
      end
  | _ => ret value
  end.

(** The [deepEqual] of this module. *)
Fixpoint deepEqual (fuel : nat) (a b : val) : M bool :=
  if strictEq a b then ret true
  else
    match fuel with
    | O => outOfFuel
    | S fuel =>
        h <- readHeap ;;
        match objectOf h a, objectOf h b with
        | Some (Arr xs _), Some (Arr ys _) =>
            if negb (length xs =? length ys)%nat then ret false
            else
              (fix loop (l1 l2 : list val) : M bool :=
                 match l1, l2 with
                 | x :: r1, y :: r2 =>
                     e <- deepEqual fuel x y ;;
                     if e then loop r1 r2 else ret false
                 | _, _ => ret true
                 end) xs ys
        | Some oa, Some ob =>
            let keysA := objectKeys (entriesOf oa) in
            let keysB := objectKeys (entriesOf ob) in
            if negb (length keysA =? length keysB)%nat then ret false
            else
              (fix loop (keys : list string) : M bool :=
                 match keys with
                 | [] => ret true
                 | key :: rest =>
                     if negb (includesStr keysB key) then ret false
                     else
                       e <- deepEqual fuel
                              (default VUndefined (getProp (entriesOf oa) key))
                              (default VUndefined (getProp (entriesOf ob) key)) ;;
                       if e then loop rest else ret false
                 end) keysA
        | _, _ => ret false
        end
    end.

Record JsonMergeOptions : Type := mkMergeOptions {
  strategy : string;
  arrayStrategy : string;
  conflictStrategy : string;
  customMerge : option (string -> val -> val -> M val);
  maxDepth : Z
}.

(** The defaults of the destructuring in [deepMerge]. *)
Definition defaultMergeOptions : JsonMergeOptions :=
  {| strategy := "deep"; arrayStrategy := "concat"; conflictStrategy := "source";
     customMerge := None; maxDepth := 100 |}.

Section WithStringify.

(** [JSON.stringify(item)], which reads the store. *)
Variable stringify : heap -> val -> string.

(** The filter of the union strategy: an item is kept when its key was
    not seen before. *)
Fixpoint unionFilter (h : heap) (seen : list string) (combined : list val)
  : list val :=
  match combined with
  | [] => []
  | item :: rest =>
      let key := stringify h item in
      if includesStr seen key then unionFilter h seen rest
      else item :: unionFilter h (key :: seen) rest
  end.

Definition isPlain (h : heap) (v : val) : bool := isPlainObject h v.

(** [mergeArrays(a, b, strategy)]; [mergeTwo] stands for the call back to
    [deepMergeTwo(x, y, {})]. *)
Definition mergeArrays (fuel : nat) (mergeTwo : val -> val -> M val)
  (a b : val) (strategy : string) : M val :=
  h <- readHeap ;;
  let xs := elemsOf h a in
  let ys := elemsOf h b in
  if String.eqb strategy "concat" then alloc (Arr (xs ++ ys) [])
  else if String.eqb strategy "union" then
    alloc (Arr (unionFilter h [] (xs ++ ys)) [])
  else if String.eqb strategy "intersection" then
    kept <- foldM (fun acc itemA =>
                     found <- foldM (fun hit itemB =>
                                       if hit : bool then ret true
                                       else deepEqual fuel itemA itemB) ys false ;;
                     ret (if found : bool then (acc ++ [itemA])%list else acc))
              xs [] ;;
    alloc (Arr kept [])
  else if String.eqb strategy "replace" then alloc (Arr ys [])
  else if String.eqb strategy "deep" then
    result <-
      (fix loop (l1 l2 : list val) : M (list val) :=
         match l1, l2 with
         | [], [] => ret []
         | [], _ => mapM (deepClone fuel) l2
         | _, [] => mapM (deepClone fuel) l1
         | x :: r1, y :: r2 =>
             h <- readHeap ;;
             item <- (if isPlain h x && isPlain h y then mergeTwo x y
                      else deepClone fuel y) ;;
             items <- loop r1 r2 ;;
             ret (item :: items)
         end) xs ys ;;
    alloc (Arr result [])
  else throw (JsonMergeError ("Unknown array merge strategy: " +:+ strategy) ""
                VUndefined VUndefined).

(** The loop over [Object.entries(sourceClone)] that both merges share:
    [result[key] = merge(result[key], sourceValue, path)] for a key of
    [result], [result[key] = sourceValue] for a new key. *)
Definition mergeEntries (merge : string -> val -> val -> M val)
  (result : loc) (entries : list (string * val)) : M unit :=
  foldM (fun (_ : unit) kv =>
           h <- readHeap ;;
           let fields := match h !! result with Some (Obj fs) => fs | _ => [] end in
           v <- match getProp fields (fst kv) with
                | Some targetValue => merge (fst kv) targetValue (snd kv)
                | None => ret (snd kv)
                end ;;
           h <- readHeap ;;
           let fields := match h !! result with Some (Obj fs) => fs | _ => [] end in
           store result (Obj (setProp fields (fst kv) v)))
    entries tt.

Fixpoint deepMergeTwo (fuel : nat) (target source : val) (arrayStrategy : string)
  : M val :=
  match fuel with
  | O => outOfFuel
  | S fuel =>
      if isNullish source then ret target
      else if isNullish target then deepClone fuel source
      else
        h <- readHeap ;;
        let targetType := getValueType h target in
        let sourceType := getValueType h source in
        if negb (String.eqb targetType sourceType) then deepClone fuel source
        else if String.eqb targetType "array" then
          mergeArrays fuel (fun x y => deepMergeTwo fuel x y "concat")
            target source arrayStrategy
        else if String.eqb targetType "object" then
          result <- deepClone fuel target ;;
          sourceClone <- deepClone fuel source ;;
          h <- readHeap ;;
          match result with
          | VRef r =>
              mergeEntries (fun _ t s => deepMergeTwo fuel t s arrayStrategy) r
                (fieldsOf h sourceClone) ;;;
              ret result
          | _ => ret result
          end
        else deepClone fuel source
  end.

Definition pathJoin (path key : string) : string :=
  if String.eqb path "" then key else path +:+ "." +:+ key.

Fixpoint deepMergeRecursive (fuel : nat) (target source : val)
  (options : JsonMergeOptions) (path : string) (depth : Z) : M val :=
  match fuel with
  | O => outOfFuel
  | S fuel =>
      if maxDepth options <? depth then
        throw (JsonMergeError
                 ("Maximum merge depth exceeded: " +:+ pretty (maxDepth options))
                 path VUndefined VUndefined)
      else if isNullish source then ret target
      else if isNullish target then deepClone fuel source
      else
        customResult <- match customMerge options with
                        | Some f => f path target source
                        | None => ret VUndefined
                        end ;;
        match customResult with
        | VUndefined =>
            h <- readHeap ;;
            let targetType := getValueType h target in
            let sourceType := getValueType h source in
            let conflict := conflictStrategy options in
            if negb (String.eqb targetType sourceType) then
              if String.eqb conflict "target" then deepClone fuel target
              else if String.eqb conflict "source" then deepClone fuel source
              else if String.eqb conflict "throw" then
                throw (JsonMergeError
                         ("Type mismatch at path " +:+ dq +:+ path +:+ dq +:+ ": "
                            +:+ targetType +:+ " vs " +:+ sourceType)
                         path target source)
              else if String.eqb conflict "priority" then
                if negb (isNullish source) then deepClone fuel source
                else deepClone fuel target
              else deepClone fuel source
            else if String.eqb targetType "array" then
              mergeArrays fuel (fun x y => deepMergeTwo fuel x y "concat")
                target source (arrayStrategy options)
            else if String.eqb targetType "object" then
              if String.eqb (strategy options) "shallow" then
                alloc (Obj (fold_left (fun fs kv => setProp fs (fst kv) (snd kv))
                              (fieldsOf h source) (fieldsOf h target)))
              else
                result <- deepClone fuel target ;;
                sourceClone <- deepClone fuel source ;;
                h <- readHeap ;;
                match result with
                | VRef r =>
                    mergeEntries
                      (fun key t s =>
                         deepMergeRecursive fuel t s options (pathJoin path key)
                           (depth + 1))
                      r (fieldsOf h sourceClone) ;;;
                    ret result
                | _ => ret result
                end
            else if negb (strictEq target source) then
              if String.eqb conflict "target" then ret target
              else if String.eqb conflict "source" then ret source
              else if String.eqb conflict "throw" then
                throw (JsonMergeError
                         ("Value conflict at path " +:+ dq +:+ path +:+ dq +:+ ": "
                            +:+ primText target +:+ " vs " +:+ primText source)
                         path target source)
              else if String.eqb conflict "priority" then
                if negb (isNullish source) then ret source else ret target
              else ret source
            else ret target
        | _ => ret customResult
        end
  end.

(** [deepMerge(target, source, options)]. *)
Definition deepMerge (fuel : nat) (target source : val) (options : JsonMergeOptions)
  : M val :=
  t <- deepClone fuel target ;;
  s <- deepClone fuel source ;;
  deepMergeRecursive fuel t s options "" 0.

(** [mergeWithPriority(...objects)].  The source declares [result] with
    [const] and assigns to it in the loop; the loop is modelled as the
    reassignment it spells out. *)
Definition mergeWithPriority (fuel : nat) (objects : list val) : M val :=
  match objects with
  | [] => alloc (Obj [])
  | [only] => deepClone fuel only
  | first :: others =>
      result <- deepClone fuel first ;;
      foldM (fun result object =>
               deepMergeRecursive fuel result object
                 {| strategy := "deep"; arrayStrategy := "concat";
                    conflictStrategy := "priority"; customMerge := None;
                    maxDepth := 100 |} "" 0)
        others result
  end.

End WithStringify.

End Merge.

(** ** Compare Engine (json.compare), on the store

    The [differences] array is local to a call until it is returned: it
    is kept as a list.  The values it records are the arguments' own
    sub-values, shared with them. *)

Module CompareStore.

Import Store Merge.
Local Open Scope js_scope.

Record JsonDifference : Type := mkDiff {
  path : string;
  type : string;
  valueA : val;
  valueB : val;
  detail : option string
}.

Record JsonCompareResult : Type := mkCompare {
  equal : bool;
  differences : list JsonDifference;
  similarity : Q
}.

(** [getType] of this module classifies like [getValueType]. *)
Definition getType (h : heap) (v : val) : string := getValueType h v.

Definition indexPath (path : string) (i : nat) : string :=
  path +:+ "[" +:+ pretty i +:+ "]".

(** The tail of the [compareArrays] loop once one array is exhausted. *)
Fixpoint missingInA (path : string) (ys : list val) (i : nat)
  : list JsonDifference :=
  match ys with
  | [] => []
  | y :: ys' =>
      mkDiff (indexPath path i) "missing-in-a" VUndefined y None
      :: missingInA path ys' (S i)
  end.

Fixpoint missingInB (path : string) (xs : list val) (i : nat)
  : list JsonDifference :=
  match xs with
  | [] => []
  | x :: xs' =>
      mkDiff (indexPath path i) "missing-in-b" x VUndefined None
      :: missingInB path xs' (S i)
  end.

(** [new Set([...Object.keys(a), ...Object.keys(b)])]. *)
Definition allKeys (fa fb : list (string * val)) : list string :=
  (objectKeys fa
   ++ filter (fun k => negb (includesStr (objectKeys fa) k)) (objectKeys fb))%list.

Fixpoint deepCompare (fuel : nat) (a b : val) (path : string)
  : M (bool * list JsonDifference) :=
  match fuel with
  | O => outOfFuel
  | S fuel =>
      h <- readHeap ;;
      let typeA := getType h a in
      let typeB := getType h b in
      if negb (String.eqb typeA typeB) then
        ret (false,
             [mkDiff path "type-mismatch" a b
                (Some ("Type A: " +:+ typeA +:+ ", Type B: " +:+ typeB))])
      else if isNullish a || isNullish b then
        if negb (strictEq a b)
        then ret (false, [mkDiff path "value-mismatch" a b None])
        else ret (true, [])
      else if String.eqb typeA "array" then
        (* compareArrays *)
        let xs := elemsOf h a in
        let ys := elemsOf h b in
        let lengthDiff :=
          if negb (length xs =? length ys)%nat then
            [mkDiff path "length-mismatch" (VNumber (Z.of_nat (length xs)))
               (VNumber (Z.of_nat (length ys))) None]
          else [] in
        r <- (fix loop (l1 l2 : list val) (i : nat) {struct l1}
                : M (bool * list JsonDifference) :=
                match l1, l2 with
                | [], _ => ret ((length l2 =? 0)%nat, missingInA path l2 i)
                | _ :: _, [] => ret (false, missingInB path l1 i)
                | x :: r1, y :: r2 =>
                    e <- deepCompare fuel x y (indexPath path i) ;;
                    r <- loop r1 r2 (S i) ;;
                    ret (fst e && fst r, (snd e ++ snd r)%list)
                end) xs ys 0%nat ;;
        ret (fst r && (length xs =? length ys)%nat, (lengthDiff ++ snd r)%list)
      else if String.eqb typeA "object" then
        (* compareObjects *)
        let fa := fieldsOf h a in
        let fb := fieldsOf h b in
        foldM (fun (acc : bool * list JsonDifference) key =>
                 let propertyPath := pathJoin path key in
                 match getProp fa key, getProp fb key with
                 | None, vb =>
                     ret (false,
                          (snd acc ++ [mkDiff propertyPath "missing-in-a" VUndefined
                                         (default VUndefined vb) None])%list)
                 | Some va, None =>
                     ret (false,
                          (snd acc ++ [mkDiff propertyPath "missing-in-b" va
                                         VUndefined None])%list)
                 | Some va, Some vb =>
                     e <- deepCompare fuel va vb propertyPath ;;
                     ret (fst acc && fst e, (snd acc ++ snd e)%list)
                 end)
          (allKeys fa fb) (true, [])
      else if negb (strictEq a b) then
        ret (false, [mkDiff path "value-mismatch" a b None])
      else ret (true, [])
  end.

Definition qsum (l : list Q) : Q := fold_left Qplus l 0%Q.

Fixpoint calculateSimilarity (fuel : nat) (a b : val) : M Q :=
  if strictEq a b then ret 1%Q
  else if isNullish a || isNullish b then ret 0%Q
  else
    match fuel with
    | O => outOfFuel
    | S fuel =>
        h <- readHeap ;;
        let typeA := getType h a in
        if negb (String.eqb typeA (getType h b)) then ret 0%Q
        else if String.eqb typeA "array" then
          (* calculateArraySimilarity *)
          let xs := elemsOf h a in
          let ys := elemsOf h b in
          if (length xs =? 0)%nat && (length ys =? 0)%nat then ret 1%Q
          else if (length xs =? 0)%nat || (length ys =? 0)%nat then ret 0%Q
          else
            sims <- mapM (fun xy => calculateSimilarity fuel (fst xy) (snd xy))
                      (zip xs ys) ;;
            ret (Qdiv (qsum sims)
                   (inject_Z (Z.of_nat (Nat.max (length xs) (length ys)))))
        else if String.eqb typeA "object" then
          (* calculateObjectSimilarity *)
          let fa := fieldsOf h a in
          let fb := fieldsOf h b in
          let keys := allKeys fa fb in
          if (length keys =? 0)%nat then ret 1%Q
          else
            sims <- mapM (fun key =>
                            match default VUndefined (getProp fa key),
                                  default VUndefined (getProp fb key) with
                            | VUndefined, _ | _, VUndefined => ret 0%Q
                            | valA, valB => calculateSimilarity fuel valA valB
                            end) keys ;;
            ret (Qdiv (qsum sims) (inject_Z (Z.of_nat (length keys))))
        else ret 0%Q
    end.

Definition compareJson (fuel : nat) (a b : val) : M JsonCompareResult :=
  r <- deepCompare fuel a b "" ;;
  s <- calculateSimilarity fuel a b ;;
  ret {| equal := fst r; differences := snd r; similarity := s |}.

End CompareStore.

(** ** Validate Engine (json.validator), on the store

    The schema is an object of the store like the value it describes; its
    fields are read where the source reads them.  A well-formed schema
    holds numbers in its numeric fields and strings in [required]; a
    comparison with anything else counts as false. *)

Module ValidateStore.

Import Store Merge.
Local Open Scope js_scope.

Record ValidationError : Type := mkError {
  path : string;
  message : string;
  value : val;
  expected : val
}.

Record ValidationResult : Type := mkResult {
  valid : bool;
  errors : list ValidationError
}.

Definition createError (path message : string) (value expected : val)
  : ValidationError :=
  {| path := path; message := message; value := value; expected := expected |}.

Definition getTypeName (h : heap) (v : val) : string :=
  match v with
  | VNull => "null"
  | VUndefined => "undefined"
  | VBool _ => "boolean"
  | VNumber _ => "number"
  | VString _ => "string"
  | VRef l => match h !! l with Some (Arr _ _) => "array" | _ => "object" end
  end.

(** [schema.name]. *)
Definition field (h : heap) (schema : val) (name : string) : val :=
  match objectOf h schema with
  | Some o => default VUndefined (getProp (entriesOf o) name)
  | None => VUndefined
  end.

Definition truthy (v : val) : bool :=
  match v with
  | VUndefined | VNull | VBool false | VNumber 0 | VString "" => false
  | _ => true
  end.

Definition isDefined (v : val) : bool :=
  match v with VUndefined => false | _ => true end.

Definition numLt (a b : val) : bool :=
  match a, b with VNumber x, VNumber y => x <? y | _, _ => false end.

Definition numLe (a b : val) : bool :=
  match a, b with VNumber x, VNumber y => x <=? y | _, _ => false end.

Definition notMultipleOf (n : Z) (m : val) : bool :=
  match m with VNumber k => (k =? 0) || negb (Z.rem n k =? 0) | _ => true end.

Definition keyText (v : val) : string := primText v.

Section WithPlatform.

Variable stringify : heap -> val -> string.
(** [String(v)] as a template literal or [join] applies it. *)
Variable display : heap -> val -> string.
Variable regexTest : string -> string -> bool.
Variable regexTestI : string -> string -> bool.
Variable urlParses : string -> bool.
Variable dateParses : string -> bool.

Definition joinDisplay (h : heap) (sep : string) (vs : list val) : string :=
  String.concat sep
    (map (fun v => if isNullish v then "" else display h v) vs).

Definition pushIf (c : bool) (e : ValidationError) : list ValidationError :=
  if c then [e] else [].

Definition validatePrimitiveAgainstSchema (h : heap) (value schema : val)
  (basePath : string) : list ValidationError :=
  let f := field h schema in
  let shown := display h value in
  let enum := f "enum" in
  pushIf (truthy enum && isArray h enum
          && negb (existsb (strictEq value) (elemsOf h enum)))
    (createError basePath
       ("Value " +:+ dq +:+ shown +:+ dq +:+ " is not in allowed values: "
          +:+ joinDisplay h ", " (elemsOf h enum)) value enum)
  ++ pushIf (isDefined (f "const") && negb (strictEq value (f "const")))
    (createError basePath
       ("Value " +:+ dq +:+ shown +:+ dq +:+ " does not match constant "
          +:+ dq +:+ display h (f "const") +:+ dq) value (f "const"))
  ++ match value with
     | VString s =>
         pushIf (truthy (f "format")
                 && negb (Validator.validateFormat regexTest regexTestI urlParses
                            dateParses s (display h (f "format"))))
           (createError basePath
              ("Value " +:+ dq +:+ shown +:+ dq +:+ " is not a valid "
                 +:+ display h (f "format"))
              value (VString ("valid " +:+ display h (f "format"))))
         ++ pushIf (truthy (f "pattern")
                    && negb (regexTest (display h (f "pattern")) s))
           (createError basePath
              ("Value " +:+ dq +:+ shown +:+ dq +:+ " does not match pattern "
                 +:+ display h (f "pattern"))
              value (VString ("matches " +:+ display h (f "pattern"))))
     | _ => []
     end
  ++ match value with
     | VNumber n =>
         pushIf (isDefined (f "minimum") && numLt value (f "minimum"))
           (createError basePath
              ("Value " +:+ shown +:+ " is less than minimum "
                 +:+ display h (f "minimum"))
              value (VString (">= " +:+ display h (f "minimum"))))
         ++ pushIf (isDefined (f "exclusiveMinimum")
                    && numLe value (f "exclusiveMinimum"))
           (createError basePath
              ("Value " +:+ shown +:+ " is not greater than "
                 +:+ display h (f "exclusiveMinimum"))
              value (VString ("> " +:+ display h (f "exclusiveMinimum"))))
         ++ pushIf (isDefined (f "maximum") && numLt (f "maximum") value)
           (createError basePath
              ("Value " +:+ shown +:+ " exceeds maximum "
                 +:+ display h (f "maximum"))
              value (VString ("<= " +:+ display h (f "maximum"))))
         ++ pushIf (isDefined (f "exclusiveMaximum")
                    && numLe (f "exclusiveMaximum") value)
           (createError basePath
              ("Value " +:+ shown +:+ " is not less than "
                 +:+ display h (f "exclusiveMaximum"))
              value (VString ("< " +:+ display h (f "exclusiveMaximum"))))
         ++ pushIf (isDefined (f "multipleOf") && notMultipleOf n (f "multipleOf"))
           (createError basePath
              ("Value " +:+ shown +:+ " is not a multiple of "
                 +:+ display h (f "multipleOf"))
              value (VString ("multiple of " +:+ display h (f "multipleOf"))))
     | _ => []
     end
  ++ match value with
     | VString s =>
         let len := VNumber (Z.of_nat (String.length s)) in
         let tooShort :=
           pushIf (isDefined (f "minLength") && numLt len (f "minLength"))
             (createError basePath
                ("String length " +:+ primText len +:+ " is less than minimum "
                   +:+ display h (f "minLength"))
                len (VString (">= " +:+ display h (f "minLength")))) in
         (tooShort
         ++ pushIf (isDefined (f "maxLength") && numLt (f "maxLength") len)
           (createError basePath
              ("String length " +:+ primText len +:+ " exceeds maximum "
                 +:+ display h (f "maxLength"))
              len (VString ("<= " +:+ display h (f "maxLength"))))
         ++ tooShort)%list
     | _ => []
     end.

(** The uniqueItems loop, on the keys [JSON.stringify] gives. *)
Fixpoint uniqueItemsErrors (h : heap) (basePath : string) (seen : list string)
  (rest : list val) (i : nat) : list ValidationError :=
  match rest with
  | [] => []
  | x :: rest' =>
      pushIf (includesStr seen (stringify h x))
        (createError (CompareStore.indexPath basePath i) "Duplicate item found" x
           (VString "unique value"))
      ++ uniqueItemsErrors h basePath (stringify h x :: seen) rest' (S i)
  end.

Fixpoint validateAgainstSchema (fuel : nat) (json schema : val) (basePath : string)
  : M (list ValidationError) :=
  match fuel with
  | O => outOfFuel
  | S fuel =>
      h <- readHeap ;;
      let f := field h schema in
      let actualType := getTypeName h json in
      (* type validation; [[schema.type]] is a new array *)
      expectedTypes <-
        (if truthy (f "type") then
           if isArray h (f "type") then ret (f "type")
           else alloc (Arr [f "type"] [])
         else ret VUndefined) ;;
      h <- readHeap ;;
      if truthy (f "type")
         && negb (existsb (strictEq (VString actualType)) (elemsOf h expectedTypes))
      then
        ret [createError basePath
               ("Type " +:+ dq +:+ actualType +:+ dq
                  +:+ " does not match expected type(s): "
                  +:+ joinDisplay h ", " (elemsOf h expectedTypes))
               json expectedTypes]
      else
        match objectOf h json with
        | Some (Arr array _) =>
            (* validateArrayAgainstSchema *)
            let len := VNumber (Z.of_nat (length array)) in
            let bounds : list ValidationError :=
              (pushIf (isDefined (f "minItems") && numLt len (f "minItems"))
                (createError basePath
                   ("Array has " +:+ primText len +:+ " items, minimum required is "
                      +:+ display h (f "minItems"))
                   len (VString (">= " +:+ display h (f "minItems"))))
              ++ pushIf (isDefined (f "maxItems") && numLt (f "maxItems") len)
                (createError basePath
                   ("Array has " +:+ primText len +:+ " items, maximum allowed is "
                      +:+ display h (f "maxItems"))
                   len (VString ("<= " +:+ display h (f "maxItems"))))
              ++ (if truthy (f "uniqueItems")
                  then uniqueItemsErrors h basePath [] array 0
                  else []))%list in
            itemErrors <-
              (if truthy (f "items") then
                 mapM (fun ix =>
                         validateAgainstSchema fuel (snd ix) (f "items")
                           (CompareStore.indexPath basePath (fst ix)))
                   (imap (fun i x => (i, x)) array)
               else ret []) ;;
            ret (bounds ++ concat itemErrors)%list
        | Some (Obj obj) =>
            (* validateObjectAgainstSchema *)
            let required :=
              if truthy (f "required") && isArray h (f "required")
              then elemsOf h (f "required") else [] in
            let requiredErrors : list ValidationError :=
              flat_map (fun prop =>
                pushIf (negb (hasProp obj (keyText prop)))
                  (createError (basePath +:+ "." +:+ keyText prop)
                     ("Required property " +:+ dq +:+ keyText prop +:+ dq
                        +:+ " is missing")
                     VUndefined (VString "present"))) required in
            let declared :=
              match objectOf h (f "properties") with
              | Some o => entriesOf o
              | None => []
              end in
            propertyErrors <-
              mapM (fun kv =>
                      match getProp obj (fst kv) with
                      | Some v =>
                          validateAgainstSchema fuel v (snd kv)
                            (basePath +:+ "." +:+ fst kv)
                      | None => ret []
                      end) declared ;;
            let additional : list ValidationError :=
              match f "additionalProperties" with
              | VBool false =>
                  flat_map (fun prop =>
                    pushIf (negb (includesStr (objectKeys declared) prop))
                      (createError (basePath +:+ "." +:+ prop)
                         ("Additional property " +:+ dq +:+ prop +:+ dq
                            +:+ " is not allowed")
                         (default VUndefined (getProp obj prop))
                         (VString "undefined"))) (objectKeys obj)
              | _ => []
              end in
            let propCount := VNumber (Z.of_nat (length obj)) in
            ret (requiredErrors ++ concat propertyErrors ++ additional
                 ++ pushIf (isDefined (f "minProperties")
                            && numLt propCount (f "minProperties"))
                      (createError basePath
                         ("Object has " +:+ primText propCount
                            +:+ " properties, minimum required is "
                            +:+ display h (f "minProperties"))
                         propCount (VString (">= " +:+ display h (f "minProperties"))))
                 ++ pushIf (isDefined (f "maxProperties")
                            && numLt (f "maxProperties") propCount)
                      (createError basePath
                         ("Object has " +:+ primText propCount
                            +:+ " properties, maximum allowed is "
                            +:+ display h (f "maxProperties"))
                         propCount (VString ("<= " +:+ display h (f "maxProperties")))))%list
        | None => ret (validatePrimitiveAgainstSchema h json schema basePath)
        end
  end.

Definition validateSchema (fuel : nat) (json schema : val) : M ValidationResult :=
  errors <- validateAgainstSchema fuel json schema "" ;;
  ret {| valid := (length errors =? 0)%nat; errors := errors |}.

End WithPlatform.

End ValidateStore.

(** ** Path Engine: the operations built on [jsonPath] *)

Module PathOps.

Import Store Path Merge.
Local Open Scope js_scope.

(** [updatePaths(json, updates)], over [Object.entries(updates)]. *)
Definition updatePaths (json : val) (updates : list (string * val)) : M val :=
  foldM (fun result update => setValue result (fst update) (snd update)) updates json.






End PathOps.

(** ** Merge Engine: [mergeJson] *)

Module MergeOps.

Import Store Merge.
Local Open Scope js_scope.

Section WithStringify.

Variable stringify : heap -> val -> string.

(** [mergeJson(target, ...sources)]; the options [{}] of its calls leave
    [deepMergeTwo] with the array strategy ['concat']. *)
Definition mergeJson (fuel : nat) (target : val) (sources : list val) : M val :=
  if (length sources =? 0)%nat then deepClone fuel target
  else
    result <- deepClone fuel target ;;
    foldM (fun result source => deepMergeTwo stringify fuel result source "concat")
      sources result.

End WithStringify.

End MergeOps.

(** ** Compare Engine: patches and subsets, on trees *)

Module CompareOps.

Import Compare.

(** One operation of a patch: [{ op, path, value }]. *)
Record PatchOperation : Type := mkOp {
  op : string;
  path : string;
  value : option JsonValue
}.

(** The tail of the array loop of [generatePatch] once [a] is exhausted. *)
Fixpoint addRest (path : string) (ys : list JsonValue) (i : nat)
  : list PatchOperation :=
  match ys with
  | [] => []
  | y :: ys' =>
      mkOp "add" (if String.eqb path "" then "/" +:+ pretty i
                  else path +:+ "/" +:+ pretty i) (Some y)
      :: addRest path ys' (S i)
  end.

(** [generatePatch(a, b, path, operations)]: the operations pushed, in
    order.  An object is walked through its own property list, whose keys
    are distinct: the keys of [a] first, then the keys that only [b] has. *)
Fixpoint generatePatch (a b : JsonValue) (path : string) {struct a}
  : list PatchOperation :=
  let here := if String.eqb path "" then "/" else path in
  if negb (String.eqb (getType a) (getType b)) then [mkOp "replace" here (Some b)]
  else
    match a, b with
    | JArray xs, JArray ys =>
        let lenA := Z.of_nat (length xs) in
        let lenB := Z.of_nat (length ys) in
        (* Math.abs(lenA - lenB) > Math.min(lenA, lenB) / 2 *)
        if Z.min lenA lenB <? 2 * Z.abs (lenA - lenB) then
          [mkOp "replace" here (Some b)]
        else
          (fix elements (l1 l2 : list JsonValue) (i : nat) {struct l1}
             : list PatchOperation :=
             let elementPath :=
               if String.eqb path "" then "/" +:+ pretty i
               else path +:+ "/" +:+ pretty i in
             match l1, l2 with
             | [], _ => addRest path l2 i
             | _ :: r1, [] => mkOp "remove" elementPath None :: elements r1 [] (S i)
             | x :: r1, y :: r2 =>
                 (generatePatch x y elementPath ++ elements r1 r2 (S i))%list
             end) xs ys 0%nat
    | JObject fs, JObject gs =>
        let propertyPath key :=
          if String.eqb path "" then "/" +:+ key else path +:+ "/" +:+ key in
        let onlyB := filter (fun kv => negb (hasProp fs (fst kv))) gs in
        ((fix properties (l1 : list (string * JsonValue)) {struct l1}
            : list PatchOperation :=
            match l1 with
            | [] => []
            | (key, x) :: r1 =>
                (match getProp gs key with
                 | None => [mkOp "remove" (propertyPath key) None]
                 | Some y => generatePatch x y (propertyPath key)
                 end ++ properties r1)%list
            end) fs
         ++ map (fun kv => mkOp "add" (propertyPath (fst kv)) (Some (snd kv))) onlyB)%list
    | _, _ =>
        if strictEqPrim a b then [] else [mkOp "replace" here (Some b)]
    end.

(** [getPatchOperations(a, b)]. *)
Definition getPatchOperations (a b : JsonValue) : list PatchOperation :=
  generatePatch a b "".

(** [checkSubset(a, b, path)]. *)
Fixpoint checkSubset (a b : JsonValue) (path : string) {struct a} : bool :=
  if negb (String.eqb (getType a) (getType b)) then false
  else
    match a, b with
    | JArray xs, JArray ys =>
        if (length ys <? length xs)%nat then false
        else
          (fix elements (l : list JsonValue) (bCopy : list JsonValue) {struct l}
             : bool :=
             match l with
             | [] => true
             | elemA :: rest =>
                 match spliceFirstMatch elemA bCopy with
                 | Some bCopy' => elements rest bCopy'
                 | None => false
                 end
             end) xs ys
    | JObject fs, JObject gs =>
        (fix properties (l : list (string * JsonValue)) {struct l} : bool :=
           match l with
           | [] => true
           | (key, x) :: rest =>
               match getProp gs key with
               | None => false
               | Some y =>
                   if negb (checkSubset x y (path +:+ "." +:+ key)) then false
                   else properties rest
               end
           end) fs
    | _, _ => strictEqPrim a b
    end.

(** [isSubset(a, b)] and [contains(a, b)]. *)
Definition isSubset (a b : JsonValue) : bool := checkSubset a b "".

Definition contains (a b : JsonValue) : bool := checkSubset b a "".

End CompareOps.

(** ** Transform Engine (json.transform), on trees *)

Module Transform.

(** [new JsonTransformError(message, path, value)]. *)
Inductive TransformError : Type :=
| JsonTransformError (message : string) (path : option string)
    (value : option JsonValue).

(** A [JsonObject], as the list of its properties. *)
Definition JsonObject : Type := list (string * JsonValue).

(** [Object.assign(result, source)], and [{ ...source }] from the empty
    object. *)
Definition assign (result source : JsonObject) : JsonObject :=
  fold_left (fun r kv => setProp r (fst kv) (snd kv)) source result.

(** [flattenJson(json, delimiter, prefix)]. *)
Fixpoint flattenJson (json : JsonValue) (delimiter prefix : string) {struct json}
  : Outcome TransformError JsonObject :=
  match json with
  | JObject fs =>
      (fix entries (l : list (string * JsonValue)) (result : JsonObject) {struct l}
         : Outcome TransformError JsonObject :=
         match l with
         | [] => Returns result
         | (key, value) :: rest =>
             let newKey :=
               if String.eqb prefix "" then key
               else prefix +:+ delimiter +:+ key in
             match value with
             | JObject _ =>
                 match flattenJson value delimiter newKey with
                 | Returns flattened => entries rest (assign result flattened)
                 | Throws e => Throws e
                 | OutOfFuel => OutOfFuel
                 end
             | _ => entries rest (setProp result newKey value)
             end
         end) fs []
  | _ =>
      Throws (JsonTransformError "Input must be a non-null object" (Some prefix)
                (Some json))
  end.

(** [omitKeys(json, keys)]. *)
Definition omitKeys (json : JsonValue) (keys : list string)
  : Outcome TransformError JsonObject :=
  match json with
  | JObject fs => Returns (fold_left (fun result key => deleteProp result key) keys
                             (assign [] fs))
  | _ =>
      Throws (JsonTransformError "Input must be a non-null object" None (Some json))
  end.

End Transform.

(** * The vocabulary of the properties

    What the statements below are written with: the relations and the
    sample inputs that the engines are measured against. *)

Module GenerateSpec.

(** The template [{$type: 'literal', $value: v}]. *)
Definition literalTemplate (v : JsonValue) : JsonValue :=
  JObject [("$type", JString "literal"); ("$value", v)].

End GenerateSpec.

Module ValidatorSpec.

Import Validator.

Definition isPrimitive (j : JsonValue) : bool :=
  match j with JArray _ | JObject _ => false | _ => true end.

Section WithPlatform.

Variable regexTest : string -> string -> bool.
Variable regexTestI : string -> string -> bool.
Variable urlParses : string -> bool.
Variable dateParses : string -> bool.

(** The constraint violations of a value against a schema, as the Validate
    Engine's description lists them, each with the error that reports it.
    Below a node whose type does not match there is the type violation and
    nothing else. *)
Inductive Violation : JsonSchema -> JsonValue -> string -> ValidationError -> Prop :=
| V_type schema json base ts :
    expectedTypesOf schema = Some ts ->
    includesStr ts (getTypeName json) = false ->
    Violation schema json base (typeError base json ts)
| V_minItems schema arr base m :
    typeMismatch schema (JArray arr) = false ->
    minItems schema = Some m -> numLen arr < m ->
    Violation schema (JArray arr) base (minItemsError base (numLen arr) m)
| V_maxItems schema arr base m :
    typeMismatch schema (JArray arr) = false ->
    maxItems schema = Some m -> m < numLen arr ->
    Violation schema (JArray arr) base (maxItemsError base (numLen arr) m)
| V_unique schema arr base i j x y :
    typeMismatch schema (JArray arr) = false ->
    uniqueItems schema = true ->
    (j < i)%nat -> arr !! i = Some x -> arr !! j = Some y -> json_eqb x y = true ->
    Violation schema (JArray arr) base (duplicateError base i x)
| V_item schema arr base itemSchema i x e :
    typeMismatch schema (JArray arr) = false ->
    items schema = Some itemSchema -> arr !! i = Some x ->
    Violation itemSchema x (indexPath base i) e ->
    Violation schema (JArray arr) base e
| V_required schema obj base req prop :
    typeMismatch schema (JObject obj) = false ->
    required schema = Some req -> In prop req -> hasProp obj prop = false ->
    Violation schema (JObject obj) base (requiredError base prop)
| V_property schema obj base props prop propSchema v e :
    typeMismatch schema (JObject obj) = false ->
    properties schema = Some props -> In (prop, propSchema) props ->
    getProp obj prop = Some v ->
    Violation propSchema v (propPath base prop) e ->
    Violation schema (JObject obj) base e
| V_additional schema obj base prop :
    typeMismatch schema (JObject obj) = false ->
    additionalProperties schema = Some false ->
    In prop (objectKeys obj) -> includesStr (allowedProps schema) prop = false ->
    Violation schema (JObject obj) base (additionalError base prop (getProp obj prop))
| V_minProperties schema obj base m :
    typeMismatch schema (JObject obj) = false ->
    minProperties schema = Some m -> numLen (objectKeys obj) < m ->
    Violation schema (JObject obj) base
      (minPropertiesError base (numLen (objectKeys obj)) m)
| V_maxProperties schema obj base m :
    typeMismatch schema (JObject obj) = false ->
    maxProperties schema = Some m -> m < numLen (objectKeys obj) ->
    Violation schema (JObject obj) base
      (maxPropertiesError base (numLen (objectKeys obj)) m)
| V_enum schema v base en :
    isPrimitive v = true -> typeMismatch schema v = false ->
    enum schema = Some en -> existsb (strictEqPrim v) en = false ->
    Violation schema v base (enumError base v en)
| V_const schema v base c :
    isPrimitive v = true -> typeMismatch schema v = false ->
    const schema = Some c -> strictEqPrim v c = false ->
    Violation schema v base (constError base v c)
| V_format schema s base f :
    typeMismatch schema (JString s) = false ->
    format schema = Some f -> f <> "" -> validateFormat regexTest regexTestI urlParses dateParses s f = false ->
    Violation schema (JString s) base (formatError base (JString s) f)
| V_pattern schema s base p :
    typeMismatch schema (JString s) = false ->
    pattern schema = Some p -> p <> "" -> regexTest p s = false ->
    Violation schema (JString s) base (patternError base (JString s) p)
| V_minimum schema n base m :
    typeMismatch schema (JNumber n) = false ->
    minimum schema = Some m -> n < m ->
    Violation schema (JNumber n) base (minimumError base n m)
| V_exclusiveMinimum schema n base m :
    typeMismatch schema (JNumber n) = false ->
    exclusiveMinimum schema = Some m -> n <= m ->
    Violation schema (JNumber n) base (exclusiveMinimumError base n m)
| V_maximum schema n base m :
    typeMismatch schema (JNumber n) = false ->
    maximum schema = Some m -> m < n ->
    Violation schema (JNumber n) base (maximumError base n m)
| V_exclusiveMaximum schema n base m :
    typeMismatch schema (JNumber n) = false ->
    exclusiveMaximum schema = Some m -> m <= n ->
    Violation schema (JNumber n) base (exclusiveMaximumError base n m)
| V_multipleOf schema n base m :
    typeMismatch schema (JNumber n) = false ->
    multipleOf schema = Some m -> notMultiple n m = true ->
    Violation schema (JNumber n) base (multipleOfError base n m)
| V_minLength schema s base m :
    typeMismatch schema (JString s) = false ->
    minLength schema = Some m -> strLength s < m ->
    Violation schema (JString s) base (minLengthError base (strLength s) m)
| V_maxLength schema s base m :
    typeMismatch schema (JString s) = false ->
    maxLength schema = Some m -> m < strLength s ->
    Violation schema (JString s) base (maxLengthError base (strLength s) m).

End WithPlatform.

(** [{type: 'object', required: ['name'], properties: {name: {type: 'string'}}}] *)
Definition nameSchema : JsonSchema :=
  {| type := Some (TypeOne "object"); minItems := None; maxItems := None;
     uniqueItems := false; items := None; required := Some ["name"];
     properties :=
       Some [("name",
              {| type := Some (TypeOne "string"); minItems := None;
                 maxItems := None; uniqueItems := false; items := None;
                 required := None; properties := None;
                 additionalProperties := None; minProperties := None;
                 maxProperties := None; enum := None; const := None;
                 format := None; pattern := None; minimum := None;
                 exclusiveMinimum := None; maximum := None;
                 exclusiveMaximum := None; multipleOf := None;
                 minLength := None; maxLength := None |})];
     additionalProperties := None; minProperties := None; maxProperties := None;
     enum := None; const := None; format := None; pattern := None;
     minimum := None; exclusiveMinimum := None; maximum := None;
     exclusiveMaximum := None; multipleOf := None; minLength := None;
     maxLength := None |}.

End ValidatorSpec.

Module CompareSpec.

Import Compare.

(** The difference reported for an element of [a] without a partner. *)
Definition missingElement (ix : nat * JsonValue) : JsonDifference :=
  mkDiff ("[" +:+ pretty (fst ix) +:+ "]") "missing-element" (Some (snd ix)) None None.

End CompareSpec.

Module PathSpec.

Import Store Path.

(** The child a segment selects in an object: an element of an array
    within its bounds, a property an object has. *)
Definition member (o : object) (seg : Segment) : option val :=
  match o, seg with
  | Arr elems _, Index n =>
      if (0 <=? n) && (n <? Z.of_nat (length elems)) then elems !! Z.to_nat n else None
  | Obj fields, Key s => getProp fields s
  | _, _ => None
  end.

(** [resolves h cur rest v]: following [rest] from [cur] in [h] goes
    through containers only and ends on [v]. *)
Fixpoint resolves (h : heap) (cur : val) (rest : list Segment) (v : val) : Prop :=
  match rest with
  | [] => cur = v
  | seg :: rest' =>
      exists l o child,
        cur = VRef l /\ h !! l = Some o /\ member o seg = Some child /\
        resolves h child rest' v
  end.



Definition isDefined (v : val) : Prop := v <> VUndefined.

Definition compatible (o : object) (seg : Segment) : Prop :=
  match o, seg with
  | Arr _ _, Index _ | Obj _, Key _ => True
  | _, _ => False
  end.



(** [{a: 1}] *)
Definition aIsOne : heap := [Obj [("a", VNumber 1)]].

End PathSpec.

Module FrameSpec.

Import Store Merge.

(** Every object of [h] is still there, unchanged, in [h']. *)
Definition preserves (h h' : heap) : Prop :=
  forall l o, h !! l = Some o -> h' !! l = Some o.

(** A computation extends the store when it leaves every object in place. *)
Definition extends {A : Type} (m : M A) : Prop :=
  forall h, preserves h (snd (m h)).

(** A computation that leaves the store as it is. *)
Definition pure {A : Type} (m : M A) : Prop := forall h, snd (m h) = h.

(** *** Computations that write only to what they allocated

    [h0] is the caller's store: locations below its length hold the caller's
    objects, locations from there on are the callee's own. *)

Section Owned.

Variable h0 : heap.

Definition freshVal (v : val) : Prop :=
  match v with VRef l => (length h0 <= l)%nat | _ => True end.

Definition freshProps (ps : list (string * val)) : Prop :=
  Forall (fun kv => freshVal (snd kv)) ps.

Definition freshObj (o : object) : Prop :=
  match o with
  | Arr elems extra => Forall freshVal elems /\ freshProps extra
  | Obj fields => freshProps fields
  end.

(** The caller's part of the store is as it was, and the callee's part
    refers to the callee's part only. *)
Definition Inv (h : heap) : Prop :=
  (length h0 <= length h)%nat
  /\ (forall l, (l < length h0)%nat -> h !! l = h0 !! l)
  /\ (forall l o, (length h0 <= l)%nat -> h !! l = Some o -> freshObj o).

Definition ok {A : Type} (m : M A) (Q : A -> Prop) : Prop :=
  forall h, Inv h -> Inv (snd (m h)) /\ forall a, fst (m h) = Returns a -> Q a.

(** A [customMerge] callback is held to the discipline of the engine: it
    leaves the caller's objects alone and hands back something it built. *)
Definition callbackOwns (options : JsonMergeOptions) : Prop :=
  match customMerge options with
  | Some f => forall path t s, freshVal t -> freshVal s -> ok (f path t s) freshVal
  | None => True
  end.

End Owned.

(** What the caller can read from [v] is the same in [h'] as in [h]. *)
Definition unchanged (h h' : heap) (v : val) : Prop :=
  forall fuel s, snapshot fuel h v = Some s -> snapshot fuel h' v = Some s.

(** The value [v] was built after [h]: it is a primitive or an object
    allocated past [h], and nothing allocated past [h] points back into it. *)
Definition freshlyBuilt (h h' : heap) (v : val) : Prop :=
  freshVal h v /\
  forall l o, (length h <= l)%nat -> h' !! l = Some o -> freshObj h o.

(** Platform functions for the closed examples. *)
Definition noRegex : string -> string -> bool := fun _ _ => false.
Definition noParse : string -> bool := fun _ => false.
Definition noText : heap -> val -> string := fun _ _ => "".

(** [{a: [1]}] and [{a: [2]}]. *)
Definition mergeInputs : heap :=
  [Obj [("a", VRef 1)]; Arr [VNumber 1] []; Obj [("a", VRef 3)]; Arr [VNumber 2] []].

End FrameSpec.

Module MergeSpec.

Import Store Merge FrameSpec.

Definition throwOptions : JsonMergeOptions :=
  {| strategy := "deep"; arrayStrategy := "concat"; conflictStrategy := "throw";
     customMerge := None; maxDepth := 100 |}.



Definition oneVsX : heap := [Obj [("a", VNumber 1)]; Obj [("a", VString "x")]].




Definition returned (r : Outcome JsError val * heap) : option shape :=
  match fst r with
  | Returns v => snapshot 10 (snd r) v
  | _ => None
  end.

End MergeSpec.

(** ** Vocabulary of the further properties *)

Module JsonSpec.

(** The keys of every object of a value are pairwise distinct, as they are
    in every value that [JSON.parse] or an object literal builds. *)
Inductive distinctKeys : JsonValue -> Prop :=
| dk_null : distinctKeys JNull
| dk_bool b : distinctKeys (JBool b)
| dk_number n : distinctKeys (JNumber n)
| dk_string s : distinctKeys (JString s)
| dk_array xs : Forall distinctKeys xs -> distinctKeys (JArray xs)
| dk_object fs :
    NoDup (objectKeys fs) -> Forall (fun kv => distinctKeys (snd kv)) fs ->
    distinctKeys (JObject fs).

(** Equality of JSON values up to the order of the keys of their objects. *)
Inductive sameJson : JsonValue -> JsonValue -> Prop :=
| same_null : sameJson JNull JNull
| same_bool b : sameJson (JBool b) (JBool b)
| same_number n : sameJson (JNumber n) (JNumber n)
| same_string s : sameJson (JString s) (JString s)
| same_array xs ys : Forall2 sameJson xs ys -> sameJson (JArray xs) (JArray ys)
| same_object fs gs :
    (forall k, hasProp fs k = hasProp gs k) ->
    (forall k x y, getProp fs k = Some x -> getProp gs k = Some y -> sameJson x y) ->
    sameJson (JObject fs) (JObject gs).

(** [{x: 1, y: [2]}] and the same object with its keys in the other order. *)
Definition xyObject : JsonValue :=
  JObject [("x", JNumber 1); ("y", JArray [JNumber 2])].

Definition yxObject : JsonValue :=
  JObject [("y", JArray [JNumber 2]); ("x", JNumber 1)].

End JsonSpec.

Module CompareLoops.

Import Compare.

Definition propertyPath (path key : string) : string :=
  if String.eqb path "" then key else path +:+ "." +:+ key.

Section AtPath.

Variable path : string.

(** The loop of [compareArrays], by name. *)
Fixpoint compareArraysLoop (l1 l2 : list JsonValue) (i : nat) {struct l1}
  : bool * list JsonDifference :=
  match l1, l2 with
  | [], [] => (true, [])
  | [], _ :: _ => (false, missingInA path l2 i)
  | x :: r1, [] =>
      let '(_, ds) := compareArraysLoop r1 [] (S i) in
      (false,
       mkDiff (path +:+ "[" +:+ pretty i +:+ "]") "missing-in-b"
         (Some x) None None :: ds)
  | x :: r1, y :: r2 =>
      let '(e, d) :=
        deepCompare x y (path +:+ "[" +:+ pretty i +:+ "]") in
      let '(e', d') := compareArraysLoop r1 r2 (S i) in
      (e && e', (d ++ d')%list)
  end.

Variable gs : list (string * JsonValue).

(** The part of the loop of [compareObjects] that runs over the keys of [a]. *)
Fixpoint compareObjectsLoop (l1 : list (string * JsonValue)) {struct l1}
  : bool * list JsonDifference :=
  match l1 with
  | [] => (true, [])
  | (key, x) :: r1 =>
      let '(e, d) :=
        match getProp gs key with
        | None =>
            (false,
             [mkDiff (propertyPath path key) "missing-in-b" (Some x) None None])
        | Some y => deepCompare x y (propertyPath path key)
        end in
      let '(e', d') := compareObjectsLoop r1 in
      (e && e', (d ++ d')%list)
  end.

End AtPath.

(** The boolean of a comparison and its differences agree. *)
Definition agrees (r : bool * list JsonDifference) : Prop :=
  fst r = true <-> snd r = [].

(** [deepCompare] on [x] decides equality up to key order. *)
Definition decides (x : JsonValue) : Prop :=
  forall b p, fst (deepCompare x b p) = true <-> JsonSpec.sameJson x b.

(** [matched a b]: the elements of [b] can be paired off with those of [a],
    each with one that is the same JSON value up to key order. *)
Inductive matched : list JsonValue -> list JsonValue -> Prop :=
| matched_nil : matched [] []
| matched_cons x a y b b' :
    Permutation b (y :: b') -> JsonSpec.sameJson x y -> matched a b' ->
    matched (x :: a) b.

End CompareLoops.

Module PathWrites.

Import Store Path.



(** The array [[1, 2, 3]]. *)
Definition oneTwoThree : heap := [Arr [VNumber 1; VNumber 2; VNumber 3] []].

End PathWrites.

Module PathText.

Import Store Path.
Local Open Scope char_scope.












Local Close Scope char_scope.

End PathText.

Module CloneSpec.

Import Store Merge FrameSpec.




(** A computation that does not end in an exception, whatever the store. *)
Definition neverThrows {A : Type} (m : M A) : Prop :=
  forall h e, fst (m h) <> Throws e.

(** The array strategies that [mergeArrays] knows. *)
Definition arrayStrategies : list string :=
  ["concat"; "union"; "intersection"; "replace"; "deep"].

(** A computation that keeps the objects of [h0] as they are when it
    starts from a store that has kept them, and whose result satisfies [Q]. *)
Definition keeps (h0 : heap) {A : Type} (m : M A) (Q : A -> Prop) : Prop :=
  forall h, preserves h0 h ->
    preserves h0 (snd (m h)) /\ forall a, fst (m h) = Returns a -> Q a.


(** [[{x: 1}]], held by the array at location 1, and the empty array. *)
Definition sharedInputs : heap :=
  [Obj [("x", VNumber 1)]; Arr [VRef 0] []; Arr [] []].

End CloneSpec.

Module CompareOpsSpec.

Import Compare CompareOps JsonSpec.

Section AtPath.

Variable path : string.

(** The array loop of [generatePatch], by name. *)
Fixpoint patchElements (l1 l2 : list JsonValue) (i : nat) {struct l1}
  : list PatchOperation :=
  let elementPath :=
    if String.eqb path "" then "/" +:+ pretty i
    else path +:+ "/" +:+ pretty i in
  match l1, l2 with
  | [], _ => addRest path l2 i
  | _ :: r1, [] => mkOp "remove" elementPath None :: patchElements r1 [] (S i)
  | x :: r1, y :: r2 =>
      (generatePatch x y elementPath ++ patchElements r1 r2 (S i))%list
  end.

Definition patchPath (key : string) : string :=
  if String.eqb path "" then "/" +:+ key else path +:+ "/" +:+ key.

Variable gs : list (string * JsonValue).

(** The part of the object loop of [generatePatch] over the keys of [a]. *)
Fixpoint patchProperties (l1 : list (string * JsonValue)) {struct l1}
  : list PatchOperation :=
  match l1 with
  | [] => []
  | (key, x) :: r1 =>
      (match getProp gs key with
       | None => [mkOp "remove" (patchPath key) None]
       | Some y => generatePatch x y (patchPath key)
       end ++ patchProperties r1)%list
  end.

(** The object loop of [checkSubset], by name. *)
Fixpoint subsetProperties (l : list (string * JsonValue)) {struct l} : bool :=
  match l with
  | [] => true
  | (key, x) :: rest =>
      match getProp gs key with
      | None => false
      | Some y =>
          if negb (checkSubset x y (path +:+ "." +:+ key)) then false
          else subsetProperties rest
      end
  end.

End AtPath.

(** The array loop of [checkSubset], by name. *)
Fixpoint subsetElements (l : list JsonValue) (bCopy : list JsonValue) {struct l}
  : bool :=
  match l with
  | [] => true
  | elemA :: rest =>
      match spliceFirstMatch elemA bCopy with
      | Some bCopy' => subsetElements rest bCopy'
      | None => false
      end
  end.

(** [subJson a b]: [a] is part of [b].  Equal primitives; an array whose
    elements can be paired with distinct elements of the other, each with
    one that is the same up to key order; an object each of whose
    properties the other has, with a value the property's value is part of. *)
Inductive subJson : JsonValue -> JsonValue -> Prop :=
| sub_null : subJson JNull JNull
| sub_bool b : subJson (JBool b) (JBool b)
| sub_number n : subJson (JNumber n) (JNumber n)
| sub_string s : subJson (JString s) (JString s)
| sub_array xs ys chosen others :
    Permutation ys (chosen ++ others) -> Forall2 sameJson xs chosen ->
    subJson (JArray xs) (JArray ys)
| sub_object fs gs :
    (forall k, hasProp fs k = true -> hasProp gs k = true) ->
    (forall k x y, getProp fs k = Some x -> getProp gs k = Some y -> subJson x y) ->
    subJson (JObject fs) (JObject gs).

(** A patch of [x] is empty exactly when the comparison says equal. *)
Definition patchAgrees (x : JsonValue) : Prop :=
  forall b p q, generatePatch x b p = [] <-> fst (deepCompare x b q) = true.

(** [checkSubset] on [x] decides [subJson]. *)
Definition decidesPart (x : JsonValue) : Prop :=
  forall b p, checkSubset x b p = true <-> subJson x b.

End CompareOpsSpec.

Module TransformSpec.

Import Transform.

Definition isPlainObject (v : JsonValue) : bool :=
  match v with JObject _ => true | _ => false end.

Section Flattening.

Variable delimiter : string.

Definition joinKey (prefix key : string) : string :=
  if String.eqb prefix "" then key else prefix +:+ delimiter +:+ key.

Variable prefix : string.

(** The loop of [flattenJson] over the entries, by name. *)
Fixpoint flattenEntries (l : list (string * JsonValue)) (result : JsonObject)
  {struct l} : Outcome TransformError JsonObject :=
  match l with
  | [] => Returns result
  | (key, value) :: rest =>
      match value with
      | JObject _ =>
          match flattenJson value delimiter (joinKey prefix key) with
          | Returns flattened => flattenEntries rest (assign result flattened)
          | Throws e => Throws e
          | OutOfFuel => OutOfFuel
          end
      | _ => flattenEntries rest (setProp result (joinKey prefix key) value)
      end
  end.

End Flattening.

(** The leaves of an object in document order, each under the keys on the
    way to it joined by the delimiter: a leaf is a value that is not a
    plain object. *)
Fixpoint leaves (json : JsonValue) (delimiter prefix : string) {struct json}
  : list (string * JsonValue) :=
  match json with
  | JObject fs =>
      (fix entries (l : list (string * JsonValue)) {struct l}
         : list (string * JsonValue) :=
         match l with
         | [] => []
         | (key, value) :: rest =>
             (match value with
              | JObject _ => leaves value delimiter (joinKey delimiter prefix key)
              | _ => [(joinKey delimiter prefix key, value)]
              end ++ entries rest)%list
         end) fs
  | _ => []
  end.

Section Leaves.

Variables delimiter prefix : string.

(** The same, over a list of entries. *)
Fixpoint leavesOf (l : list (string * JsonValue)) {struct l}
  : list (string * JsonValue) :=
  match l with
  | [] => []
  | (key, value) :: rest =>
      (match value with
       | JObject _ => leaves value delimiter (joinKey delimiter prefix key)
       | _ => [(joinKey delimiter prefix key, value)]
       end ++ leavesOf rest)%list
  end.

End Leaves.

(** [flattenJson] on [x] assigns the leaves of [x] in document order. *)
Definition flattens (x : JsonValue) : Prop :=
  forall delimiter prefix,
    match x with
    | JObject _ =>
        flattenJson x delimiter prefix = Returns (assign [] (leaves x delimiter prefix))
    | _ => True
    end.

(** [{a: {b: 1, c: {}}, d: [2]}]. *)
Definition nested : JsonValue :=
  JObject [("a", JObject [("b", JNumber 1); ("c", JObject [])]);
           ("d", JArray [JNumber 2])].

End TransformSpec.

Module TemplateSpec.

Import Generate.


(** The nesting depth of a template: the number of nested calls that
    processing it takes. *)
Fixpoint depth (t : JsonValue) {struct t} : nat :=
  match t with
  | JArray xs => S (list_max (map depth xs))
  | JObject fs => S (list_max (map (fun kv => depth (snd kv)) fs))
  | _ => 1
  end.


End TemplateSpec.

(** * Properties *)

(** ** The literal directive *)

Module GenerateFacts.

Import Generate GenerateSpec.

Section LiteralDirective.

Variable getValue : list (string * JsonValue) -> JsonValue -> option JsonValue.
Variable processTemplateString :
  string -> list (string * JsonValue) -> bool -> option JsonValue ->
  Gen (option JsonValue).
Variable evalStringCondition : string -> list (string * JsonValue) -> bool.
Variable mathOperation : option JsonValue -> list (option JsonValue) -> option JsonValue.
Variable generateDate : list (string * JsonValue) -> list (string * JsonValue) -> string.
Variable generateRandomValue : list (string * JsonValue) -> JsonValue.
Variable iterations : JsonValue -> nat.
Variable validateJsonValid : option JsonValue -> option JsonValue -> bool.

Let generate :=
  generateJson getValue processTemplateString evalStringCondition mathOperation
    generateDate generateRandomValue iterations validateJsonValid.

(** C3: with a data context, the template [{$type:'literal', $value: v}]
    reaches the default branch of the directive switch for every [v]: the
    call raises the unknown-directive error under [onError: 'throw'],
    returns the configured default under 'default' and the template itself
    under 'ignore'.  In no case does the switch return [$value]. *)
Theorem literal_directive_is_unknown (fuel : nat) (v : JsonValue)
  (data : list (string * JsonValue)) (options : JsonGeneratorOptions) :
  generate (S fuel) (literalTemplate v) (Some data) options =
    match onError options with
    | OnThrow => Throws (JsonGeneratorError "Unknown template directive: literal")
    | OnDefault => Returns (defaultValue options)
    | OnIgnore => Returns (Some (literalTemplate v))
    end.
Proof.
  unfold generate, generateJson, literalTemplate.
  cbn [deepCloneTemplate map fst snd processTemplate bindO getProp String.eqb
       Ascii.eqb Bool.eqb truthy].
  destruct (onError options); reflexivity.
Qed.

(** The failing input of C3: the literal 5 under the default options. *)
Example literal_five_throws :
  generate 3 (literalTemplate (JNumber 5)) (Some []) defaultOptions =
    Throws (JsonGeneratorError "Unknown template directive: literal").
Proof. reflexivity. Qed.

End LiteralDirective.

End GenerateFacts.

(** ** Schema validation: every violation is reported *)

Module ValidatorFacts.

Import Validator ValidatorSpec.

Section ValidateCompleteness.

Variable regexTest : string -> string -> bool.
Variable regexTestI : string -> string -> bool.
Variable urlParses : string -> bool.
Variable dateParses : string -> bool.

Let validate := validateAgainstSchema regexTest regexTestI urlParses dateParses.

Local Abbreviation Violation :=
  (ValidatorSpec.Violation regexTest regexTestI urlParses dateParses).

(** Membership in the pieces the validators are built from. *)

Lemma in_pushIf (c : bool) (e e' : ValidationError) :
  In e (pushIf c e') <-> c = true /\ e = e'.
Proof.
  unfold pushIf. destruct c; simpl; intuition congruence.
Qed.

Lemma in_whenSome {A : Type} (o : option A) (f : A -> list ValidationError)
  (e : ValidationError) :
  In e (whenSome o f) <-> exists a, o = Some a /\ In e (f a).
Proof.
  destruct o as [a|]; simpl.
  - split; [intros H; exists a; auto | intros (a' & Ha & H); congruence].
  - split; [tauto | intros (a' & Ha & _); discriminate].
Qed.

Lemma in_itemErrors rec itemSchema base rest (i0 : nat) e :
  In e (itemErrors rec itemSchema base rest i0) <->
  exists i x, rest !! i = Some x /\ In e (rec itemSchema x (indexPath base (i0 + i))).
Proof.
  revert i0. induction rest as [|y rest IH]; intros i0; simpl.
  - split; [tauto | intros (i & x & H & _); discriminate].
  - rewrite in_app_iff, IH. split.
    + intros [H | (i & x & Hi & H)].
      * exists 0%nat, y. rewrite Nat.add_0_r. auto.
      * exists (S i), x. rewrite Nat.add_succ_r. auto.
    + intros ([|i] & x & Hi & H); simpl in Hi.
      * left. injection Hi as <-. now rewrite Nat.add_0_r in H.
      * right. exists i, x. rewrite Nat.add_succ_r in H. auto.
Qed.

Lemma in_propertyErrors rec obj base props e :
  In e (propertyErrors rec obj base props) <->
  exists prop propSchema v,
    In (prop, propSchema) props /\ getProp obj prop = Some v /\
    In e (rec propSchema v (propPath base prop)).
Proof.
  induction props as [|[p ps] props IH]; simpl.
  - split; [tauto | intros (? & ? & ? & [] & _)].
  - rewrite in_app_iff, IH. split.
    + intros [H | (prop & propSchema & v & Hin & Hg & H)].
      * destruct (getProp obj p) as [v|] eqn:Hg; [|destruct H].
        exists p, ps, v. auto.
      * exists prop, propSchema, v. auto.
    + intros (prop & propSchema & v & [Heq | Hin] & Hg & H).
      * left. injection Heq as -> ->. now rewrite Hg.
      * right. exists prop, propSchema, v. auto.
Qed.

Lemma existsb_json_eqb_app x (l1 l2 : list JsonValue) :
  existsb (json_eqb x) (l1 ++ l2) = existsb (json_eqb x) l1 || existsb (json_eqb x) l2.
Proof. apply existsb_app. Qed.

Lemma in_uniqueItemsErrors base seen rest (i0 : nat) e :
  In e (uniqueItemsErrors base seen rest i0) <->
  exists i x, rest !! i = Some x /\
    existsb (json_eqb x) (seen ++ take i rest) = true /\
    e = duplicateError base (i0 + i) x.
Proof.
  revert seen i0. induction rest as [|y rest IH]; intros seen i0; simpl.
  - split; [tauto | intros (i & x & H & _); discriminate].
  - rewrite in_app_iff, in_pushIf, IH. split.
    + intros [[H ->] | (i & x & Hi & Hex & ->)].
      * exists 0%nat, y. rewrite Nat.add_0_r, app_nil_r. auto.
      * exists (S i), x. rewrite Nat.add_succ_r. simpl.
        rewrite <- app_assoc in Hex. auto.
    + intros ([|i] & x & Hi & Hex & ->); simpl in Hi.
      * left. injection Hi as <-. simpl in Hex. rewrite app_nil_r in Hex.
        now rewrite Nat.add_0_r.
      * right. exists i, x. simpl in Hex. rewrite <- app_assoc.
        rewrite Nat.add_succ_r. auto.
Qed.

(** An earlier element with the same key, in terms of indices. *)
Lemma existsb_take_iff x (arr : list JsonValue) (i : nat) :
  existsb (json_eqb x) (take i arr) = true <->
  exists j y, (j < i)%nat /\ arr !! j = Some y /\ json_eqb x y = true.
Proof.
  rewrite existsb_exists. split.
  - intros (y & Hin & Heq). apply list_elem_of_In in Hin.
    apply list_elem_of_lookup in Hin as [j Hj].
    apply lookup_take_Some in Hj as [Hj Hlt]. eauto.
  - intros (j & y & Hlt & Hj & Heq). exists y. split; [|exact Heq].
    apply list_elem_of_In, list_elem_of_lookup. exists j.
    apply lookup_take_Some. auto.
Qed.

Lemma validate_unfold schema json base :
  validate schema json base =
  validateBody regexTest regexTestI urlParses dateParses validate schema json base.
Proof. destruct schema; reflexivity. Qed.

Lemma typeMismatch_true schema json :
  typeMismatch schema json = true <->
  exists ts, expectedTypesOf schema = Some ts /\
             includesStr ts (getTypeName json) = false.
Proof.
  unfold typeMismatch. destruct (expectedTypesOf schema) as [ts|].
  - rewrite negb_true_iff. split; [eauto | intros (ts' & Heq & H); congruence].
  - split; [discriminate | intros (? & ? & _); discriminate].
Qed.


(** Induction on a schema: the sub-schemas are [items] and the members of
    [properties]. *)
Lemma schema_induction (P : JsonSchema -> Prop) :
  (forall schema,
      (forall itemSchema, items schema = Some itemSchema -> P itemSchema) ->
      (forall props prop propSchema,
          properties schema = Some props -> In (prop, propSchema) props ->
          P propSchema) ->
      P schema) ->
  forall schema, P schema.
Proof.
  intros H. fix IH 1.
  intros [ty mi ma un it rq pr ad mp xp en co fo pa mn emn mx emx mo ml xl].
  apply H; simpl.
  - intros it' Heq. destruct it as [it0|]; [|discriminate].
    injection Heq as <-. apply IH.
  - intros ps prop s Heq. destruct pr as [l|]; [|discriminate].
    injection Heq as <-.
    induction l as [|[k s0] l IHl]; simpl; [tauto|].
    intros [Heq | Hin]; [injection Heq as _ <-; apply IH | apply IHl, Hin].
Qed.



(** Every error of the primitive validator reports a violation. *)
Lemma primitive_reported_violation schema v base e :
  isPrimitive v = true -> typeMismatch schema v = false ->
  In e (validatePrimitiveAgainstSchema regexTest regexTestI urlParses dateParses
          v schema base) ->
  Violation schema v base e.
Proof.
  intros Hp Hm. unfold validatePrimitiveAgainstSchema. rewrite !in_app_iff.
  intros [H | [H | [H | [H | [H | [H | H]]]]]].
  - apply in_whenSome in H as (en & Hen & H). apply in_pushIf in H as [Hc ->].
    apply V_enum; auto. now apply negb_true_iff.
  - apply in_whenSome in H as (c & Hco & H). apply in_pushIf in H as [Hc ->].
    apply V_const; auto. now apply negb_true_iff.
  - destruct v; try contradiction.
    apply in_whenSome in H as (f & Hf & H). apply in_pushIf in H as [Hc ->].
    apply andb_prop in Hc as [Hne Hv].
    apply V_format; auto.
    + now apply String.eqb_neq, negb_true_iff.
    + now apply negb_true_iff.
  - destruct v; try contradiction.
    apply in_whenSome in H as (p & Hpa & H). apply in_pushIf in H as [Hc ->].
    apply andb_prop in Hc as [Hne Hv].
    apply V_pattern; auto.
    + now apply String.eqb_neq, negb_true_iff.
    + now apply negb_true_iff.
  - destruct v; try contradiction.
    rewrite !in_app_iff in H.
    destruct H as [H | [H | [H | [H | H]]]];
      apply in_whenSome in H as (m & Hmf & H); apply in_pushIf in H as [Hc ->].
    + apply V_minimum; auto. now apply Z.ltb_lt.
    + apply V_exclusiveMinimum; auto. now apply Z.leb_le.
    + apply V_maximum; auto. now apply Z.ltb_lt.
    + apply V_exclusiveMaximum; auto. now apply Z.leb_le.
    + apply V_multipleOf; auto.
  - destruct v; try contradiction.
    rewrite !in_app_iff in H.
    destruct H as [H | H];
      apply in_whenSome in H as (m & Hmf & H); apply in_pushIf in H as [Hc ->].
    + apply V_minLength; auto. now apply Z.ltb_lt.
    + apply V_maxLength; auto. now apply Z.ltb_lt.
  - destruct v; try contradiction.
    apply in_whenSome in H as (m & Hmf & H). apply in_pushIf in H as [Hc ->].
    apply V_minLength; auto. now apply Z.ltb_lt.
Qed.

(** Every reported error reports a violation. *)
Lemma reported_violation schema :
  forall json base e, In e (validate schema json base) -> Violation schema json base e.
Proof.
  induction schema as [schema IHitems IHprops] using schema_induction.
  intros json base e. rewrite validate_unfold. unfold validateBody.
  destruct (typeMismatch schema json) eqn:Hm.
  - apply typeMismatch_true in Hm as (ts & Hts & Hinc). rewrite Hts. simpl.
    intros [<- | []]. now apply V_type.
  - destruct json as [ | b | n | s | arr | obj]; simpl;
      try (now apply primitive_reported_violation).
    + (* array *)
      unfold validateArrayAgainstSchema. rewrite !in_app_iff, !in_whenSome.
      intros [H | [H | [H | H]]].
      * destruct H as (m & Hmf & H). apply in_pushIf in H as [Hc ->].
        apply V_minItems; auto. now apply Z.ltb_lt.
      * destruct H as (m & Hmf & H). apply in_pushIf in H as [Hc ->].
        apply V_maxItems; auto. now apply Z.ltb_lt.
      * destruct (uniqueItems schema) eqn:Hu; [|destruct H].
        apply in_uniqueItemsErrors in H as (i & x & Hi & Hex & ->).
        simpl in Hex. apply existsb_take_iff in Hex as (j & y & Hlt & Hj & Heq).
        simpl. eapply V_unique; eauto.
      * destruct H as (itemSchema & Hit & H).
        apply in_itemErrors in H as (i & x & Hi & H). simpl in H.
        eapply V_item; eauto.
    + (* object *)
      unfold validateObjectAgainstSchema. rewrite !in_app_iff, !in_whenSome.
      intros [H | [H | [H | [H | H]]]].
      * destruct H as (req & Hreq & H). unfold requiredErrors in H.
        apply in_flat_map in H as (prop & Hin & H).
        apply in_pushIf in H as [Hc ->].
        eapply V_required; eauto. now apply negb_true_iff.
      * destruct H as (props & Hps & H).
        apply in_propertyErrors in H as (prop & propSchema & v & Hin & Hg & H).
        eapply V_property; eauto.
      * destruct (additionalProperties schema) as [[|]|] eqn:Had;
          try contradiction.
        unfold additionalErrors in H.
        apply in_flat_map in H as (prop & Hin & H).
        apply in_pushIf in H as [Hc ->].
        apply V_additional; auto. now apply negb_true_iff.
      * destruct H as (m & Hmf & H). apply in_pushIf in H as [Hc ->].
        apply V_minProperties; auto. now apply Z.ltb_lt.
      * destruct H as (m & Hmf & H). apply in_pushIf in H as [Hc ->].
        apply V_maxProperties; auto. now apply Z.ltb_lt.
Qed.



(** *** The scenario of the specification *)

(** C6, at its scenario: validating [{}] against the schema that requires
    [name] yields exactly one error, whose message says the property is
    missing and whose path is [.name], with a leading dot, which is not
    the string [name]. *)
Theorem required_name_error_path :
  validateSchema regexTest regexTestI urlParses dateParses (JObject []) nameSchema
  = {| valid := false;
       errors :=
         [ {| path := ".name";
              message := "Required property " +:+ dq +:+ "name" +:+ dq +:+ " is missing";
              value := None;
              expected := Some (JString "present") |} ] |}
  /\ ".name" <> "name".
Proof. split; [reflexivity | discriminate]. Qed.

End ValidateCompleteness.

End ValidatorFacts.

(** ** Unordered array comparison *)

Module CompareFacts.

Import Compare CompareSpec.

(** The splice of the inner loop removes the first deep-equal element. *)
Lemma spliceFirstMatch_firstMatch x pool :
  spliceFirstMatch x pool = option_map (fun j => delete j pool) (firstMatch x pool).
Proof.
  induction pool as [|y pool IH]; simpl; [reflexivity|].
  destruct (deepEqual x y); [reflexivity|].
  rewrite IH. destruct (firstMatch x pool); reflexivity.
Qed.

(** The loop of the code computes the greedy matching. *)
Lemma matchLoop_greedy rest i bCopy matches differences :
  matchLoop rest i bCopy matches differences =
  let '(un, leftover, m) := greedy rest i bCopy in
  (leftover, (matches + m)%nat, (differences ++ map missingElement un)%list).
Proof.
  revert i bCopy matches differences.
  induction rest as [|x rest IH]; intros i bCopy matches differences; simpl.
  - now rewrite Nat.add_0_r, app_nil_r.
  - rewrite spliceFirstMatch_firstMatch.
    destruct (firstMatch x bCopy) as [j|]; simpl.
    + rewrite IH. destruct (greedy rest (S i) (delete j bCopy)) as [[un leftover] m].
      now rewrite Nat.add_succ_r.
    + rewrite IH. destruct (greedy rest (S i) bCopy) as [[un leftover] m].
      simpl. now rewrite <- app_assoc.
Qed.

(** The matching accounts for every element of both arrays. *)
Lemma greedy_counts a i pool :
  let '(un, leftover, m) := greedy a i pool in
  (m + length un = length a)%nat /\ (m <= length pool)%nat /\
  (length leftover + m = length pool)%nat.
Proof.
  revert i pool. induction a as [|x a IH]; intros i pool; simpl.
  - lia.
  - destruct (firstMatch x pool) as [j|] eqn:Hj.
    + specialize (IH (S i) (delete j pool)).
      destruct (greedy a (S i) (delete j pool)) as [[un leftover] m].
      assert (Hlt : (j < length pool)%nat).
      { clear -Hj. revert j Hj. induction pool as [|y pool IHp]; simpl; [discriminate|].
        intros j. destruct (deepEqual x y); [intros [= <-]; lia|].
        destruct (firstMatch x pool) as [k|]; simpl; [|discriminate].
        intros [= <-]. specialize (IHp k eq_refl). lia. }
      rewrite length_delete in IH.
      2: { destruct (lookup_lt_is_Some_2 pool j Hlt) as [y Hy]. eauto. }
      simpl. lia.
    + specialize (IH (S i) pool).
      destruct (greedy a (S i) pool) as [[un leftover] m]. simpl. lia.
Qed.

(** C7, as the code has it: on arrays of equal length the result is the
    greedy matching the specification describes (missing-element for each
    unmatched element of [a], extra-element for each element of [b] left
    over, similarity matches / len(a), and 1 when both are empty); on
    arrays of different lengths no matching is attempted and the result
    is the single length-mismatch difference with similarity 0. *)
Theorem compareArraysUnordered_by_length (a b : list JsonValue) :
  (length a = length b -> compareArraysUnordered a b = specUnordered a b)
  /\ (length a <> length b ->
      compareArraysUnordered a b =
        {| equal := false;
           differences :=
             [mkDiff "" "length-mismatch" (Some (JNumber (Z.of_nat (length a))))
                (Some (JNumber (Z.of_nat (length b)))) None];
           similarity := 0%Q |}).
Proof.
  unfold compareArraysUnordered. split; intros Hlen.
  - apply Nat.eqb_eq in Hlen as Hlen'. rewrite Hlen'. simpl.
    unfold specUnordered. rewrite matchLoop_greedy.
    destruct (greedy a 0 b) as [[un leftover] m]. simpl.
    f_equal. destruct a as [|x a]; simpl.
    + destruct b; [reflexivity | discriminate].
    + reflexivity.
  - apply Nat.eqb_neq in Hlen. now rewrite Hlen.
Qed.

(** Both cases at concrete arrays: [1, 2] against [2, 3], and [1] against
    [1, 2]. *)
Lemma compareArraysUnordered_by_length_witness :
  compareArraysUnordered [JNumber 1; JNumber 2] [JNumber 2; JNumber 3]
  = specUnordered [JNumber 1; JNumber 2] [JNumber 2; JNumber 3]
  /\ compareArraysUnordered [JNumber 1] [JNumber 1; JNumber 2]
     = {| equal := false;
          differences :=
            [mkDiff "" "length-mismatch" (Some (JNumber 1)) (Some (JNumber 2)) None];
          similarity := 0%Q |}.
Proof.
  split.
  - apply (proj1 (compareArraysUnordered_by_length
                    [JNumber 1; JNumber 2] [JNumber 2; JNumber 3])).
    reflexivity.
  - apply (proj2 (compareArraysUnordered_by_length [JNumber 1] [JNumber 1; JNumber 2])).
    simpl. lia.
Defined.

(** The claim as stated fails on [1] against [1, 2]: the matching of the
    specification finds one match, similarity 1 and one extra element,
    where the code reports a length mismatch and similarity 0. *)
Lemma unordered_length_counterexample :
  similarity (specUnordered [JNumber 1] [JNumber 1; JNumber 2]) == 1
  /\ differences (specUnordered [JNumber 1] [JNumber 1; JNumber 2]) =
       [mkDiff "" "extra-element" None (Some (JNumber 2)) None]
  /\ similarity (compareArraysUnordered [JNumber 1] [JNumber 1; JNumber 2]) = 0%Q
  /\ differences (compareArraysUnordered [JNumber 1] [JNumber 1; JNumber 2]) =
       [mkDiff "" "length-mismatch" (Some (JNumber 1)) (Some (JNumber 2)) None].
Proof. vm_compute. repeat split; reflexivity. Qed.

(** Two arrays with the same elements in another order. *)
Example unordered_permutation :
  compareArraysUnordered [JNumber 1; JString "x"; JNumber 2]
                         [JNumber 2; JNumber 1; JString "x"]
  = {| equal := true; differences := []; similarity := ratio 3 3 |}.
Proof. reflexivity. Qed.

End CompareFacts.

(** ** Path Engine: the empty path, and reads that leave the store alone *)

Module PathFacts.

Import Store Path.
Local Open Scope js_scope.

(** C10: on the empty expression [jsonPath] returns the root with
    [parent: null], [key: ''] and [exists: true], whatever the options,
    and writes nothing; so [setValue] with the empty path returns the
    argument unchanged and [deleteValue] with the empty path deletes
    nothing. *)
Theorem empty_path_is_root (h : heap) (json v : val) (options : JsonPathOptions) :
  jsonPath json "" options h =
    (Returns {| value := json; parent := VNull; key := Key ""; exists_ := true;
                target := json |}, h)
  /\ setValue json "" v h = (Returns json, h)
  /\ deleteValue json "" h = (Returns json, h).
Proof. repeat split. Qed.

Ltac break_match :=
  match goal with
  | |- context [match ?x with _ => _ end] => destruct x eqn:?
  | |- context [if ?x then _ else _] => destruct x eqn:?
  end.

(** Without [create] the traversal writes nothing, whether it ends, breaks
    or throws. *)
Lemma traverse_readonly expression segments rest :
  forall i c h, snd (traverse false expression segments i rest c h) = h.
Proof.
  induction rest as [|segment rest IH]; intros i c h; [reflexivity|].
  cbn [traverse]. unfold bind, ret, throw, readHeap.
  cbn [negb andb].
  destruct (isNullish (current c)); [reflexivity|].
  cbn [current cparent parentKey cexists].
  destruct (current c) as [ | | b | n | s | l]; try reflexivity.
  destruct (h !! l) as [[elems extra | fields]|]; [| |reflexivity].
  - destruct segment as [s | n]; [reflexivity|].
    destruct (if n <? 0 then _ else _); [reflexivity|]. apply IH.
  - destruct segment as [s | n]; [|reflexivity].
    destruct (hasProp fields s); [apply IH|].
    destruct rest; [apply IH | reflexivity].
Qed.

Lemma jsonPath_readonly json expression h :
  snd (jsonPath json expression noOptions h) = h.
Proof.
  unfold jsonPath, bind, liftOutcome.
  destruct (parsePathExpression expression) as [segments | e |]; try reflexivity.
  destruct segments as [|s segments]; [reflexivity|].
  pose proof (traverse_readonly expression (s :: segments) (s :: segments) 0
                (mkCursor json VNull (Key "") true) h) as Ht.
  destruct (traverse _ _ _ _ _ _ h) as [[c | e |] h']; simpl in Ht; subst h';
    try reflexivity.
  cbn. destruct (cexists c); reflexivity.
Qed.




End PathFacts.

(** ** Path round trip *)

Module RoundTrip.

Import Store Path PathSpec.
Local Open Scope js_scope.

Section Steps.

Variable expression : string.
Variable segments : list Segment.

Let walk := traverse true expression segments.

Ltac walk_step :=
  try unfold walk;
  cbn [traverse];
  unfold bind, ret, readHeap;
  cbn [isNullish isNull negb andb current cparent parentKey cexists];
  cbn beta iota.

Lemma walk_array_inside create i n rest' c h l elems extra :
  current c = VRef l -> h !! l = Some (Arr elems extra) ->
  0 <= n < Z.of_nat (length elems) ->
  traverse create expression segments i (Index n :: rest') c h =
  traverse create expression segments (S i) rest'
    (mkCursor (default VUndefined (elems !! Z.to_nat n)) (VRef l) (Index n) (cexists c)) h.
Proof.
  destruct c as [cur par key ex]. cbn [current cexists]. intros -> Hl Hn.
  walk_step. rewrite Hl.
  assert (H1 : (n <? 0) = false) by (apply Z.ltb_ge; lia).
  assert (H2 : (Z.of_nat (length elems) <=? n) = false) by (apply Z.leb_gt; lia).
  rewrite H1, H2. unfold arrayGet. rewrite H1. reflexivity.
Qed.





Lemma walk_dangling i seg rest' c h l :
  current c = VRef l -> h !! l = None ->
  fst (walk i (seg :: rest') c h) = Throws (TypeError "missing object").
Proof.
  destruct c as [cur par key ex]. cbn [current cexists]. intros -> Hl.
  walk_step. rewrite Hl. reflexivity.
Qed.

Lemma walk_object_has create i s rest' c h l fields x :
  current c = VRef l -> h !! l = Some (Obj fields) -> getProp fields s = Some x ->
  traverse create expression segments i (Key s :: rest') c h =
  traverse create expression segments (S i) rest'
    (mkCursor x (VRef l) (Key s) (cexists c)) h.
Proof.
  destruct c as [cur par key ex]. cbn [current cexists]. intros -> Hl Hx.
  walk_step. rewrite Hl. unfold hasProp. rewrite Hx. reflexivity.
Qed.





End Steps.


(** *** Writing a member and reading it back *)











Section SetRun.

Variable expression : string.
Variable segments : list Segment.
Variable v : val.

Let walk := traverse true expression segments.


End SetRun.





(** *** When the write returns *)

(** A traversal follows the part of a path that resolves without writing,
    in either mode. *)
Lemma walk_resolves create expression segments prefix :
  forall rest i cur par key ex h mid,
    resolves h cur prefix mid ->
    exists par' key',
      traverse create expression segments i (prefix ++ rest)%list
        (mkCursor cur par key ex) h =
      traverse create expression segments (i + length prefix)%nat rest
        (mkCursor mid par' key' ex) h.
Proof.
  induction prefix as [|seg prefix IH]; intros rest i cur par key ex h mid Hres.
  - cbn [resolves] in Hres. subst. exists par, key.
    cbn [app length]. now rewrite Nat.add_0_r.
  - cbn [resolves] in Hres. destruct Hres as (l & o & child & -> & Ho & Hm & Hres).
    cbn [app length]. replace (i + S (length prefix))%nat with (S i + length prefix)%nat by lia.
    destruct o as [elems extra | fields], seg as [s | n]; cbn [member] in Hm;
      try discriminate.
    + destruct ((0 <=? n) && (n <? Z.of_nat (length elems))) eqn:Hn; [|discriminate].
      apply andb_prop in Hn as [H0 H1]. apply Z.leb_le in H0. apply Z.ltb_lt in H1.
      rewrite (walk_array_inside expression segments create i n (prefix ++ rest)
                 (mkCursor (VRef l) par key ex) h l elems extra eq_refl Ho
                 (conj H0 H1)).
      rewrite Hm. cbn [default cexists]. apply IH, Hres.
    + rewrite (walk_object_has expression segments create i s (prefix ++ rest)
                 (mkCursor (VRef l) par key ex) h l fields child eq_refl Ho Hm).
      cbn [cexists]. apply IH, Hres.
Qed.






(** Left out of the amended statement: a missing link is created for the
    segment after the next one, so that [setValue({}, 'a.b[0].c', 5)] puts an
    array under [a] and then raises on the key [b]. *)
Example create_looks_one_segment_ahead :
  setValue (VRef 0) "a.b[0].c" (VNumber 5) [Obj []]
  = (Throws (JsonPathError "Expected array index, got: b" "a.b[0].c"),
     [Obj [("a", VRef 1)]; Arr [] []]).
Proof. reflexivity. Qed.

End RoundTrip.

(** ** Merge, compare and validate leave their arguments alone *)

Module FrameFacts.

Import Store Merge FrameSpec.
Local Open Scope js_scope.

Lemma preserves_refl h : preserves h h.
Proof. intros l o H. exact H. Qed.

Lemma preserves_trans h1 h2 h3 :
  preserves h1 h2 -> preserves h2 h3 -> preserves h1 h3.
Proof. intros H12 H23 l o H. auto. Qed.

Lemma preserves_alloc h o : preserves h (h ++ [o])%list.
Proof.
  intros l o' H. rewrite lookup_app_l; [exact H | eapply lookup_lt_Some; eauto].
Qed.

(** What is readable from a value does not change when the store it is
    read in is preserved. *)
Lemma snapshot_preserved fuel :
  forall h h' v s,
    preserves h h' -> snapshot fuel h v = Some s -> snapshot fuel h' v = Some s.
Proof.
  induction fuel as [|fuel IH]; intros h h' v s Hp; destruct v; simpl; auto.
  destruct (h !! l) as [o|] eqn:Ho; [|discriminate].
  rewrite (Hp l o Ho).
  assert (Hall : forall vs,
             foldr (fun v acc =>
                      match snapshot fuel h' v, acc with
                      | Some s, Some ss => Some (s :: ss)
                      | _, _ => None
                      end) (Some []) vs
             = foldr (fun v acc =>
                      match snapshot fuel h v, acc with
                      | Some s, Some ss => Some (s :: ss)
                      | _, _ => None
                      end) (Some []) vs
             \/ foldr (fun v acc =>
                      match snapshot fuel h v, acc with
                      | Some s, Some ss => Some (s :: ss)
                      | _, _ => None
                      end) (Some []) vs = None).
  { induction vs as [|x vs IHvs]; simpl; [now left|].
    destruct (snapshot fuel h x) as [sx|] eqn:Hx; [|now right].
    rewrite (IH h h' x sx Hp Hx).
    destruct IHvs as [-> | ->]; [now left | now right]. }
  assert (Hprops : forall ps : list (string * val),
             foldr (fun kv acc =>
                      match snapshot fuel h' (snd kv), acc with
                      | Some s, Some ss => Some ((fst kv, s) :: ss)
                      | _, _ => None
                      end) (Some []) ps
             = foldr (fun kv acc =>
                      match snapshot fuel h (snd kv), acc with
                      | Some s, Some ss => Some ((fst kv, s) :: ss)
                      | _, _ => None
                      end) (Some []) ps
             \/ foldr (fun kv acc =>
                      match snapshot fuel h (snd kv), acc with
                      | Some s, Some ss => Some ((fst kv, s) :: ss)
                      | _, _ => None
                      end) (Some []) ps = None).
  { induction ps as [|x ps IHps]; simpl; [now left|].
    destruct (snapshot fuel h (snd x)) as [sx|] eqn:Hx; [|now right].
    rewrite (IH h h' (snd x) sx Hp Hx).
    destruct IHps as [-> | ->]; [now left | now right]. }
  destruct o as [elems extra | fields].
  - destruct (Hall elems) as [-> | ->]; [|discriminate].
    destruct (foldr _ _ elems); [|discriminate].
    destruct (Hprops extra) as [-> | ->]; [auto | discriminate].
  - destruct (Hprops fields) as [-> | ->]; [auto | discriminate].
Qed.

(** *** Computations that only read and allocate *)

Lemma extends_ret {A : Type} (a : A) : extends (ret a).
Proof. intros h. apply preserves_refl. Qed.

Lemma extends_throw {A : Type} e : extends (@throw A e).
Proof. intros h. apply preserves_refl. Qed.

Lemma extends_outOfFuel {A : Type} : extends (@outOfFuel A).
Proof. intros h. apply preserves_refl. Qed.

Lemma extends_readHeap : extends readHeap.
Proof. intros h. apply preserves_refl. Qed.

Lemma extends_alloc o : extends (alloc o).
Proof. intros h. apply preserves_alloc. Qed.

Lemma extends_bind {A B : Type} (m : M A) (k : A -> M B) :
  extends m -> (forall a, extends (k a)) -> extends (bind m k).
Proof.
  intros Hm Hk h. unfold bind. specialize (Hm h).
  destruct (m h) as [[a | e |] h1]; simpl in *; try exact Hm.
  eapply preserves_trans; [exact Hm | apply Hk].
Qed.

Lemma extends_mapM {A B : Type} (f : A -> M B) (l : list A) :
  (forall x, extends (f x)) -> extends (mapM f l).
Proof.
  intros Hf. induction l as [|x l IH]; simpl.
  - apply extends_ret.
  - apply extends_bind; [apply Hf | intros y].
    apply extends_bind; [exact IH | intros ys]. apply extends_ret.
Qed.

Lemma extends_foldM {A B : Type} (f : B -> A -> M B) (l : list A) :
  (forall acc x, extends (f acc x)) -> forall acc, extends (foldM f l acc).
Proof.
  intros Hf. induction l as [|x l IH]; intros acc; simpl.
  - apply extends_ret.
  - apply extends_bind; [apply Hf | intros acc']. apply IH.
Qed.

Ltac extends_step :=
  first
    [ apply extends_ret
    | apply extends_throw
    | apply extends_outOfFuel
    | apply extends_readHeap
    | apply extends_alloc
    | apply extends_bind; [|intros ?]
    | apply extends_mapM; intros ?
    | apply extends_foldM; intros ? ? ].

Ltac break_branch :=
  match goal with
  | |- extends (if ?b then _ else _) => destruct b
  | |- extends (match ?x with _ => _ end) => destruct x
  | |- extends (let '(_, _) := ?x in _) => destruct x
  end.

(** [deepCompare] and [calculateSimilarity] allocate nothing either, but
    that they preserve the store is all that is needed. *)
Lemma deepCompare_extends fuel :
  forall a b path, extends (CompareStore.deepCompare fuel a b path).
Proof.
  induction fuel as [|fuel IH]; intros a b path; cbn [CompareStore.deepCompare].
  - apply extends_outOfFuel.
  - apply extends_bind; [apply extends_readHeap | intros h].
    repeat break_branch; try apply extends_ret.
    + apply extends_bind; [|intros r; apply extends_ret].
      match goal with
      | |- extends (?loop _ _ _) =>
          assert (Hloop : forall l1 l2 i, extends (loop l1 l2 i))
      end; [|apply Hloop].
      induction l1 as [|x xs IHxs]; intros [|y ys] i; try apply extends_ret.
      apply extends_bind; [apply IH | intros e].
      apply extends_bind; [apply IHxs | intros r]. apply extends_ret.
    + apply extends_foldM. intros acc key.
      repeat break_branch; try apply extends_ret.
      apply extends_bind; [apply IH | intros e]. apply extends_ret.
Qed.

Lemma calculateSimilarity_extends fuel :
  forall a b, extends (CompareStore.calculateSimilarity fuel a b).
Proof.
  induction fuel as [|fuel IH]; intros a b; cbn [CompareStore.calculateSimilarity].
  - repeat break_branch; (apply extends_ret || apply extends_outOfFuel).
  - repeat break_branch; try apply extends_ret.
    apply extends_bind; [apply extends_readHeap | intros h].
    repeat break_branch; try apply extends_ret.
    + apply extends_bind; [|intros r; apply extends_ret].
      apply extends_mapM. intros xy. apply IH.
    + apply extends_bind; [|intros r; apply extends_ret].
      apply extends_mapM. intros key.
      repeat break_branch; try apply extends_ret; apply IH.
Qed.

Lemma compareJson_extends fuel a b : extends (CompareStore.compareJson fuel a b).
Proof.
  unfold CompareStore.compareJson.
  apply extends_bind; [apply deepCompare_extends | intros r].
  apply extends_bind; [apply calculateSimilarity_extends | intros s].
  apply extends_ret.
Qed.


Section ValidateFrame.

Variable stringify : heap -> val -> string.
Variable display : heap -> val -> string.
Variable regexTest : string -> string -> bool.
Variable regexTestI : string -> string -> bool.
Variable urlParses : string -> bool.
Variable dateParses : string -> bool.

Lemma validateAgainstSchema_extends fuel :
  forall json schema basePath,
    extends (ValidateStore.validateAgainstSchema stringify display regexTest
               regexTestI urlParses dateParses fuel json schema basePath).
Proof.
  induction fuel as [|fuel IH]; intros json schema basePath;
    cbn [ValidateStore.validateAgainstSchema].
  - apply extends_outOfFuel.
  - apply extends_bind; [apply extends_readHeap | intros h].
    apply extends_bind.
    { repeat break_branch; (apply extends_ret || apply extends_alloc). }
    intros expectedTypes.
    apply extends_bind; [apply extends_readHeap | intros h1].
    repeat break_branch; try apply extends_ret.
    + apply extends_bind; [|intros r; apply extends_ret].
      break_branch; [|apply extends_ret].
      apply extends_mapM. intros ix. apply IH.
    + apply extends_bind; [|intros r; apply extends_ret].
      apply extends_mapM. intros kv.
      break_branch; [apply IH | apply extends_ret].
Qed.

Lemma validateSchema_extends fuel json schema :
  extends (ValidateStore.validateSchema stringify display regexTest regexTestI
             urlParses dateParses fuel json schema).
Proof.
  unfold ValidateStore.validateSchema.
  apply extends_bind; [apply validateAgainstSchema_extends | intros errors].
  apply extends_ret.
Qed.

End ValidateFrame.


(** *** Computations that write only to what they allocated *)

Section Owned.

Variable h0 : heap.

Local Abbreviation freshVal := (FrameSpec.freshVal h0).
Local Abbreviation freshProps := (FrameSpec.freshProps h0).
Local Abbreviation freshObj := (FrameSpec.freshObj h0).
Local Abbreviation Inv := (FrameSpec.Inv h0).
Local Abbreviation ok := (FrameSpec.ok h0).
Local Abbreviation callbackOwns := (FrameSpec.callbackOwns h0).

Lemma Inv_start : Inv h0.
Proof.
  split; [|split]; [lia | reflexivity |].
  intros l o Hl Ho. apply lookup_lt_Some in Ho. lia.
Qed.

Lemma ok_ret {A : Type} (a : A) (Q : A -> Prop) : Q a -> ok (ret a) Q.
Proof. intros Hq h Hi. split; [exact Hi | intros a' [= <-]; exact Hq]. Qed.

Lemma ok_throw {A : Type} e (Q : A -> Prop) : ok (throw e) Q.
Proof. intros h Hi. split; [exact Hi | discriminate]. Qed.

Lemma ok_outOfFuel {A : Type} (Q : A -> Prop) : ok outOfFuel Q.
Proof. intros h Hi. split; [exact Hi | discriminate]. Qed.

Lemma ok_readHeap : ok readHeap Inv.
Proof. intros h Hi. split; [exact Hi | intros a [= <-]; exact Hi]. Qed.

Lemma ok_bind {A B : Type} (m : M A) (k : A -> M B) (Q : A -> Prop) (R : B -> Prop) :
  ok m Q -> (forall a, Q a -> ok (k a) R) -> ok (bind m k) R.
Proof.
  intros Hm Hk h Hi. unfold bind. destruct (Hm h Hi) as [Hi1 Hq].
  destruct (m h) as [[a | e |] h1]; simpl in *;
    try (split; [exact Hi1 | discriminate]).
  apply (Hk a (Hq a eq_refl) h1 Hi1).
Qed.

Lemma ok_weaken {A : Type} (m : M A) (Q Q' : A -> Prop) :
  ok m Q -> (forall a, Q a -> Q' a) -> ok m Q'.
Proof.
  intros Hm Himp h Hi. destruct (Hm h Hi) as [Hi1 Hq]. split; [exact Hi1|].
  intros a Ha. apply Himp, Hq, Ha.
Qed.

Lemma ok_alloc o : freshObj o -> ok (alloc o) freshVal.
Proof.
  intros Ho h (Hlen & Hold & Hnew). unfold alloc. simpl. split.
  - split; [|split].
    + rewrite length_app. simpl. lia.
    + intros l Hl. rewrite lookup_app_l by lia. now apply Hold.
    + intros l o' Hl Hlk.
      destruct (Nat.lt_ge_cases l (length h)) as [Hlt | Hge].
      * rewrite lookup_app_l in Hlk by exact Hlt. eapply Hnew; eauto.
      * rewrite lookup_app_r in Hlk by exact Hge.
        destruct (l - length h)%nat; simpl in Hlk; [|discriminate].
        now injection Hlk as <-.
  - intros a [= <-]. simpl. exact Hlen.
Qed.

Lemma ok_store l o : (length h0 <= l)%nat -> freshObj o -> ok (store l o) (fun _ => True).
Proof.
  intros Hl Ho h (Hlen & Hold & Hnew). unfold store. simpl. split; [|auto].
  split; [|split].
  - now rewrite length_insert.
  - intros l' Hl'. rewrite list_lookup_insert_ne by lia. now apply Hold.
  - intros l' o' Hl' Hlk.
    destruct (decide (l = l')) as [<- | Hne].
    + destruct (Nat.lt_ge_cases l (length h)) as [Hlt | Hge].
      * rewrite list_lookup_insert_eq in Hlk by exact Hlt. now injection Hlk as <-.
      * rewrite list_insert_ge in Hlk by exact Hge. eapply Hnew; eauto.
    + rewrite list_lookup_insert_ne in Hlk by exact Hne. eapply Hnew; eauto.
Qed.

Lemma ok_mapM {A B : Type} (f : A -> M B) (l : list A) (Q : B -> Prop) :
  (forall x, In x l -> ok (f x) Q) -> ok (mapM f l) (Forall Q).
Proof.
  induction l as [|x l IH]; intros Hf; simpl.
  - apply ok_ret. constructor.
  - eapply ok_bind; [apply Hf; now left | intros y Hy].
    eapply ok_bind; [apply IH; intros x' Hx'; apply Hf; now right | intros ys Hys].
    apply ok_ret. now constructor.
Qed.

Lemma ok_foldM {A B : Type} (f : B -> A -> M B) (l : list A) (I : B -> Prop) :
  (forall acc x, In x l -> I acc -> ok (f acc x) I) ->
  forall acc, I acc -> ok (foldM f l acc) I.
Proof.
  induction l as [|x l IH]; intros Hf acc Hacc; simpl.
  - now apply ok_ret.
  - eapply ok_bind; [apply Hf; [now left | exact Hacc] | intros acc' Hacc'].
    apply IH; [|exact Hacc']. intros acc0 x' Hx'. apply Hf. now right.
Qed.

(** What is read out of the callee's part is the callee's. *)
Lemma elemsOf_fresh h v : Inv h -> freshVal v -> Forall freshVal (elemsOf h v).
Proof.
  intros (_ & _ & Hnew) Hv. unfold elemsOf, objectOf.
  destruct v as [ | | | | | l]; try constructor.
  destruct (h !! l) as [[elems extra | fields]|] eqn:Hl; try constructor.
  now destruct (Hnew l _ Hv Hl).
Qed.

Lemma fieldsOf_fresh h v : Inv h -> freshVal v -> freshProps (fieldsOf h v).
Proof.
  intros (_ & _ & Hnew) Hv. unfold fieldsOf, objectOf.
  destruct v as [ | | | | | l]; try constructor.
  destruct (h !! l) as [[elems extra | fields]|] eqn:Hl; try constructor.
  exact (Hnew l _ Hv Hl).
Qed.

Lemma freshProps_setProp fields key v :
  freshProps fields -> freshVal v -> freshProps (setProp fields key v).
Proof.
  unfold freshProps. induction fields as [|[k w] fields IH]; simpl; intros Hf Hv.
  - now repeat constructor.
  - inversion Hf as [|? ? Hw Hrest]; subst.
    destruct (String.eqb k key); constructor; auto.
Qed.

Lemma freshProps_getProp fields key v :
  freshProps fields -> getProp fields key = Some v -> freshVal v.
Proof.
  unfold freshProps. induction fields as [|[k w] fields IH]; simpl; intros Hf Hg.
  - discriminate.
  - inversion Hf as [|? ? Hw Hrest]; subst.
    destruct (String.eqb k key); [now injection Hg as <- | auto].
Qed.


Lemma pure_ok {A : Type} (m : M A) : pure m -> ok m (fun _ => True).
Proof. intros Hp h Hi. rewrite Hp. auto. Qed.

Lemma pure_ret {A : Type} (a : A) : pure (ret a).
Proof. intros h. reflexivity. Qed.

Lemma pure_bind {A B : Type} (m : M A) (k : A -> M B) :
  pure m -> (forall a, pure (k a)) -> pure (bind m k).
Proof.
  intros Hm Hk h. unfold bind. specialize (Hm h).
  destruct (m h) as [[a | e |] h1]; simpl in *; subst; auto. apply Hk.
Qed.

Lemma ok_bind_ret {A B : Type} (a : A) (k : A -> M B) (Q : B -> Prop) :
  ok (k a) Q -> ok (bind (ret a) k) Q.
Proof. intros H h Hi. exact (H h Hi). Qed.

Lemma deepEqual_pure fuel : forall a b, pure (deepEqual fuel a b).
Proof.
  induction fuel as [|fuel IH]; intros a b; cbn [deepEqual].
  - destruct (strictEq a b); intros h; reflexivity.
  - destruct (strictEq a b); [apply pure_ret|].
    apply pure_bind; [intros h; reflexivity | intros h].
    destruct (objectOf h a) as [[xs ex | fa]|], (objectOf h b) as [[ys ey | fb]|];
      try apply pure_ret.
    + destruct (negb _); [apply pure_ret|].
      generalize ys. induction xs as [|x xs IHxs]; intros [|y ys'];
        try apply pure_ret.
      apply pure_bind; [apply IH | intros e].
      destruct e; [apply IHxs | apply pure_ret].
    + destruct (negb _); [apply pure_ret|].
      match goal with
      | |- pure (?loop ?ks) => generalize ks
      end.
      induction l as [|key keys IHk]; [apply pure_ret|].
      destruct (negb _); [apply pure_ret|].
      apply pure_bind; [apply IH | intros e].
      destruct e; [apply IHk | apply pure_ret].
    + destruct (negb _); [apply pure_ret|].
      match goal with
      | |- pure (?loop ?ks) => generalize ks
      end.
      induction l as [|key keys IHk]; [apply pure_ret|].
      destruct (negb _); [apply pure_ret|].
      apply pure_bind; [apply IH | intros e].
      destruct e; [apply IHk | apply pure_ret].
    + destruct (negb _); [apply pure_ret|].
      match goal with
      | |- pure (?loop ?ks) => generalize ks
      end.
      induction l as [|key keys IHk]; [apply pure_ret|].
      destruct (negb _); [apply pure_ret|].
      apply pure_bind; [apply IH | intros e].
      destruct e; [apply IHk | apply pure_ret].
Qed.

Lemma deepClone_ok fuel : forall v, ok (deepClone fuel v) freshVal.
Proof.
  induction fuel as [|fuel IH]; intros v; destruct v as [ | | | | | l];
    cbn [deepClone]; try (apply ok_ret; exact I); try apply ok_outOfFuel.
  eapply ok_bind; [apply ok_readHeap | intros h Hi].
  destruct (h !! l) as [[elems extra | fields]|] eqn:Hl.
  - eapply ok_bind; [apply ok_mapM; intros x _; apply IH | intros items Hitems].
    apply ok_alloc. split; [exact Hitems | constructor].
  - eapply ok_bind.
    + apply (ok_mapM _ _ (fun kv => freshVal (snd kv))). intros kv _.
      eapply ok_bind; [apply IH | intros v Hv]. now apply ok_ret.
    + intros cloned Hcloned. now apply ok_alloc.
  - apply ok_ret. simpl. destruct Hi as (Hlen & _ & _).
    apply lookup_ge_None in Hl. lia.
Qed.

Lemma unionFilter_fresh stringify h seen combined :
  Forall freshVal combined -> Forall freshVal (unionFilter stringify h seen combined).
Proof.
  revert seen. induction combined as [|x l IH]; intros seen Hf; simpl.
  - constructor.
  - inversion Hf; subst. destruct (includesStr seen _); [auto|].
    constructor; auto.
Qed.

Section MergeOwned.

Variable stringify : heap -> val -> string.

Lemma mergeArrays_ok fuel mergeTwo a b strategy :
  freshVal a -> freshVal b ->
  (forall x y, freshVal x -> freshVal y -> ok (mergeTwo x y) freshVal) ->
  ok (mergeArrays stringify fuel mergeTwo a b strategy) freshVal.
Proof.
  intros Ha Hb Hmerge. unfold mergeArrays.
  eapply ok_bind; [apply ok_readHeap | intros h Hi].
  pose proof (elemsOf_fresh h a Hi Ha) as Hxs.
  pose proof (elemsOf_fresh h b Hi Hb) as Hys.
  destruct (String.eqb strategy "concat").
  { apply ok_alloc. split; [now apply Forall_app | constructor]. }
  destruct (String.eqb strategy "union").
  { apply ok_alloc. split; [|constructor].
    apply unionFilter_fresh. now apply Forall_app. }
  destruct (String.eqb strategy "intersection").
  { eapply ok_bind.
    - apply (ok_foldM _ _ (Forall freshVal)); [|constructor].
      intros acc itemA HinA Hacc.
      eapply ok_bind.
      + apply (ok_foldM _ _ (fun _ => True)); [|exact I].
        intros hit itemB _ _. destruct hit; [now apply ok_ret|].
        apply pure_ok, deepEqual_pure.
      + intros found _. apply ok_ret. destruct found; [|exact Hacc].
        apply Forall_app. split; [exact Hacc|]. constructor; [|constructor].
        rewrite Forall_forall in Hxs. apply Hxs. now apply list_elem_of_In.
    - intros kept Hkept. apply ok_alloc. split; [exact Hkept | constructor]. }
  destruct (String.eqb strategy "replace").
  { apply ok_alloc. split; [exact Hys | constructor]. }
  destruct (String.eqb strategy "deep"); [|apply ok_throw].
  eapply ok_bind.
  - match goal with
    | |- ok (?loop _ _) _ =>
        assert (Hloop : forall l1 l2, Forall freshVal l1 -> Forall freshVal l2 ->
                                      ok (loop l1 l2) (Forall freshVal))
    end; [|apply Hloop; assumption].
    induction l1 as [|x l1 IHl]; intros l2 H1 H2.
    + destruct l2; [apply ok_ret; constructor|].
      apply ok_mapM. intros y _. apply deepClone_ok.
    + destruct l2 as [|y l2].
      * apply ok_mapM. intros y _. apply deepClone_ok.
      * inversion H1; inversion H2; subst.
        eapply ok_bind; [apply ok_readHeap | intros h1 Hi1].
        eapply ok_bind.
        { destruct (isPlain h1 x && isPlain h1 y);
            [now apply Hmerge | apply deepClone_ok]. }
        intros item Hitem.
        eapply ok_bind; [now apply IHl | intros items Hitems].
        apply ok_ret. now constructor.
  - intros result Hresult. apply ok_alloc. split; [exact Hresult | constructor].
Qed.

Lemma mergeEntries_ok merge r entries :
  (length h0 <= r)%nat -> freshProps entries ->
  (forall key t s, freshVal t -> freshVal s -> ok (merge key t s) freshVal) ->
  ok (mergeEntries merge r entries) (fun _ => True).
Proof.
  intros Hr Hentries Hmerge. unfold mergeEntries.
  apply (ok_foldM _ _ (fun _ => True)); [|exact I].
  intros [] kv Hin _.
  assert (Hkv : freshVal (snd kv)).
  { unfold freshProps in Hentries. rewrite Forall_forall in Hentries.
    apply Hentries. now apply list_elem_of_In. }
  assert (Hfields : forall h, Inv h ->
             freshProps match h !! r with Some (Obj fs) => fs | _ => [] end).
  { intros h (_ & _ & Hnew). destruct (h !! r) as [[|fs]|] eqn:Hlk; try constructor.
    exact (Hnew r _ Hr Hlk). }
  eapply ok_bind; [apply ok_readHeap | intros h Hi].
  eapply ok_bind.
  - destruct (getProp _ (fst kv)) as [targetValue|] eqn:Hg.
    + apply Hmerge; [|exact Hkv].
      eapply freshProps_getProp; [apply (Hfields h Hi) | exact Hg].
    + apply ok_ret. exact Hkv.
  - intros v Hv.
    eapply ok_bind; [apply ok_readHeap | intros h1 Hi1].
    apply ok_store; [exact Hr|]. simpl.
    apply freshProps_setProp; [apply (Hfields h1 Hi1) | exact Hv].
Qed.

Lemma deepMergeTwo_ok fuel :
  forall target source arrayStrategy,
    freshVal target -> freshVal source ->
    ok (deepMergeTwo stringify fuel target source arrayStrategy) freshVal.
Proof.
  induction fuel as [|fuel IH]; intros target source arrayStrategy Ht Hs;
    cbn [deepMergeTwo]; [apply ok_outOfFuel|].
  destruct (isNullish source); [now apply ok_ret|].
  destruct (isNullish target); [apply deepClone_ok|].
  eapply ok_bind; [apply ok_readHeap | intros h Hi].
  destruct (negb _); [apply deepClone_ok|].
  destruct (String.eqb _ "array").
  { apply mergeArrays_ok; auto. }
  destruct (String.eqb _ "object"); [|apply deepClone_ok].
  eapply ok_bind; [apply deepClone_ok | intros result Hresult].
  eapply ok_bind; [apply deepClone_ok | intros sourceClone Hclone].
  eapply ok_bind; [apply ok_readHeap | intros h1 Hi1].
  destruct result as [ | | | | | r]; try (now apply ok_ret).
  eapply ok_bind; [|intros _ _; now apply ok_ret].
  apply mergeEntries_ok; [exact Hresult | now apply fieldsOf_fresh | auto].
Qed.

Lemma deepMergeRecursive_ok fuel :
  forall target source options path depth,
    callbackOwns options ->
    freshVal target -> freshVal source ->
    ok (deepMergeRecursive stringify fuel target source options path depth) freshVal.
Proof.
  induction fuel as [|fuel IH]; intros target source options path depth Hc Ht Hs;
    cbn [deepMergeRecursive]; [apply ok_outOfFuel|].
  destruct (maxDepth options <? depth); [apply ok_throw|].
  destruct (isNullish source); [now apply ok_ret|].
  destruct (isNullish target); [apply deepClone_ok|].
  eapply ok_bind.
  { unfold callbackOwns in Hc. destruct (customMerge options) as [f|].
    - now apply Hc.
    - apply (ok_ret VUndefined freshVal). exact I. }
  intros customResult Hcustom.
  destruct customResult; try (now apply ok_ret).
  eapply ok_bind; [apply ok_readHeap | intros h Hi].
  destruct (negb (String.eqb _ _)).
  { destruct (String.eqb _ "target"); [apply deepClone_ok|].
    destruct (String.eqb _ "source"); [apply deepClone_ok|].
    destruct (String.eqb _ "throw"); [apply ok_throw|].
    destruct (String.eqb _ "priority"); [|apply deepClone_ok].
    destruct (negb _); apply deepClone_ok. }
  destruct (String.eqb _ "array").
  { apply mergeArrays_ok; auto. intros x y Hx Hy. now apply deepMergeTwo_ok. }
  destruct (String.eqb _ "object").
  { destruct (String.eqb _ "shallow").
    - apply ok_alloc. simpl.
      pose proof (fieldsOf_fresh h source Hi Hs) as Hfs.
      pose proof (fieldsOf_fresh h target Hi Ht) as Hft.
      revert Hft. generalize (fieldsOf h target).
      induction Hfs as [|kv l Hkv Hl IHl]; intros acc Hacc; simpl; [exact Hacc|].
      apply IHl. now apply freshProps_setProp.
    - eapply ok_bind; [apply deepClone_ok | intros result Hresult].
      eapply ok_bind; [apply deepClone_ok | intros sourceClone Hclone].
      eapply ok_bind; [apply ok_readHeap | intros h1 Hi1].
      destruct result as [ | | | | | r]; try (now apply ok_ret).
      eapply ok_bind; [|intros _ _; now apply ok_ret].
      apply mergeEntries_ok; [exact Hresult | now apply fieldsOf_fresh |].
      intros key t s Ht' Hs'. now apply IH. }
  destruct (negb _); [|now apply ok_ret].
  destruct (String.eqb _ "target"); [now apply ok_ret|].
  destruct (String.eqb _ "source"); [now apply ok_ret|].
  destruct (String.eqb _ "throw"); [apply ok_throw|].
  destruct (String.eqb _ "priority"); [|now apply ok_ret].
  destruct (negb _); now apply ok_ret.
Qed.

Lemma deepMerge_ok fuel target source options :
  callbackOwns options ->
  ok (deepMerge stringify fuel target source options) freshVal.
Proof.
  intros Hc. unfold deepMerge.
  eapply ok_bind; [apply deepClone_ok | intros t Ht].
  eapply ok_bind; [apply deepClone_ok | intros s Hs].
  now apply deepMergeRecursive_ok.
Qed.

End MergeOwned.

End Owned.

Lemma preserves_unchanged h h' v : preserves h h' -> unchanged h h' v.
Proof. intros Hp fuel s. now apply snapshot_preserved. Qed.

Lemma Inv_preserves h0 h : Inv h0 h -> preserves h0 h.
Proof.
  intros (_ & Hold & _) l o Hl. rewrite Hold; [exact Hl|].
  now apply lookup_lt_Some in Hl.
Qed.

(** C9.  Merge, compare and validate leave their arguments as they were.
    Whatever the outcome of the call (a result, an exception, fuel running
    out), every object of the caller's store is still there unchanged, so
    both arguments read the same before and after; and what [deepMerge]
    returns is freshly built: a primitive or an object allocated by the
    call, in a region that holds no reference to any object of the caller.
    A [customMerge] callback, which is the caller's code, is held to the
    same discipline. *)
Theorem engines_leave_arguments_alone
  (stringify display : heap -> val -> string)
  (regexTest regexTestI : string -> string -> bool)
  (urlParses dateParses : string -> bool)
  (fuel : nat) (h : heap) (a b : val) (options : JsonMergeOptions)
  (Hcallback : callbackOwns h options) :
  (let r := deepMerge stringify fuel a b options h in
   preserves h (snd r) /\ unchanged h (snd r) a /\ unchanged h (snd r) b /\
   forall v, fst r = Returns v -> freshlyBuilt h (snd r) v) /\
  (let r := CompareStore.compareJson fuel a b h in
   preserves h (snd r) /\ unchanged h (snd r) a /\ unchanged h (snd r) b) /\
  (let r := ValidateStore.validateSchema stringify display regexTest regexTestI
              urlParses dateParses fuel a b h in
   preserves h (snd r) /\ unchanged h (snd r) a /\ unchanged h (snd r) b).
Proof.
  split; [|split].
  - destruct (deepMerge_ok h stringify fuel a b options Hcallback h (Inv_start h))
      as [Hinv Hres].
    pose proof (Inv_preserves _ _ Hinv) as Hp. cbv zeta.
    repeat split; try (now apply preserves_unchanged); try exact Hp.
    + now apply Hres.
    + destruct Hinv as (_ & _ & Hnew). exact Hnew.
  - pose proof (compareJson_extends fuel a b h) as Hp. cbv zeta.
    repeat split; try (now apply preserves_unchanged); exact Hp.
  - pose proof (validateSchema_extends stringify display regexTest regexTestI
                  urlParses dateParses fuel a b h) as Hp. cbv zeta.
    repeat split; try (now apply preserves_unchanged); exact Hp.
Qed.

Lemma engines_leave_arguments_alone_witness :
  callbackOwns mergeInputs defaultMergeOptions /\
  let r := deepMerge noText 5 (VRef 0) (VRef 2) defaultMergeOptions mergeInputs in
  preserves mergeInputs (snd r) /\
  forall v, fst r = Returns v -> freshlyBuilt mergeInputs (snd r) v.
Proof.
  split; [exact I|].
  pose proof (engines_leave_arguments_alone noText noText noRegex noRegex noParse
                noParse 5 mergeInputs (VRef 0) (VRef 2) defaultMergeOptions I)
    as [(Hp & _ & _ & Hf) _].
  split; [exact Hp | exact Hf].
Defined.

Example deepMerge_builds_anew :
  let r := deepMerge noText 5 (VRef 0) (VRef 2) defaultMergeOptions mergeInputs in
  take 4 (snd r) = mergeInputs /\
  option_map (fun v => snapshot 5 (snd r) v) (match fst r with Returns v => Some v | _ => None end)
  = Some (Some (SObject [("a", SArray [SNumber 1; SNumber 2] [])])).
Proof. vm_compute. split; reflexivity. Qed.

End FrameFacts.

Module MergeFacts.

Import Store Merge FrameSpec MergeSpec.
Local Open Scope js_scope.




(** The failing input of C5: [mergeWithPriority({a: 1}, {a: 2})] is [{a: 2}]. *)
Example mergeWithPriority_one_two :
  returned (mergeWithPriority noText 3 [VRef 0; VRef 1]
              [Obj [("a", VNumber 1)]; Obj [("a", VNumber 2)]])
  = Some (SObject [("a", SNumber 2)]).
Proof. reflexivity. Qed.


(** The scenario of C8: [deepMerge({a: 1}, {a: 'x'}, {conflictStrategy:
    'throw'})] raises at path [a]. *)
Example deepMerge_one_x_throws :
  fst (deepMerge noText 2 (VRef 0) (VRef 1) throwOptions oneVsX)
  = Throws (JsonMergeError
              ("Type mismatch at path " +:+ dq +:+ "a" +:+ dq +:+ ": number vs string")
              "a" (VNumber 1) (VString "x")).
Proof. reflexivity. Qed.



End MergeFacts.

Module MutationFacts.

Import Store Path PathSpec.
Local Open Scope js_scope.


End MutationFacts.

(** ** Validate Engine: where the errors point *)

Module ValidatorPaths.

Import Validator ValidatorSpec ValidatorFacts.

Lemma prefix_refl (s : string) : String.prefix s s = true.
Proof.
  induction s as [|c s IH]; simpl; [reflexivity|].
  destruct (Ascii.ascii_dec c c); [exact IH | congruence].
Qed.

Lemma prefix_app (s t : string) : String.prefix s (s +:+ t) = true.
Proof.
  induction s as [|c s IH]; simpl; [now destruct t|].
  destruct (Ascii.ascii_dec c c); [exact IH | congruence].
Qed.

Lemma prefix_trans (s t u : string) :
  String.prefix s t = true -> String.prefix t u = true -> String.prefix s u = true.
Proof.
  revert t u. induction s as [|c s IH]; intros t u Hst Htu; simpl.
  - now destruct u.
  - destruct t as [|d t]; simpl in Hst; [discriminate|].
    destruct (Ascii.ascii_dec c d) as [->|]; [|discriminate].
    destruct u as [|e u]; simpl in Htu; [discriminate|].
    destruct (Ascii.ascii_dec d e) as [->|]; [|discriminate].
    simpl. destruct (Ascii.ascii_dec e e); [|congruence]. exact (IH t u Hst Htu).
Qed.

Section ErrorPaths.

Variable regexTest : string -> string -> bool.
Variable regexTestI : string -> string -> bool.
Variable urlParses : string -> bool.
Variable dateParses : string -> bool.

Lemma violation_path_extends_base schema json base e :
  Violation regexTest regexTestI urlParses dateParses schema json base e ->
  String.prefix base (path e) = true.
Proof.
  induction 1; cbn [path typeError minItemsError maxItemsError duplicateError
                    requiredError additionalError minPropertiesError
                    maxPropertiesError enumError constError formatError
                    patternError minimumError exclusiveMinimumError maximumError
                    exclusiveMaximumError multipleOfError minLengthError
                    maxLengthError createError];
    try apply prefix_refl;
    try (unfold indexPath, propPath; apply prefix_app).
  - eapply prefix_trans; [|eassumption]. unfold indexPath. apply prefix_app.
  - eapply prefix_trans; [|eassumption]. unfold propPath. apply prefix_app.
Qed.

(** X1.  Every error that [validateAgainstSchema(json, schema, basePath)]
    reports, at whatever depth, carries a path that starts with [basePath]:
    the base path of the node itself, or that path continued by [.prop] and
    [[i]] steps. *)
Theorem error_paths_extend_base (schema : JsonSchema) (json : JsonValue)
  (base : string) :
  forallb (fun e => String.prefix base (path e))
    (validateAgainstSchema regexTest regexTestI urlParses dateParses schema json base)
  = true.
Proof.
  apply forallb_forall. intros e He.
  apply violation_path_extends_base with (schema := schema) (json := json).
  now apply reported_violation.
Qed.

End ErrorPaths.

End ValidatorPaths.

(** ** Compare Engine: what [deepCompare] decides *)

Module CompareMore.

Import Compare JsonSpec CompareLoops.

Lemma json_induction (P : JsonValue -> Prop) :
  P JNull -> (forall b, P (JBool b)) -> (forall n, P (JNumber n)) ->
  (forall s, P (JString s)) ->
  (forall xs, Forall P xs -> P (JArray xs)) ->
  (forall fs, Forall (fun kv => P (snd kv)) fs -> P (JObject fs)) ->
  forall j, P j.
Proof.
  intros Hnull Hbool Hnum Hstr Harr Hobj.
  fix IH 1. intros [ | b | n | s | xs | fs].
  - exact Hnull.
  - apply Hbool.
  - apply Hnum.
  - apply Hstr.
  - apply Harr. induction xs as [|x xs IHxs]; constructor; [apply IH | exact IHxs].
  - apply Hobj. induction fs as [|[k x] fs IHfs]; constructor; [apply IH | exact IHfs].
Qed.

Lemma deepCompare_arrays xs ys path :
  deepCompare (JArray xs) (JArray ys) path =
  let '(eq, ds) := compareArraysLoop path xs ys 0 in
  (eq && (length xs =? length ys)%nat,
   ((if negb (length xs =? length ys)%nat then
       [mkDiff path "length-mismatch" (Some (JNumber (Z.of_nat (length xs))))
          (Some (JNumber (Z.of_nat (length ys)))) None]
     else []) ++ ds)%list).
Proof. reflexivity. Qed.

Lemma deepCompare_objects fs gs path :
  deepCompare (JObject fs) (JObject gs) path =
  let '(eq, ds) := compareObjectsLoop path gs fs in
  let onlyB := filter (fun kv => negb (hasProp fs (fst kv))) gs in
  (eq && (length onlyB =? 0)%nat,
   (ds ++ map (fun kv =>
            mkDiff (propertyPath path (fst kv)) "missing-in-a" None (Some (snd kv)) None)
          onlyB)%list).
Proof. reflexivity. Qed.


(** *** The boolean and the differences agree *)

Lemma agrees_pair (e e' : bool) (d d' : list JsonDifference) :
  agrees (e, d) -> agrees (e', d') -> agrees (e && e', (d ++ d')%list).
Proof.
  unfold agrees. simpl. intros [H1 H2] [H3 H4]. split.
  - intros H. apply andb_prop in H as [-> ->]. now rewrite H1, H3.
  - intros H. apply app_eq_nil in H as [-> ->]. now rewrite H2, H4.
Qed.

Lemma compareArraysLoop_agrees path l1 :
  Forall (fun x => forall b p, agrees (deepCompare x b p)) l1 ->
  forall l2 i, agrees (compareArraysLoop path l1 l2 i).
Proof.
  induction 1 as [|x r1 Hx _ IH]; intros [|y r2] i; cbn [compareArraysLoop].
  - split; reflexivity.
  - split; discriminate.
  - destruct (compareArraysLoop path r1 [] (S i)). split; discriminate.
  - specialize (Hx y (path +:+ "[" +:+ pretty i +:+ "]")).
    specialize (IH r2 (S i)).
    destruct (deepCompare x y _), (compareArraysLoop path r1 r2 (S i)).
    now apply agrees_pair.
Qed.

Lemma compareArraysLoop_length path l1 :
  forall l2 i, fst (compareArraysLoop path l1 l2 i) = true -> length l1 = length l2.
Proof.
  induction l1 as [|x r1 IH]; intros [|y r2] i; cbn [compareArraysLoop];
    try reflexivity; try discriminate.
  - destruct (compareArraysLoop path r1 [] (S i)). discriminate.
  - specialize (IH r2 (S i)).
    destruct (deepCompare x y _), (compareArraysLoop path r1 r2 (S i)).
    simpl in *. intros H. apply andb_prop in H as [_ ->]. f_equal. now apply IH.
Qed.

Lemma compareObjectsLoop_agrees path gs l1 :
  Forall (fun kv => forall b p, agrees (deepCompare (snd kv) b p)) l1 ->
  agrees (compareObjectsLoop path gs l1).
Proof.
  induction 1 as [|[key x] r1 Hx _ IH]; cbn [compareObjectsLoop].
  - split; reflexivity.
  - assert (Hhead : agrees
              match getProp gs key with
              | Some y => deepCompare x y (propertyPath path key)
              | None =>
                  (false,
                   [mkDiff (propertyPath path key) "missing-in-b" (Some x) None None])
              end).
    { destruct (getProp gs key); [apply Hx | split; discriminate]. }
    destruct (match getProp gs key with Some _ => _ | None => _ end),
      (compareObjectsLoop path gs r1).
    now apply agrees_pair.
Qed.

Lemma deepCompare_agrees a : forall b path, agrees (deepCompare a b path).
Proof.
  induction a as [ | x | n | s | xs IH | fs IH] using json_induction;
    intros b path;
    destruct b as [ | y | m | t | ys | gs];
    try (split; discriminate); try (split; reflexivity).
  - unfold agrees. simpl. destruct (Bool.eqb x y); split; try reflexivity; discriminate.
  - unfold agrees. simpl. destruct (n =? m); split; try reflexivity; discriminate.
  - unfold agrees. simpl. destruct (String.eqb s t); split; try reflexivity;
      discriminate.
  - rewrite deepCompare_arrays.
    pose proof (compareArraysLoop_agrees path xs IH ys 0) as Hloop.
    pose proof (compareArraysLoop_length path xs ys 0) as Hlen.
    destruct (compareArraysLoop path xs ys 0) as [eq ds]. unfold agrees in *.
    simpl in *. split.
    + intros H. apply andb_prop in H as [-> Hl]. rewrite Hl. simpl. now apply Hloop.
    + intros H. apply app_eq_nil in H as [Hl ->].
      destruct (length xs =? length ys)%nat; [|discriminate].
      rewrite (proj2 Hloop eq_refl). reflexivity.
  - rewrite deepCompare_objects.
    pose proof (compareObjectsLoop_agrees path gs fs IH) as Hloop.
    destruct (compareObjectsLoop path gs fs) as [eq ds]. unfold agrees in *.
    simpl in *. split.
    + intros H. apply andb_prop in H as [-> Hl]. rewrite (proj1 Hloop eq_refl).
      apply Nat.eqb_eq, length_zero_iff_nil in Hl. now rewrite Hl.
    + intros H. apply app_eq_nil in H as [-> Hl].
      apply map_eq_nil in Hl. rewrite Hl, (proj2 Hloop eq_refl). reflexivity.
Qed.


(** *** [deepEqual] is equality up to key order *)

Lemma getProp_In {A : Type} (fs : list (string * A)) k x :
  getProp fs k = Some x -> In (k, x) fs.
Proof.
  induction fs as [|[k' w] fs IH]; simpl; [discriminate|].
  destruct (String.eqb_spec k' k) as [->|Hne].
  - intros [= ->]. now left.
  - intros H. right. now apply IH.
Qed.

Lemma hasProp_In {A : Type} (fs : list (string * A)) k x :
  In (k, x) fs -> hasProp fs k = true.
Proof.
  unfold hasProp. induction fs as [|[k' w] fs IH]; simpl; [intros []|].
  intros [[= -> ->] | Hin].
  - now rewrite String.eqb_refl.
  - destruct (String.eqb k' k); [reflexivity | now apply IH].
Qed.

Lemma In_getProp {A : Type} (fs : list (string * A)) k x :
  NoDup (objectKeys fs) -> In (k, x) fs -> getProp fs k = Some x.
Proof.
  unfold objectKeys. induction fs as [|[k' w] fs IH]; simpl; [intros _ []|].
  intros Hnd [[= -> ->] | Hin].
  - now rewrite String.eqb_refl.
  - apply NoDup_cons in Hnd as [Hnotin Hnd].
    destruct (String.eqb_spec k' k) as [->|Hne]; [|now apply IH].
    exfalso. apply Hnotin. apply list_elem_of_In, in_map_iff. now exists (k, x).
Qed.

Lemma hasProp_getProp {A : Type} (fs : list (string * A)) k :
  hasProp fs k = true -> exists x, getProp fs k = Some x.
Proof. unfold hasProp. destruct (getProp fs k) as [x|]; [eauto | discriminate]. Qed.

Lemma compareArraysLoop_same path l1 :
  Forall decides l1 ->
  forall l2 i, fst (compareArraysLoop path l1 l2 i) = true <-> Forall2 sameJson l1 l2.
Proof.
  induction 1 as [|x r1 Hx _ IH]; intros [|y r2] i; cbn [compareArraysLoop].
  - split; [constructor | reflexivity].
  - split; [discriminate | intros H; inversion H].
  - destruct (compareArraysLoop path r1 [] (S i)).
    split; [discriminate | intros H; inversion H].
  - specialize (Hx y (path +:+ "[" +:+ pretty i +:+ "]")).
    specialize (IH r2 (S i)).
    destruct (deepCompare x y _) as [e d],
      (compareArraysLoop path r1 r2 (S i)) as [e' d'].
    simpl in *. split.
    + intros H. apply andb_prop in H as [-> ->]. constructor; [apply Hx | apply IH];
        reflexivity.
    + intros H. inversion H; subst.
      rewrite (proj2 Hx), (proj2 IH) by assumption. reflexivity.
Qed.

Lemma compareObjectsLoop_same path gs l1 :
  Forall (fun kv => decides (snd kv)) l1 ->
  fst (compareObjectsLoop path gs l1) = true <->
  forall k x, In (k, x) l1 -> exists y, getProp gs k = Some y /\ sameJson x y.
Proof.
  induction 1 as [|[key x] r1 Hx _ IH]; cbn [compareObjectsLoop].
  - split; [intros _ k x [] | reflexivity].
  - cbn [snd] in Hx.
    destruct (getProp gs key) as [y|] eqn:Hg.
    + specialize (Hx y (propertyPath path key)).
      destruct (deepCompare x y _) as [e d],
        (compareObjectsLoop path gs r1) as [e' d'].
      simpl in *. split.
      * intros H. apply andb_prop in H as [-> ->].
        intros k x' [[= <- <-] | Hin].
        -- exists y. split; [exact Hg | now apply Hx].
        -- now apply IH.
      * intros H.
        destruct (H key x (or_introl eq_refl)) as (y' & Hy' & Hsame).
        rewrite Hg in Hy'. injection Hy' as <-.
        rewrite (proj2 Hx Hsame). simpl. apply IH. intros k x' Hin.
        apply H. now right.
    + destruct (compareObjectsLoop path gs r1) as [e' d']. simpl. split.
      * discriminate.
      * intros H. destruct (H key x (or_introl eq_refl)) as (y' & Hy' & _).
        congruence.
Qed.

Lemma onlyB_empty (fs gs : list (string * JsonValue)) :
  (length (filter (fun kv => negb (hasProp fs (fst kv))) gs) =? 0)%nat = true <->
  forall k y, In (k, y) gs -> hasProp fs k = true.
Proof.
  rewrite Nat.eqb_eq, length_zero_iff_nil. induction gs as [|[k y] gs IH].
  - split; [intros _ k y [] | reflexivity].
  - rewrite filter_cons. cbn [fst]. destruct (hasProp fs k) eqn:Hk; cbn [negb].
    + destruct (decide (false = true)) as [|_]; [discriminate|].
      rewrite IH. split.
      * intros H k' y' [[= <- <-] | Hin]; [exact Hk | eauto].
      * intros H k' y' Hin. apply (H k' y'). now right.
    + split.
      * destruct (decide (true = true)); [discriminate | congruence].
      * intros H. specialize (H k y (or_introl eq_refl)). congruence.
Qed.

Lemma deepCompare_decides a : distinctKeys a -> decides a.
Proof.
  induction a as [ | x | n | s | xs IH | fs IH] using json_induction;
    intros Hdk b path;
    destruct b as [ | y | m | t | ys | gs];
    try (split; [discriminate | intros H; inversion H]).
  - split; [constructor | reflexivity].
  - simpl. destruct (Bool.eqb_spec x y) as [->|Hne]; simpl.
    + split; [constructor | reflexivity].
    + split; [discriminate | intros H; inversion H; congruence].
  - simpl. destruct (Z.eqb_spec n m) as [->|Hne]; simpl.
    + split; [constructor | reflexivity].
    + split; [discriminate | intros H; inversion H; congruence].
  - simpl. destruct (String.eqb_spec s t) as [->|Hne]; simpl.
    + split; [constructor | reflexivity].
    + split; [discriminate | intros H; inversion H; congruence].
  - rewrite deepCompare_arrays. inversion Hdk as [ | | | | xs' Hxs | ]; subst.
    assert (Hall : Forall decides xs).
    { rewrite Forall_forall in *. intros x Hx. apply IH; [exact Hx | now apply Hxs]. }
    pose proof (compareArraysLoop_same path xs Hall ys 0) as Hloop.
    destruct (compareArraysLoop path xs ys 0) as [eq ds]. simpl in *. split.
    + intros H. apply andb_prop in H as [-> _]. constructor. now apply Hloop.
    + intros H. inversion H; subst.
      rewrite (proj2 Hloop) by assumption.
      match goal with Hf : Forall2 _ _ _ |- _ => apply Forall2_length in Hf as -> end.
      now rewrite Nat.eqb_refl.
  - rewrite deepCompare_objects. inversion Hdk as [ | | | | | fs' Hnd Hfs]; subst.
    assert (Hall : Forall (fun kv => decides (snd kv)) fs).
    { rewrite Forall_forall in *. intros kv Hkv. apply IH; [exact Hkv | now apply Hfs]. }
    pose proof (compareObjectsLoop_same path gs fs Hall) as Hloop.
    pose proof (onlyB_empty fs gs) as Honly.
    destruct (compareObjectsLoop path gs fs) as [eq ds]. simpl in *. split.
    + intros H. apply andb_prop in H as [-> Hb].
      pose proof (proj1 Hloop eq_refl) as Hvals.
      pose proof (proj1 Honly Hb) as Hkeys.
      constructor.
      * intros k. destruct (hasProp fs k) eqn:Hk.
        -- apply hasProp_getProp in Hk as [x Hx]. apply getProp_In in Hx.
           destruct (Hvals k x Hx) as (y & Hy & _).
           unfold hasProp. now rewrite Hy.
        -- destruct (hasProp gs k) eqn:Hgk; [|reflexivity].
           apply hasProp_getProp in Hgk as [y Hy]. apply getProp_In in Hy.
           rewrite (Hkeys k y Hy) in Hk. discriminate.
      * intros k x y Hx Hy. apply getProp_In in Hx.
        destruct (Hvals k x Hx) as (y' & Hy' & Hsame). congruence.
    + intros H. inversion H as [ | | | | | fs' gs' Hkeys Hvals]; subst.
      assert (Hb : (length (filter (fun kv => negb (hasProp fs (fst kv))) gs) =? 0)%nat
                   = true).
      { apply Honly. intros k y Hin. rewrite Hkeys. eapply hasProp_In; eauto. }
      rewrite Hb, andb_true_r. apply Hloop. intros k x Hin.
      pose proof (In_getProp fs k x Hnd Hin) as Hx.
      assert (Hgk : hasProp gs k = true).
      { rewrite <- Hkeys. eapply hasProp_In; eauto. }
      apply hasProp_getProp in Hgk as [y Hy]. exists y. split; [exact Hy|]. eauto.
Qed.


Lemma sameJson_refl a : sameJson a a.
Proof.
  induction a as [ | x | n | s | xs IH | fs IH] using json_induction;
    try constructor.
  - induction IH; constructor; assumption.
  - reflexivity.
  - intros k x y Hx Hy. rewrite Hx in Hy. injection Hy as <-.
    apply getProp_In in Hx. rewrite Forall_forall in IH.
    exact (IH (k, x) ltac:(now apply list_elem_of_In)).
Qed.

Lemma sameJson_sym a : forall b, sameJson a b -> sameJson b a.
Proof.
  induction a as [ | x | n | s | xs IH | fs IH] using json_induction;
    intros b H; inversion H; subst; try constructor.
  - match goal with Hf : Forall2 _ _ _ |- _ => rename Hf into H2 end.
    clear H. induction H2 as [|x y xs ys Hxy _ IH2]; constructor.
    + apply Forall_cons in IH as [Hx _]. now apply Hx.
    + apply Forall_cons in IH as [_ Hxs]. now apply IH2.
  - intros k. symmetry. auto.
  - intros k y x Hy Hx.
    match goal with Hv : forall k x y, getProp fs k = Some x -> _ |- _ =>
      pose proof (Hv k x y Hx Hy) as Hxy end.
    apply getProp_In in Hx. rewrite Forall_forall in IH.
    exact (IH (k, x) ltac:(now apply list_elem_of_In) y Hxy).
Qed.

Lemma Forall2_trans_under {A : Type} (R : A -> A -> Prop) (xs : list A) :
  Forall (fun a => forall b c, R a b -> R b c -> R a c) xs ->
  forall ys zs, Forall2 R xs ys -> Forall2 R ys zs -> Forall2 R xs zs.
Proof.
  induction 1 as [|x xs Hx _ IH]; intros ys zs H1 H2;
    inversion H1; subst; inversion H2; subst; constructor; eauto.
Qed.

Lemma sameJson_trans a : forall b c, sameJson a b -> sameJson b c -> sameJson a c.
Proof.
  induction a as [ | x | n | s | xs IH | fs IH] using json_induction;
    intros b c Hab Hbc; inversion Hab; subst; inversion Hbc; subst;
    try constructor.
  - eapply Forall2_trans_under; eauto.
  - intros k. etransitivity; eauto.
  - intros k x z Hx Hz.
    match goal with
    | Hk : forall k, hasProp fs k = hasProp ?gs k |- _ =>
        assert (Hg : hasProp gs k = true)
          by (rewrite <- Hk; unfold hasProp; now rewrite Hx)
    end.
    apply hasProp_getProp in Hg as [y Hy].
    pose proof (getProp_In _ _ _ Hx) as Hin. rewrite Forall_forall in IH.
    eapply (IH (k, x) ltac:(now apply list_elem_of_In)); eauto.
Qed.

Lemma deepEqual_same_iff (a b : JsonValue) :
  distinctKeys a -> (deepEqual a b = true <-> sameJson a b).
Proof. intros Hdk. unfold deepEqual. now apply deepCompare_decides. Qed.


Lemma xyObject_distinctKeys : distinctKeys xyObject /\ distinctKeys yxObject.
Proof.
  split; constructor;
    repeat (first [ apply NoDup_nil_2
                  | apply NoDup_cons_2; [rewrite list_elem_of_In; simpl; intuition discriminate|]
                  | constructor ]).
Qed.




(** X4.  [deepCompare] returns [true] exactly when it has recorded no
    difference, at every depth, so that [equal] and [differences] of a
    comparison never contradict each other. *)
Theorem deepCompare_equal_iff_no_difference (a b : JsonValue) (path : string) :
  fst (deepCompare a b path) = true <-> snd (deepCompare a b path) = [].
Proof. apply deepCompare_agrees. Qed.


(** *** Unordered comparison does not look at the order *)

Lemma matched_perm a : forall b b2, matched a b -> Permutation b b2 -> matched a b2.
Proof.
  intros b b2 H Hp. inversion H; subst.
  - apply Permutation_nil in Hp. subst. constructor.
  - econstructor; [|eassumption|eassumption].
    etransitivity; [symmetry; exact Hp | eassumption].
Qed.

Lemma perm_cons_cases (y z : JsonValue) (b' c : list JsonValue) :
  Permutation (y :: b') (z :: c) ->
  (z = y /\ Permutation b' c)
  \/ exists d, Permutation b' (z :: d) /\ Permutation c (y :: d).
Proof.
  intros Hp.
  assert (Hz : z ∈ y :: b') by (rewrite Hp; now left).
  apply elem_of_cons in Hz as [-> | Hz].
  - left. split; [reflexivity|]. eapply Permutation_cons_inv; eauto.
  - right. apply elem_of_Permutation in Hz as [d Hd]. exists d. split; [exact Hd|].
    rewrite Hd in Hp. rewrite (Permutation_swap z y d) in Hp.
    apply Permutation_cons_inv in Hp. now symmetry.
Qed.

(** One element of the pool may be replaced by an element that is the same. *)
Lemma matched_replace a : forall z y d,
  matched a (z :: d) -> sameJson z y -> matched a (y :: d).
Proof.
  induction a as [|u a IH]; intros z y d H Hzy; inversion H; subst.
  match goal with Hp : Permutation (z :: d) (?w :: ?e) |- _ =>
    symmetry in Hp; apply perm_cons_cases in Hp as [[-> Hp] | (f & Hp1 & Hp2)] end.
  - econstructor; [reflexivity | | ].
    + eapply sameJson_trans; eauto.
    + eapply matched_perm; eauto.
  - match goal with Hm : matched a _ |- _ =>
      pose proof (IH z y f (matched_perm _ _ _ Hm Hp1) Hzy) as Hm' end.
    econstructor; [| eassumption | exact Hm'].
    rewrite Hp2. apply Permutation_swap.
Qed.

(** When [x] was paired with some element, it can be paired with any
    element [z] that is the same as [x], and the rest still pairs off. *)
Lemma matched_exchange x a b z c :
  matched (x :: a) b -> sameJson x z -> Permutation b (z :: c) -> matched a c.
Proof.
  intros H Hxz Hp. inversion H; subst.
  match goal with Hb : Permutation b (?y :: ?b') |- _ =>
    rewrite Hp in Hb; symmetry in Hb;
    apply perm_cons_cases in Hb as [[-> Hb] | (d & Hb1 & Hb2)] end.
  - eapply matched_perm; eauto.
  - eapply matched_perm; [|symmetry; exact Hb2].
    eapply matched_replace; [eapply matched_perm; eauto|].
    eapply sameJson_trans; [apply sameJson_sym; exact Hxz | assumption].
Qed.

Lemma spliceFirstMatch_finds x pool y :
  In y pool -> deepEqual x y = true ->
  exists z pool',
    spliceFirstMatch x pool = Some pool' /\ deepEqual x z = true
    /\ Permutation pool (z :: pool').
Proof.
  induction pool as [|w pool IH]; intros Hin Hy; [destruct Hin|].
  cbn [spliceFirstMatch]. destruct (deepEqual x w) eqn:Hw.
  - exists w, pool. auto.
  - destruct Hin as [-> | Hin]; [congruence|].
    destruct (IH Hin Hy) as (z & pool' & -> & Hz & Hp).
    exists z, (w :: pool'). split; [reflexivity|]. split; [exact Hz|].
    rewrite Hp. apply Permutation_swap.
Qed.





End CompareMore.

(** ** Path Engine: reads, deletions and writes at one member *)

Module PathMore.

Import Store Path PathOps PathSpec PathWrites PathFacts RoundTrip.
Local Open Scope js_scope.

(** *** Reads never raise *)

Lemma parseLoop_ends expression chars :
  forall prev segments current inBrackets quote,
    parseLoop expression chars prev segments current inBrackets quote <> OutOfFuel.
Proof.
  induction chars as [|char rest IH]; intros prev segments current inBrackets quote;
    cbn [parseLoop].
  - destruct inBrackets; discriminate.
  - repeat match goal with
           | |- context [if ?c then _ else _] => destruct c
           | |- context [match ?q with Some _ => _ | None => _ end] => destruct q
           end; try apply IH; discriminate.
Qed.

Lemma parsePathExpression_ends expression : parsePathExpression expression <> OutOfFuel.
Proof.
  unfold parsePathExpression. destruct (String.eqb expression "");
    [discriminate | apply parseLoop_ends].
Qed.

Lemma traverse_read_ends expression segments rest :
  forall i c h, fst (traverse false expression segments i rest c h) <> OutOfFuel.
Proof.
  induction rest as [|segment rest IH]; intros i c h; [discriminate|].
  cbn [traverse]. unfold bind, ret, throw, readHeap.
  cbn [negb andb].
  destruct (isNullish (current c)); [discriminate|].
  cbn [current cparent parentKey cexists].
  destruct (current c) as [ | | b | n | s | l]; try discriminate.
  destruct (h !! l) as [[elems extra | fields]|]; [| |discriminate].
  - destruct segment as [s | n]; [discriminate|].
    destruct (if n <? 0 then _ else _); [discriminate|]. apply IH.
  - destruct segment as [s | n]; [|discriminate].
    destruct (hasProp fields s); [apply IH|].
    destruct rest; [apply IH | discriminate].
Qed.

Lemma jsonPath_read_ends json expression h :
  fst (jsonPath json expression noOptions h) <> OutOfFuel.
Proof.
  unfold jsonPath, bind, liftOutcome.
  pose proof (parsePathExpression_ends expression) as Hp.
  destruct (parsePathExpression expression) as [segments | e |];
    [|discriminate | congruence].
  destruct segments as [|s segments]; [discriminate|].
  pose proof (traverse_read_ends expression (s :: segments) (s :: segments) 0
                (mkCursor json VNull (Key "") true) h) as Ht.
  destruct (traverse _ _ _ _ _ _ h) as [[c | e |] h']; simpl in Ht;
    [|discriminate | congruence].
  cbn. destruct (cexists c); discriminate.
Qed.

(** X6.  [getValue] and [hasPath] return for every value and every
    path, well formed or not, and leave the store as it is: whatever
    [jsonPath] raises is turned into [undefined], respectively [false]. *)
Theorem reads_always_return (json : val) (path : string) (h : heap) :
  (exists v, getValue json path h = (Returns v, h))
  /\ (exists b, hasPath json path h = (Returns b, h)).
Proof.
  pose proof (jsonPath_read_ends json path h) as Hends.
  pose proof (jsonPath_readonly json path h) as Hread.
  unfold getValue, hasPath, tryCatch, bind, ret.
  destruct (jsonPath json path noOptions h) as [[r | e |] h1]; simpl in *; subst;
    [| |congruence]; split; eauto.
Qed.


(** *** Reading one member of a container that the path reaches *)

Ltac read_step :=
  cbn [traverse];
  unfold bind, ret, readHeap, throw;
  cbn [isNullish isNull negb andb current cparent parentKey cexists];
  cbn beta iota.

(** The run of [jsonPath] in read mode once the path is parsed. *)
Lemma jsonPath_read_run json path segments h :
  parsePathExpression path = Returns segments -> segments <> [] ->
  jsonPath json path noOptions h =
  match traverse false path segments 0 segments (mkCursor json VNull (Key "") true) h with
  | (Returns c, h') =>
      (Returns (if cexists c
                then mkPathResult (current c) (cparent c) (parentKey c) true json
                else mkPathResult VUndefined (cparent c) (parentKey c) false json), h')
  | (Throws e, h') => (Throws e, h')
  | (OutOfFuel, h') => (OutOfFuel, h')
  end.
Proof.
  intros Hparse Hne. unfold jsonPath, bind, liftOutcome. rewrite Hparse.
  destruct segments as [|s segments]; [congruence|].
  unfold noOptions. cbn [create deleteFlag newValue].
  destruct (traverse _ _ _ _ _ _ h) as [[c | e |] h']; try reflexivity.
  destruct (cexists c); reflexivity.
Qed.

Lemma app_last_nonempty {A : Type} (prefix : list A) (rest : list A) (x : A) :
  (prefix ++ x :: rest)%list <> [].
Proof. now destruct prefix. Qed.



(** X8.  When a path leads to an array and ends on an index [n],
    a negative [n] counts from the end.  Within the bounds [getValue]
    returns the element and [hasPath] answers [true]; outside them the
    error of [jsonPath] is swallowed: [getValue] returns [undefined] and
    [hasPath] answers [false]. *)
Theorem read_array_index (h : heap) (json : val) (path : string)
  (prefix : list Segment) (n : Z) (lp : loc) (elems : list val)
  (extra : list (string * val)) :
  parsePathExpression path = Returns (prefix ++ [Index n])%list ->
  resolves h json prefix (VRef lp) -> h !! lp = Some (Arr elems extra) ->
  let len := Z.of_nat (length elems) in
  let idx := if n <? 0 then len + n else n in
  if (0 <=? idx) && (idx <? len) then
    getValue json path h = (Returns (default VUndefined (elems !! Z.to_nat idx)), h)
    /\ hasPath json path h = (Returns true, h)
  else
    getValue json path h = (Returns VUndefined, h)
    /\ hasPath json path h = (Returns false, h).
Proof.
  intros Hparse Hres Ho len idx.
  unfold getValue, hasPath, tryCatch, bind.
  rewrite (jsonPath_read_run json path _ h Hparse (app_last_nonempty _ _ _)).
  destruct (walk_resolves false path (prefix ++ [Index n])%list prefix [Index n] 0 json
              VNull (Key "") true h (VRef lp) Hres) as (par' & key' & ->).
  read_step. rewrite Ho. fold len. fold idx.
  unfold arrayGet.
  destruct (Z.ltb_spec n 0) as [Hneg | Hpos]; subst idx.
  - destruct (Z.ltb_spec (len + n) 0) as [Hlow | Hin].
    + assert (H0 : (0 <=? len + n) = false) by lia. rewrite H0.
      cbn [andb orb]. split; reflexivity.
    + assert (H0 : (0 <=? len + n) = true) by lia.
      assert (H1 : (len + n <? len) = true) by lia.
      assert (H2 : (len <=? len + n) = false) by lia.
      rewrite H0, H1, H2. cbn [andb orb]. split; reflexivity.
  - assert (H0 : (0 <=? n) = true) by lia. rewrite H0. cbn [andb].
    assert (Hn : (n <? 0) = false) by lia. rewrite ?Hn.
    destruct (Z.ltb_spec n len) as [Hin | Hout].
    + assert (H2 : (len <=? n) = false) by lia. rewrite H2. split; reflexivity.
    + assert (H2 : (len <=? n) = true) by lia. rewrite H2. split; reflexivity.
Qed.

Lemma read_array_index_witness :
  getValue (VRef 0) "[-1]" oneTwoThree = (Returns (VNumber 3), oneTwoThree)
  /\ hasPath (VRef 0) "[-1]" oneTwoThree = (Returns true, oneTwoThree).
Proof.
  exact (read_array_index oneTwoThree (VRef 0) "[-1]" [] (-1) 0%nat
           [VNumber 1; VNumber 2; VNumber 3] [] eq_refl eq_refl eq_refl).
Defined.

(** X9.  A read whose path asks an object for an index, or an array
    for a key, is swallowed as well, wherever on the path this happens:
    [getValue] returns [undefined] and [hasPath] answers [false]. *)
Theorem read_wrong_kind (h : heap) (json : val) (path : string)
  (prefix rest : list Segment) (seg : Segment) (lp : loc) (op : object) :
  parsePathExpression path = Returns (prefix ++ seg :: rest)%list ->
  resolves h json prefix (VRef lp) -> h !! lp = Some op ->
  ~ compatible op seg ->
  getValue json path h = (Returns VUndefined, h)
  /\ hasPath json path h = (Returns false, h).
Proof.
  intros Hparse Hres Ho Hkind.
  unfold getValue, hasPath, tryCatch, bind.
  rewrite (jsonPath_read_run json path _ h Hparse (app_last_nonempty _ _ _)).
  destruct (walk_resolves false path (prefix ++ seg :: rest)%list prefix (seg :: rest)
              0 json VNull (Key "") true h (VRef lp) Hres) as (par' & key' & ->).
  read_step. rewrite Ho.
  destruct op as [elems extra | fields], seg as [s | n]; cbn [compatible] in Hkind;
    try tauto; split; reflexivity.
Qed.

Lemma read_wrong_kind_witness :
  getValue (VRef 0) "[0].b" aIsOne = (Returns VUndefined, aIsOne)
  /\ hasPath (VRef 0) "[0].b" aIsOne = (Returns false, aIsOne).
Proof.
  exact (read_wrong_kind aIsOne (VRef 0) "[0].b" [] [Key "b"] (Index 0) 0%nat
           (Obj [("a", VNumber 1)]) eq_refl eq_refl eq_refl (fun H => H)).
Defined.


(** *** Deleting one member *)

Lemma getProp_deleteProp_ne {A : Type} (fields : list (string * A)) s k :
  k <> s -> getProp (deleteProp fields s) k = getProp fields k.
Proof.
  intros Hne. induction fields as [|[k' w] fields IH]; simpl; [reflexivity|].
  destruct (String.eqb_spec k' s) as [->|Hs].
  - destruct (String.eqb_spec s k); [congruence | reflexivity].
  - simpl. now rewrite IH.
Qed.

Lemma getProp_not_key {A : Type} (fields : list (string * A)) s :
  s ∉ objectKeys fields -> getProp fields s = None.
Proof.
  unfold objectKeys. induction fields as [|[k w] fields IH]; simpl; [reflexivity|].
  intros Hnot. apply not_elem_of_cons in Hnot as [Hne Hnot].
  destruct (String.eqb_spec k s); [congruence | now apply IH].
Qed.

Lemma getProp_deleteProp_eq {A : Type} (fields : list (string * A)) s :
  NoDup (objectKeys fields) -> getProp (deleteProp fields s) s = None.
Proof.
  unfold objectKeys. induction fields as [|[k w] fields IH]; simpl; [reflexivity|].
  intros Hnd. apply NoDup_cons in Hnd as [Hnot Hnd].
  destruct (String.eqb_spec k s) as [->|Hne].
  - now apply getProp_not_key.
  - simpl. destruct (String.eqb_spec k s); [congruence | now apply IH].
Qed.

Lemma deleteValue_at_key (h : heap) (json : val) (path : string)
  (prefix : list Segment) (s : string) (lp : loc) (fields : list (string * val)) :
  parsePathExpression path = Returns (prefix ++ [Key s])%list ->
  resolves h json prefix (VRef lp) -> h !! lp = Some (Obj fields) ->
  deleteValue json path h = (Returns json, <[lp := Obj (deleteProp fields s)]> h).
Proof.
  intros Hparse Hres Ho.
  unfold deleteValue, jsonPath, bind, liftOutcome. rewrite Hparse.
  destruct (prefix ++ [Key s])%list as [|s0 segs] eqn:Hsegs; [now destruct prefix|].
  rewrite <- Hsegs. cbn [create deleteFlag newValue].
  destruct (walk_resolves false path (prefix ++ [Key s])%list prefix [Key s] 0 json
              VNull (Key "") true h (VRef lp) Hres) as (par' & key' & ->).
  read_step. rewrite Ho. unfold hasProp.
  destruct (getProp fields s) as [x|]; cbn [cexists cparent parentKey isNull negb];
    unfold deleteMember, bind, readHeap, store, ret; cbn beta iota;
    rewrite Ho; reflexivity.
Qed.

(** X10.  Deleting a key of an object that the path leads to removes
    that property from the object itself, in place, and returns the
    argument; every other key keeps its value, the deleted key is gone, and
    deleting a key that the object does not have changes nothing. *)
Theorem delete_object_key (h : heap) (json : val) (path : string)
  (prefix : list Segment) (s : string) (lp : loc) (fields : list (string * val)) :
  parsePathExpression path = Returns (prefix ++ [Key s])%list ->
  resolves h json prefix (VRef lp) -> h !! lp = Some (Obj fields) ->
  deleteValue json path h = (Returns json, <[lp := Obj (deleteProp fields s)]> h)
  /\ (forall k, k <> s -> getProp (deleteProp fields s) k = getProp fields k)
  /\ (NoDup (objectKeys fields) -> getProp (deleteProp fields s) s = None)
  /\ (getProp fields s = None -> <[lp := Obj (deleteProp fields s)]> h = h).
Proof.
  intros Hparse Hres Ho. split; [|split; [|split]].
  - now apply deleteValue_at_key with (prefix := prefix).
  - intros k Hk. now apply getProp_deleteProp_ne.
  - apply getProp_deleteProp_eq.
  - intros Hnone. apply list_insert_id. rewrite Ho. do 2 f_equal.
    clear Ho. induction fields as [|[k w] fields IH]; simpl in *; [reflexivity|].
    destruct (String.eqb k s); [discriminate|]. now rewrite <- IH.
Qed.

Lemma delete_object_key_witness :
  deleteValue (VRef 0) "a" aIsOne = (Returns (VRef 0), [Obj []]).
Proof.
  exact (proj1 (delete_object_key aIsOne (VRef 0) "a" [] "a" 0%nat [("a", VNumber 1)]
                  eq_refl eq_refl eq_refl)).
Defined.

(** X11.  Deleting an index of an array that the path leads to takes
    the element out with [splice]: the array gets one shorter and the later
    elements move down by one.  A negative index counts from the end; an
    index outside the bounds raises the error of the traversal, which
    [deleteValue] does not catch, and the store stays as it was. *)
Theorem delete_array_index (h : heap) (json : val) (path : string)
  (prefix : list Segment) (n : Z) (lp : loc) (elems : list val)
  (extra : list (string * val)) :
  parsePathExpression path = Returns (prefix ++ [Index n])%list ->
  resolves h json prefix (VRef lp) -> h !! lp = Some (Arr elems extra) ->
  let len := Z.of_nat (length elems) in
  let idx := if n <? 0 then len + n else n in
  if (0 <=? idx) && (idx <? len) then
    deleteValue json path h
    = (Returns json, <[lp := Arr (delete (Z.to_nat idx) elems) extra]> h)
    /\ length (delete (Z.to_nat idx) elems) = pred (length elems)
    /\ (forall j, (Z.to_nat idx <= j)%nat ->
                  delete (Z.to_nat idx) elems !! j = elems !! S j)
    /\ (forall j, (j < Z.to_nat idx)%nat ->
                  delete (Z.to_nat idx) elems !! j = elems !! j)
  else
    deleteValue json path h
    = (Throws (JsonPathError ("Array index out of bounds: " +:+ pretty n) path), h).
Proof.
  intros Hparse Hres Ho. cbv zeta.
  unfold deleteValue, jsonPath, bind, liftOutcome. rewrite Hparse.
  destruct (prefix ++ [Index n])%list as [|s0 segs] eqn:Hsegs; [now destruct prefix|].
  rewrite <- Hsegs. cbn [create deleteFlag newValue].
  destruct (walk_resolves false path (prefix ++ [Index n])%list prefix [Index n] 0
              json VNull (Key "") true h (VRef lp) Hres) as (par' & key' & ->).
  read_step. rewrite Ho.
  set (len := Z.of_nat (length elems)).
  assert (Hdel : forall k,
             0 <= k < len -> (if n <? 0 then Z.max (len + n) 0 else Z.min n len) = k ->
             deleteMember (VRef lp) (Index n) h
             = (Returns tt, <[lp := Arr (delete (Z.to_nat k) elems) extra]> h)).
  { intros k Hk Hstart. unfold deleteMember, bind, readHeap, store. cbn beta iota.
    rewrite Ho. unfold arraySplice1. fold len. now rewrite Hstart. }
  assert (Hfacts : forall k,
             0 <= k < len ->
             length (delete (Z.to_nat k) elems) = pred (length elems)
             /\ (forall j, (Z.to_nat k <= j)%nat ->
                           delete (Z.to_nat k) elems !! j = elems !! S j)
             /\ (forall j, (j < Z.to_nat k)%nat ->
                           delete (Z.to_nat k) elems !! j = elems !! j)).
  { intros k Hk. split; [|split].
    - rewrite length_delete; [lia|]. apply lookup_lt_is_Some_2. lia.
    - intros j Hj. now apply list_lookup_delete_ge.
    - intros j Hj. now apply list_lookup_delete_lt. }
  destruct (Z.ltb_spec n 0) as [Hneg | Hpos].
  - destruct (Z.ltb_spec (len + n) 0) as [Hlow | Hin].
    + assert (H0 : (0 <=? len + n) = false) by lia. rewrite H0.
      cbn [andb orb]. reflexivity.
    + assert (H0 : (0 <=? len + n) = true) by lia.
      assert (H1 : (len + n <? len) = true) by lia.
      assert (H2 : (len <=? len + n) = false) by lia.
      rewrite H0, H1, H2. cbn [andb orb cexists cparent parentKey isNull negb].
      rewrite (Hdel (len + n)) by lia.
      split; [reflexivity | apply Hfacts; lia].
  - assert (H0 : (0 <=? n) = true) by lia. rewrite H0. cbn [andb].
    destruct (Z.ltb_spec n len) as [Hin | Hout].
    + assert (H2 : (len <=? n) = false) by lia. rewrite H2.
      cbn [cexists cparent parentKey isNull negb].
      rewrite (Hdel n) by lia.
      split; [reflexivity | apply Hfacts; lia].
    + assert (H2 : (len <=? n) = true) by lia. rewrite H2. reflexivity.
Qed.

Lemma delete_array_index_witness :
  deleteValue (VRef 0) "[0]" oneTwoThree
  = (Returns (VRef 0), [Arr [VNumber 2; VNumber 3] []]).
Proof.
  exact (proj1 (delete_array_index oneTwoThree (VRef 0) "[0]" [] 0 0%nat
                  [VNumber 1; VNumber 2; VNumber 3] [] eq_refl eq_refl eq_refl)).
Defined.


(** *** Writing one member *)










(** *** Moving a value *)






End PathMore.

(** ** Path Engine: printing a path and parsing it back *)

Module PathRoundTrip.

Import Store Path PathOps PathText.
Local Open Scope char_scope.

(** *** The digits of a printed number *)









(** *** The parser on printed segments *)













(** *** The printer *)












End PathRoundTrip.

(** ** Cloning and [mergeJson] *)

Module CloneFacts.

Import Store Merge MergeOps FrameSpec CloneSpec FrameFacts.
Local Open Scope js_scope.











(** *** Computations that do not throw *)

Lemma neverThrows_ret {A : Type} (a : A) : neverThrows (ret a).
Proof. intros h e. discriminate. Qed.

Lemma neverThrows_outOfFuel {A : Type} : neverThrows (@outOfFuel A).
Proof. intros h e. discriminate. Qed.

Lemma neverThrows_readHeap : neverThrows readHeap.
Proof. intros h e. discriminate. Qed.

Lemma neverThrows_alloc o : neverThrows (alloc o).
Proof. intros h e. discriminate. Qed.

Lemma neverThrows_store l o : neverThrows (store l o).
Proof. intros h e. discriminate. Qed.

Lemma neverThrows_bind {A B : Type} (m : M A) (k : A -> M B) :
  neverThrows m -> (forall a, neverThrows (k a)) -> neverThrows (bind m k).
Proof.
  intros Hm Hk h e. unfold bind. specialize (Hm h).
  destruct (m h) as [[a | e' |] h1]; simpl in *.
  - apply Hk.
  - now destruct (Hm e').
  - discriminate.
Qed.

Lemma neverThrows_mapM {A B : Type} (f : A -> M B) (l : list A) :
  (forall x, neverThrows (f x)) -> neverThrows (mapM f l).
Proof.
  intros Hf. induction l as [|x rest IH]; cbn [mapM]; [apply neverThrows_ret|].
  apply neverThrows_bind; [apply Hf | intros y].
  apply neverThrows_bind; [exact IH | intros ys; apply neverThrows_ret].
Qed.

Lemma neverThrows_foldM {A B : Type} (f : B -> A -> M B) (l : list A) :
  (forall acc x, neverThrows (f acc x)) -> forall acc, neverThrows (foldM f l acc).
Proof.
  intros Hf. induction l as [|x rest IH]; intros acc; cbn [foldM];
    [apply neverThrows_ret|].
  apply neverThrows_bind; [apply Hf | exact IH].
Qed.

Create HintDb nothrow.

#[local] Hint Resolve neverThrows_ret neverThrows_outOfFuel neverThrows_readHeap
  neverThrows_alloc neverThrows_store : nothrow.

Lemma deepClone_neverThrows fuel : forall v, neverThrows (deepClone fuel v).
Proof.
  induction fuel as [|fuel IH]; intros v; destruct v; cbn [deepClone];
    auto with nothrow.
  apply neverThrows_bind; [auto with nothrow | intros h].
  destruct (h !! l) as [[elems extra | fields]|]; [| |auto with nothrow].
  - apply neverThrows_bind; [now apply neverThrows_mapM | auto with nothrow].
  - apply neverThrows_bind; [|auto with nothrow].
    apply neverThrows_mapM. intros kv.
    apply neverThrows_bind; [apply IH | auto with nothrow].
Qed.

Lemma deepEqual_neverThrows fuel : forall a b, neverThrows (deepEqual fuel a b).
Proof.
  induction fuel as [|fuel IH]; intros a b; cbn [deepEqual];
    destruct (strictEq a b); auto with nothrow.
  apply neverThrows_bind; [auto with nothrow | intros h].
  destruct (objectOf h a) as [[xs xa | fa]|]; destruct (objectOf h b) as [[ys xb | fb]|];
    auto with nothrow; cbv zeta;
    try (destruct (negb (length _ =? length _)%nat); [auto with nothrow|]).
  - generalize ys. induction xs as [|x r1 IHx]; intros [|y r2]; auto with nothrow.
    apply neverThrows_bind; [apply IH | intros e]. destruct e; auto with nothrow.
  - match goal with |- neverThrows (?loop ?ks) => generalize ks end.
    induction l as [|key keys IHk]; auto with nothrow.
    destruct (negb _); auto with nothrow.
    apply neverThrows_bind; [apply IH | intros e]. destruct e; auto with nothrow.
  - match goal with |- neverThrows (?loop ?ks) => generalize ks end.
    induction l as [|key keys IHk]; auto with nothrow.
    destruct (negb _); auto with nothrow.
    apply neverThrows_bind; [apply IH | intros e]. destruct e; auto with nothrow.
  - match goal with |- neverThrows (?loop ?ks) => generalize ks end.
    induction l as [|key keys IHk]; auto with nothrow.
    destruct (negb _); auto with nothrow.
    apply neverThrows_bind; [apply IH | intros e]. destruct e; auto with nothrow.
Qed.

Section MergeRuns.

Variable stringify : heap -> val -> string.

Lemma known_strategy strategy :
  In strategy arrayStrategies <->
  (String.eqb strategy "concat" || String.eqb strategy "union"
   || String.eqb strategy "intersection" || String.eqb strategy "replace"
   || String.eqb strategy "deep") = true.
Proof.
  unfold arrayStrategies. simpl. rewrite !orb_true_iff, !String.eqb_eq.
  intuition congruence.
Qed.

Lemma mergeArrays_known fuel mergeTwo a b strategy :
  (forall x y, neverThrows (mergeTwo x y)) ->
  In strategy arrayStrategies ->
  neverThrows (mergeArrays stringify fuel mergeTwo a b strategy).
Proof.
  intros Hmerge Hin. apply known_strategy in Hin. unfold mergeArrays.
  apply neverThrows_bind; [auto with nothrow | intros h]. cbv zeta.
  destruct (String.eqb strategy "concat"); [auto with nothrow|].
  destruct (String.eqb strategy "union"); [auto with nothrow|].
  destruct (String.eqb strategy "intersection").
  { apply neverThrows_bind; [|auto with nothrow].
    apply neverThrows_foldM. intros acc itemA.
    apply neverThrows_bind; [|auto with nothrow].
    apply neverThrows_foldM. intros hit itemB.
    destruct hit; [auto with nothrow | apply deepEqual_neverThrows]. }
  destruct (String.eqb strategy "replace"); [auto with nothrow|].
  destruct (String.eqb strategy "deep"); [|discriminate].
  apply neverThrows_bind; [|auto with nothrow].
  generalize (elemsOf h b).
  induction (elemsOf h a) as [|x r1 IHx]; intros [|y r2]; auto with nothrow.
  - apply (neverThrows_mapM (deepClone fuel) (y :: r2)), deepClone_neverThrows.
  - apply (neverThrows_mapM (deepClone fuel) (x :: r1)), deepClone_neverThrows.
  - apply neverThrows_bind; [auto with nothrow | intros h1].
    apply neverThrows_bind.
    + destruct (_ && _); [apply Hmerge | apply deepClone_neverThrows].
    + intros item. apply neverThrows_bind; [apply IHx | auto with nothrow].
Qed.

Lemma mergeEntries_neverThrows merge r entries :
  (forall k t s, neverThrows (merge k t s)) ->
  neverThrows (mergeEntries merge r entries).
Proof.
  intros Hmerge. unfold mergeEntries. apply neverThrows_foldM. intros [] kv.
  apply neverThrows_bind; [auto with nothrow | intros h]. cbv zeta.
  apply neverThrows_bind.
  - destruct (getProp _ _); [apply Hmerge | auto with nothrow].
  - intros v. apply neverThrows_bind; auto with nothrow.
Qed.

Lemma deepMergeTwo_known fuel :
  forall target source strategy,
    In strategy arrayStrategies ->
    neverThrows (deepMergeTwo stringify fuel target source strategy).
Proof.
  induction fuel as [|fuel IH]; intros target source strategy Hin;
    cbn [deepMergeTwo]; [auto with nothrow|].
  destruct (isNullish source); [auto with nothrow|].
  destruct (isNullish target); [apply deepClone_neverThrows|].
  apply neverThrows_bind; [auto with nothrow | intros h]. cbv zeta.
  destruct (negb _); [apply deepClone_neverThrows|].
  destruct (String.eqb _ "array").
  { apply mergeArrays_known; [|exact Hin].
    intros x y. apply IH. simpl. auto. }
  destruct (String.eqb _ "object"); [|apply deepClone_neverThrows].
  apply neverThrows_bind; [apply deepClone_neverThrows | intros result].
  apply neverThrows_bind; [apply deepClone_neverThrows | intros sourceClone].
  apply neverThrows_bind; [auto with nothrow | intros h1].
  destruct result; auto with nothrow.
  apply neverThrows_bind; [|auto with nothrow].
  apply mergeEntries_neverThrows. intros k t s. now apply IH.
Qed.

(** X17.  [mergeJson] does not throw, whatever the target and the
    sources are: it returns, or the model runs out of fuel. *)
Theorem mergeJson_never_throws (fuel : nat) (target : val) (sources : list val) :
  neverThrows (mergeJson stringify fuel target sources).
Proof.
  unfold mergeJson. destruct (length sources =? 0)%nat;
    [apply deepClone_neverThrows|].
  apply neverThrows_bind; [apply deepClone_neverThrows | intros result].
  apply neverThrows_foldM. intros acc source. apply deepMergeTwo_known.
  simpl. auto.
Qed.

(** X18.  [mergeArrays] with a callback that does not throw ends in
    an exception exactly when the strategy is none of ['concat'], ['union'],
    ['intersection'], ['replace'] and ['deep']; the exception names the
    strategy, and the store is as it was. *)
Theorem mergeArrays_throws_iff_unknown (fuel : nat) (mergeTwo : val -> val -> M val)
  (a b : val) (strategy : string) (h : heap) :
  (forall x y, neverThrows (mergeTwo x y)) ->
  ((exists e, fst (mergeArrays stringify fuel mergeTwo a b strategy h) = Throws e)
   <-> ~ In strategy arrayStrategies)
  /\ (~ In strategy arrayStrategies ->
      mergeArrays stringify fuel mergeTwo a b strategy h
      = (Throws (JsonMergeError ("Unknown array merge strategy: " +:+ strategy) ""
                   VUndefined VUndefined), h)).
Proof.
  intros Hmerge.
  assert (Hunknown : ~ In strategy arrayStrategies ->
            mergeArrays stringify fuel mergeTwo a b strategy h
            = (Throws (JsonMergeError ("Unknown array merge strategy: " +:+ strategy) ""
                         VUndefined VUndefined), h)).
  { intros Hnot. rewrite known_strategy in Hnot. apply not_true_is_false in Hnot.
    rewrite !orb_false_iff in Hnot. destruct Hnot as ((((H1 & H2) & H3) & H4) & H5).
    unfold mergeArrays, bind, readHeap. cbv zeta.
    now rewrite H1, H2, H3, H4, H5. }
  split; [split|exact Hunknown].
  - intros [e He] Hin. exact (mergeArrays_known fuel mergeTwo a b strategy Hmerge Hin h e He).
  - intros Hnot. rewrite (Hunknown Hnot). eauto.
Qed.

(** *** [mergeJson] writes to its own objects only *)

Lemma preserves_length h h' : preserves h h' -> (length h <= length h')%nat.
Proof.
  intros Hp. destruct (Nat.le_gt_cases (length h) (length h')) as [|Hlt]; [assumption|].
  destruct (lookup_lt_is_Some_2 h (length h') Hlt) as [o Ho].
  apply Hp in Ho. apply lookup_lt_Some in Ho. lia.
Qed.

Section Kept.

Variable h0 : heap.

Local Abbreviation keeps := (CloneSpec.keeps h0).
Local Abbreviation freshVal := (FrameSpec.freshVal h0).

Lemma keeps_ret {A : Type} (a : A) (Q : A -> Prop) : Q a -> keeps (ret a) Q.
Proof. intros Hq h Hp. split; [exact Hp | intros a' [= <-]; exact Hq]. Qed.

Lemma keeps_throw {A : Type} e (Q : A -> Prop) : keeps (throw e) Q.
Proof. intros h Hp. split; [exact Hp | discriminate]. Qed.

Lemma keeps_outOfFuel {A : Type} (Q : A -> Prop) : keeps outOfFuel Q.
Proof. intros h Hp. split; [exact Hp | discriminate]. Qed.

Lemma keeps_readHeap : keeps readHeap (preserves h0).
Proof. intros h Hp. split; [exact Hp | intros a [= <-]; exact Hp]. Qed.

Lemma keeps_bind {A B : Type} (m : M A) (k : A -> M B) (Q : A -> Prop) (R : B -> Prop) :
  keeps m Q -> (forall a, Q a -> keeps (k a) R) -> keeps (bind m k) R.
Proof.
  intros Hm Hk h Hp. unfold bind. destruct (Hm h Hp) as [Hp1 Hq].
  destruct (m h) as [[a | e |] h1]; simpl in *;
    try (split; [exact Hp1 | discriminate]).
  apply (Hk a (Hq a eq_refl) h1 Hp1).
Qed.

Lemma keeps_weaken {A : Type} (m : M A) (Q Q' : A -> Prop) :
  keeps m Q -> (forall a, Q a -> Q' a) -> keeps m Q'.
Proof.
  intros Hm Himp h Hp. destruct (Hm h Hp) as [Hp1 Hq]. split; [exact Hp1|].
  intros a Ha. apply Himp, Hq, Ha.
Qed.

Lemma keeps_alloc o : keeps (alloc o) freshVal.
Proof.
  intros h Hp. unfold alloc. simpl. split.
  - eapply preserves_trans; [exact Hp | apply preserves_alloc].
  - intros a [= <-]. simpl. now apply preserves_length.
Qed.

Lemma keeps_store l o : (length h0 <= l)%nat -> keeps (store l o) (fun _ => True).
Proof.
  intros Hl h Hp. unfold store. simpl. split; [|auto].
  intros l' o' Hlk. rewrite list_lookup_insert_ne.
  - now apply Hp.
  - apply lookup_lt_Some in Hlk. lia.
Qed.

Lemma keeps_pure {A : Type} (m : M A) : pure m -> keeps m (fun _ => True).
Proof. intros Hpure h Hp. rewrite Hpure. auto. Qed.

Lemma keeps_mapM {A B : Type} (f : A -> M B) (l : list A) :
  (forall x, keeps (f x) (fun _ => True)) -> keeps (mapM f l) (fun _ => True).
Proof.
  intros Hf. induction l as [|x rest IH]; cbn [mapM]; [now apply keeps_ret|].
  eapply keeps_bind; [apply Hf | intros y _].
  eapply keeps_bind; [exact IH | intros ys _; now apply keeps_ret].
Qed.

Lemma keeps_foldM {A B : Type} (f : B -> A -> M B) (l : list A) :
  (forall acc x, keeps (f acc x) (fun _ => True)) ->
  forall acc, keeps (foldM f l acc) (fun _ => True).
Proof.
  intros Hf. induction l as [|x rest IH]; intros acc; cbn [foldM];
    [now apply keeps_ret|].
  eapply keeps_bind; [apply Hf | intros acc' _; apply IH].
Qed.

Lemma keeps_true {A : Type} (m : M A) (Q : A -> Prop) :
  keeps m Q -> keeps m (fun _ => True).
Proof. intros Hm. eapply keeps_weaken; [exact Hm | auto]. Qed.

Lemma deepClone_keeps fuel : forall v, keeps (deepClone fuel v) (fun _ => True).
Proof.
  induction fuel as [|fuel IH]; intros v; destruct v; cbn [deepClone];
    try (now apply keeps_ret); try apply keeps_outOfFuel.
  eapply keeps_bind; [apply keeps_readHeap | intros h Hp].
  destruct (h !! l) as [[elems extra | fields]|]; [| |now apply keeps_ret].
  - eapply keeps_bind; [now apply keeps_mapM | intros items _].
    eapply keeps_true, keeps_alloc.
  - eapply keeps_bind; [|intros cloned _; eapply keeps_true, keeps_alloc].
    apply keeps_mapM. intros kv.
    eapply keeps_bind; [apply IH | intros v _; now apply keeps_ret].
Qed.

(** A clone of an object of the store is a new object. *)
Lemma deepClone_new fuel v : keeps (deepClone fuel v) freshVal.
Proof.
  destruct fuel as [|fuel]; destruct v; cbn [deepClone];
    try (now apply keeps_ret); try apply keeps_outOfFuel.
  eapply keeps_bind; [apply keeps_readHeap | intros h Hp].
  destruct (h !! l) as [[elems extra | fields]|] eqn:Hl.
  - eapply keeps_bind; [apply keeps_mapM, deepClone_keeps | intros items _].
    apply keeps_alloc.
  - eapply keeps_bind; [|intros cloned _; apply keeps_alloc].
    apply keeps_mapM. intros kv.
    eapply keeps_bind; [apply deepClone_keeps | intros v _; now apply keeps_ret].
  - apply keeps_ret. simpl.
    apply lookup_ge_None in Hl. pose proof (preserves_length _ _ Hp). lia.
Qed.

Lemma mergeArrays_keeps fuel mergeTwo a b strategy :
  (forall x y, keeps (mergeTwo x y) (fun _ => True)) ->
  keeps (mergeArrays stringify fuel mergeTwo a b strategy) (fun _ => True).
Proof.
  intros Hmerge. unfold mergeArrays.
  eapply keeps_bind; [apply keeps_readHeap | intros h Hp]. cbv zeta.
  destruct (String.eqb strategy "concat"); [eapply keeps_true, keeps_alloc|].
  destruct (String.eqb strategy "union"); [eapply keeps_true, keeps_alloc|].
  destruct (String.eqb strategy "intersection").
  { eapply keeps_bind; [|intros kept _; eapply keeps_true, keeps_alloc].
    apply keeps_foldM. intros acc itemA.
    eapply keeps_bind; [|intros found _; now apply keeps_ret].
    apply keeps_foldM. intros hit itemB.
    destruct hit; [now apply keeps_ret | apply keeps_pure, deepEqual_pure]. }
  destruct (String.eqb strategy "replace"); [eapply keeps_true, keeps_alloc|].
  destruct (String.eqb strategy "deep"); [|apply keeps_throw].
  eapply (keeps_bind _ _ (fun _ => True));
    [|intros result _; eapply keeps_true, keeps_alloc].
  generalize (elemsOf h b).
  induction (elemsOf h a) as [|x r1 IHx]; intros [|y r2]; try (now apply keeps_ret).
  - apply (keeps_mapM (deepClone fuel) (y :: r2)), deepClone_keeps.
  - apply (keeps_mapM (deepClone fuel) (x :: r1)), deepClone_keeps.
  - eapply keeps_bind; [apply keeps_readHeap | intros h1 _].
    eapply (keeps_bind _ _ (fun _ => True)).
    + destruct (_ && _); [apply Hmerge | apply deepClone_keeps].
    + intros item _. eapply keeps_bind; [apply IHx | intros items _; now apply keeps_ret].
Qed.

Lemma mergeEntries_keeps merge r entries :
  (length h0 <= r)%nat ->
  (forall k t s, keeps (merge k t s) (fun _ => True)) ->
  keeps (mergeEntries merge r entries) (fun _ => True).
Proof.
  intros Hr Hmerge. unfold mergeEntries. apply keeps_foldM. intros [] kv.
  eapply keeps_bind; [apply keeps_readHeap | intros h _]. cbv zeta.
  eapply (keeps_bind _ _ (fun _ => True)).
  - destruct (getProp _ _); [apply Hmerge | now apply keeps_ret].
  - intros v _. eapply keeps_bind; [apply keeps_readHeap | intros h1 _].
    now apply keeps_store.
Qed.

Lemma deepMergeTwo_keeps fuel :
  forall target source strategy,
    keeps (deepMergeTwo stringify fuel target source strategy) (fun _ => True).
Proof.
  induction fuel as [|fuel IH]; intros target source strategy;
    cbn [deepMergeTwo]; [apply keeps_outOfFuel|].
  destruct (isNullish source); [now apply keeps_ret|].
  destruct (isNullish target); [apply deepClone_keeps|].
  eapply keeps_bind; [apply keeps_readHeap | intros h _]. cbv zeta.
  destruct (negb _); [apply deepClone_keeps|].
  destruct (String.eqb _ "array").
  { apply mergeArrays_keeps. intros x y. apply IH. }
  destruct (String.eqb _ "object"); [|apply deepClone_keeps].
  eapply keeps_bind; [apply deepClone_new | intros result Hresult].
  eapply keeps_bind; [apply deepClone_keeps | intros sourceClone _].
  eapply keeps_bind; [apply keeps_readHeap | intros h1 _].
  destruct result; try (now apply keeps_ret).
  eapply keeps_bind; [|intros _ _; now apply keeps_ret].
  apply mergeEntries_keeps; [exact Hresult|]. intros k t s. apply IH.
Qed.

Lemma mergeJson_keeps fuel target sources :
  keeps (mergeJson stringify fuel target sources) (fun _ => True).
Proof.
  unfold mergeJson. destruct (length sources =? 0)%nat; [apply deepClone_keeps|].
  eapply keeps_bind; [apply deepClone_keeps | intros result _].
  apply keeps_foldM. intros acc source. apply deepMergeTwo_keeps.
Qed.

End Kept.

(** X19.  [mergeJson] leaves its arguments alone: whatever the
    outcome, every object of the store before the call is still there
    unchanged, so the target and every source read after the call as they
    did before. *)
Theorem mergeJson_leaves_arguments (fuel : nat) (target : val) (sources : list val)
  (h : heap) :
  let h' := snd (mergeJson stringify fuel target sources h) in
  preserves h h' /\ unchanged h h' target /\ Forall (unchanged h h') sources.
Proof.
  cbv zeta.
  pose proof (mergeJson_keeps h fuel target sources h (preserves_refl h)) as [Hp _].
  split; [exact Hp | split].
  - now apply preserves_unchanged.
  - apply Forall_forall. intros x _. now apply preserves_unchanged.
Qed.

End MergeRuns.

(** What [mergeJson] returns can share objects with a source: the merge of
    [[]] and [[{x: 1}]] is a new array whose element is the object of the
    source itself. *)
Example mergeJson_shares_source_elements :
  let r := mergeJson noText 3 (VRef 2) [VRef 1] sharedInputs in
  fst r = Returns (VRef 4) /\ snd r !! 4%nat = Some (Arr [VRef 0%nat] []).
Proof. vm_compute. split; reflexivity. Qed.

Lemma mergeArrays_throws_iff_unknown_witness :
  ~ In "zip" arrayStrategies
  /\ mergeArrays noText 1 (fun x _ => ret x) (VRef 2) (VRef 2) "zip" sharedInputs
     = (Throws (JsonMergeError "Unknown array merge strategy: zip" "" VUndefined
                  VUndefined), sharedInputs).
Proof.
  assert (Hnot : ~ In "zip" arrayStrategies).
  { unfold arrayStrategies. simpl. intros [H|[H|[H|[H|[H|[]]]]]]; discriminate. }
  split; [exact Hnot|].
  refine (proj2 (mergeArrays_throws_iff_unknown noText 1 (fun x _ => ret x) (VRef 2)
                   (VRef 2) "zip" sharedInputs _) Hnot).
  intros x y h e. discriminate.
Defined.

(** *** Merging with nothing *)









End CloneFacts.

(** ** Compare Engine: patches and subsets *)

Module PatchFacts.

Import Compare CompareOps JsonSpec CompareLoops CompareOpsSpec CompareMore.

Lemma generatePatch_arrays xs ys path :
  generatePatch (JArray xs) (JArray ys) path =
  if Z.min (Z.of_nat (length xs)) (Z.of_nat (length ys))
     <? 2 * Z.abs (Z.of_nat (length xs) - Z.of_nat (length ys))
  then [mkOp "replace" (if String.eqb path "" then "/" else path) (Some (JArray ys))]
  else patchElements path xs ys 0.
Proof. reflexivity. Qed.

Lemma generatePatch_objects fs gs path :
  generatePatch (JObject fs) (JObject gs) path =
  (patchProperties path gs fs
   ++ map (fun kv => mkOp "add" (patchPath path (fst kv)) (Some (snd kv)))
        (filter (fun kv => negb (hasProp fs (fst kv))) gs))%list.
Proof. reflexivity. Qed.

Lemma patchElements_agrees p q l1 :
  Forall patchAgrees l1 ->
  forall l2 i j,
    patchElements p l1 l2 i = [] <-> fst (compareArraysLoop q l1 l2 j) = true.
Proof.
  induction 1 as [|x r1 Hx _ IH]; intros [|y r2] i j;
    cbn [patchElements compareArraysLoop addRest].
  - split; reflexivity.
  - split; discriminate.
  - destruct (compareArraysLoop q r1 [] (S j)). split; discriminate.
  - specialize (IH r2 (S i) (S j)).
    specialize (Hx y (if String.eqb p "" then "/" +:+ pretty i
                      else p +:+ "/" +:+ pretty i)
                  (q +:+ "[" +:+ pretty j +:+ "]")).
    destruct (deepCompare x y _) as [e d],
      (compareArraysLoop q r1 r2 (S j)) as [e' d'].
    simpl in *. split.
    + intros H. apply app_eq_nil in H as [H1 H2].
      now rewrite (proj1 Hx H1), (proj1 IH H2).
    + intros H. apply andb_prop in H as [H1 H2].
      now rewrite (proj2 Hx H1), (proj2 IH H2).
Qed.

Lemma patchProperties_agrees p q gs l1 :
  Forall (fun kv => patchAgrees (snd kv)) l1 ->
  patchProperties p gs l1 = [] <-> fst (compareObjectsLoop q gs l1) = true.
Proof.
  induction 1 as [|[key x] r1 Hx _ IH]; cbn [patchProperties compareObjectsLoop].
  - split; reflexivity.
  - cbn [snd] in Hx.
    destruct (getProp gs key) as [y|].
    + specialize (Hx y (patchPath p key) (propertyPath q key)).
      destruct (deepCompare x y _) as [e d], (compareObjectsLoop q gs r1) as [e' d'].
      simpl in *. split.
      * intros H. apply app_eq_nil in H as [H1 H2].
        now rewrite (proj1 Hx H1), (proj1 IH H2).
      * intros H. apply andb_prop in H as [H1 H2].
        now rewrite (proj2 Hx H1), (proj2 IH H2).
    + destruct (compareObjectsLoop q gs r1). split; discriminate.
Qed.

Lemma generatePatch_agrees a : patchAgrees a.
Proof.
  induction a as [ | x | n | s | xs IH | fs IH] using json_induction;
    intros b p q;
    destruct b as [ | y | m | t | ys | gs];
    try (split; discriminate); try (split; reflexivity).
  - simpl. destruct (Bool.eqb x y); split; try reflexivity; discriminate.
  - simpl. destruct (n =? m); split; try reflexivity; discriminate.
  - simpl. destruct (String.eqb s t); split; try reflexivity; discriminate.
  - rewrite generatePatch_arrays, deepCompare_arrays.
    pose proof (patchElements_agrees p q xs IH ys 0%nat 0%nat) as Hloop.
    pose proof (compareArraysLoop_length q xs ys 0) as Hlen.
    destruct (compareArraysLoop q xs ys 0) as [eq ds]. simpl in Hloop, Hlen |- *.
    destruct (Z.ltb_spec (Z.min (Z.of_nat (length xs)) (Z.of_nat (length ys)))
                (2 * Z.abs (Z.of_nat (length xs) - Z.of_nat (length ys))))
      as [Hfar | Hnear].
    + split; [discriminate|]. intros H. apply andb_prop in H as [_ Hl].
      apply Nat.eqb_eq in Hl. lia.
    + rewrite Hloop. split.
      * intros ->. rewrite (Hlen eq_refl), Nat.eqb_refl. reflexivity.
      * intros H. now apply andb_prop in H as [-> _].
  - rewrite generatePatch_objects, deepCompare_objects.
    pose proof (patchProperties_agrees p q gs fs IH) as Hloop.
    destruct (compareObjectsLoop q gs fs) as [eq ds]. simpl in Hloop |- *. split.
    + intros H. apply app_eq_nil in H as [H1 H2]. apply map_eq_nil in H2.
      now rewrite (proj1 Hloop H1), H2.
    + intros H. apply andb_prop in H as [H1 H2].
      apply Nat.eqb_eq, length_zero_iff_nil in H2.
      now rewrite (proj2 Hloop H1), H2.
Qed.

(** X21.  [getPatchOperations(a, b)] has no operation exactly when
    [deepEqual(a, b)] holds: a patch is empty for equal values and for no
    others. *)
Theorem no_patch_iff_deepEqual (a b : JsonValue) :
  getPatchOperations a b = [] <-> deepEqual a b = true.
Proof. apply generatePatch_agrees. Qed.

(** *** What [isSubset] decides *)

Lemma checkSubset_arrays xs ys path :
  checkSubset (JArray xs) (JArray ys) path =
  if (length ys <? length xs)%nat then false else subsetElements xs ys.
Proof. reflexivity. Qed.

Lemma checkSubset_objects fs gs path :
  checkSubset (JObject fs) (JObject gs) path = subsetProperties path gs fs.
Proof. reflexivity. Qed.

Lemma spliceFirstMatch_some x pool pool' :
  spliceFirstMatch x pool = Some pool' ->
  exists z, deepEqual x z = true /\ Permutation pool (z :: pool').
Proof.
  revert pool'. induction pool as [|w pool IH]; intros pool' H; [discriminate|].
  cbn [spliceFirstMatch] in H. destruct (deepEqual x w) eqn:Hw.
  - injection H as <-. exists w. auto.
  - destruct (spliceFirstMatch x pool) as [rest|]; [|discriminate].
    injection H as <-. destruct (IH rest eq_refl) as (z & Hz & Hp).
    exists z. split; [exact Hz|]. rewrite Hp. apply Permutation_swap.
Qed.

Lemma matched_pairs a : forall b,
  matched a b <-> exists b', Permutation b b' /\ Forall2 sameJson a b'.
Proof.
  induction a as [|x a IH]; intros b; split.
  - intros H. inversion H; subst. exists []. split; constructor.
  - intros (b' & Hp & H). inversion H; subst.
    apply Permutation_nil_r in Hp. subst. constructor.
  - intros H. inversion H as [|x' a' y b0 b1 Hp Hxy Hrest]; subst.
    apply IH in Hrest as (b' & Hp' & Hall).
    exists (y :: b'). split; [|now constructor].
    rewrite Hp. now constructor.
  - intros (b' & Hp & H). inversion H as [|x' y a' b1 Hxy Hall]; subst.
    econstructor; [exact Hp | exact Hxy|]. apply IH. exists b1. split; auto.
Qed.

(** The loop over the elements succeeds exactly when they can be paired
    off with some of the elements of the pool. *)
Lemma subsetElements_matched a :
  Forall distinctKeys a ->
  forall pool,
    subsetElements a pool = true <->
    exists chosen others, Permutation pool (chosen ++ others) /\ matched a chosen.
Proof.
  induction 1 as [|x a Hx _ IH]; intros pool; cbn [subsetElements].
  - split; [|reflexivity]. intros _. exists [], pool. split; [reflexivity | constructor].
  - split.
    + destruct (spliceFirstMatch x pool) as [pool'|] eqn:Hs; [|discriminate].
      intros H. apply IH in H as (chosen & others & Hp & Hm).
      apply spliceFirstMatch_some in Hs as (z & Hz & Hpz).
      exists (z :: chosen), others. split.
      * rewrite Hpz, Hp. reflexivity.
      * econstructor; [reflexivity | | exact Hm]. now apply deepEqual_same_iff.
    + intros (chosen & others & Hp & Hm).
      inversion Hm as [|x' a' y b b' Hpy Hxy Hrest]; subst.
      assert (Hin : In y pool).
      { apply list_elem_of_In. rewrite Hp, Hpy. apply elem_of_app. left. now left. }
      assert (Hy : deepEqual x y = true) by now apply deepEqual_same_iff.
      destruct (spliceFirstMatch_finds x pool y Hin Hy) as (z & pool' & Hs & Hz & Hpz).
      rewrite Hs. apply IH.
      assert (Hxz : sameJson x z) by now apply deepEqual_same_iff.
      assert (Hzin : z ∈ (chosen ++ others)%list) by (rewrite <- Hp, Hpz; now left).
      apply elem_of_app in Hzin as [Hzc | Hzo].
      * apply elem_of_Permutation in Hzc as [c Hc].
        exists c, others. split.
        -- apply (Permutation_cons_inv (a := z)). rewrite <- Hpz, Hp, Hc. reflexivity.
        -- eapply matched_exchange; [exact Hm | exact Hxz | exact Hc].
      * apply elem_of_Permutation in Hzo as [d Hd].
        exists b', (y :: d). split; [|exact Hrest].
        apply (Permutation_cons_inv (a := z)). rewrite <- Hpz, Hp, Hpy, Hd.
        etransitivity; [symmetry; apply Permutation_middle|].
        constructor. cbn [app]. apply Permutation_middle.
Qed.

Lemma subsetProperties_part path gs l :
  Forall (fun kv => decidesPart (snd kv)) l ->
  subsetProperties path gs l = true <->
  forall k x, In (k, x) l -> exists y, getProp gs k = Some y /\ subJson x y.
Proof.
  induction 1 as [|[key x] r Hx _ IH]; cbn [subsetProperties].
  - split; [intros _ k x [] | reflexivity].
  - cbn [snd] in Hx. destruct (getProp gs key) as [y|] eqn:Hg.
    + specialize (Hx y (path +:+ "." +:+ key)).
      destruct (checkSubset x y _) eqn:Hc; cbn [negb].
      * rewrite IH. split.
        -- intros H k w [[= -> ->] | Hin]; [|now apply H].
           exists y. split; [exact Hg | now apply Hx].
        -- intros H k w Hin. apply H. now right.
      * split; [discriminate|]. intros H.
        destruct (H key x (or_introl eq_refl)) as (y' & Hy' & Hsub).
        rewrite Hg in Hy'. injection Hy' as <-. apply Hx in Hsub. congruence.
    + split; [discriminate|]. intros H.
      destruct (H key x (or_introl eq_refl)) as (y' & Hy' & _). congruence.
Qed.

Lemma checkSubset_decides a : distinctKeys a -> decidesPart a.
Proof.
  induction a as [ | x | n | s | xs IH | fs IH] using json_induction;
    intros Hdk b p;
    destruct b as [ | y | m | t | ys | gs];
    try (split; [discriminate | intros H; inversion H]).
  - split; [constructor | reflexivity].
  - simpl. split.
    + intros H. apply Bool.eqb_prop in H. subst. constructor.
    + intros H. inversion H; subst. apply Bool.eqb_reflx.
  - simpl. split.
    + intros H. apply Z.eqb_eq in H. subst. constructor.
    + intros H. inversion H; subst. apply Z.eqb_refl.
  - simpl. split.
    + intros H. apply String.eqb_eq in H. subst. constructor.
    + intros H. inversion H; subst. apply String.eqb_refl.
  - rewrite checkSubset_arrays. inversion Hdk as [ | | | | xs' Hall | ]; subst.
    pose proof (subsetElements_matched xs Hall ys) as Hloop.
    destruct (Nat.ltb_spec (length ys) (length xs)) as [Hshort | Hlong].
    + split; [discriminate|]. intros H. inversion H as [ | | | | ? ? chosen others Hp Hf | ];
        subst.
      apply Permutation_length in Hp. apply Forall2_length in Hf.
      rewrite length_app in Hp. lia.
    + rewrite Hloop. split.
      * intros (chosen & others & Hp & Hm).
        apply matched_pairs in Hm as (c' & Hc & Hf).
        apply (sub_array xs ys c' others); [|exact Hf]. now rewrite Hp, Hc.
      * intros H. inversion H as [ | | | | ? ? chosen others Hp Hf | ]; subst.
        exists chosen, others. split; [exact Hp|].
        apply matched_pairs. exists chosen. split; [reflexivity | exact Hf].
  - rewrite checkSubset_objects. inversion Hdk as [ | | | | | fs' Hnd Hall]; subst.
    assert (Hdec : Forall (fun kv => decidesPart (snd kv)) fs).
    { rewrite Forall_forall in IH, Hall |- *. intros kv Hin. apply IH; auto. }
    rewrite (subsetProperties_part p gs fs Hdec). split.
    + intros H. constructor.
      * intros k Hk. apply hasProp_getProp in Hk as [x Hx].
        destruct (H k x (getProp_In _ _ _ Hx)) as (y & Hy & _).
        unfold hasProp. now rewrite Hy.
      * intros k x y Hx Hy. destruct (H k x (getProp_In _ _ _ Hx)) as (y' & Hy' & Hsub).
        congruence.
    + intros H k x Hin. inversion H as [ | | | | | ? ? Hhas Hval]; subst.
      pose proof (In_getProp fs k x Hnd Hin) as Hx.
      assert (Hk : hasProp gs k = true).
      { apply Hhas. unfold hasProp. now rewrite Hx. }
      apply hasProp_getProp in Hk as [y Hy]. exists y. split; [exact Hy|].
      eapply Hval; eauto.
Qed.



Lemma sameJson_part a : forall b, sameJson a b -> subJson a b.
Proof.
  induction a as [ | x | n | s | xs IH | fs IH] using json_induction;
    intros b H; inversion H; subst; try constructor.
  - apply (sub_array xs ys ys []); [now rewrite app_nil_r | assumption].
  - intros k Hk. match goal with Hh : forall k, hasProp fs k = _ |- _ =>
      now rewrite <- Hh end.
  - intros k x y Hx Hy. rewrite Forall_forall in IH.
    apply (IH (k, x)); [apply list_elem_of_In; eapply getProp_In; eauto|].
    eauto.
Qed.

(** X23.  Deep-equal values contain each other: when [deepEqual(a, b)]
    holds for values whose objects have distinct keys, [isSubset(a, b)],
    [isSubset(b, a)] and [contains(a, b)] hold; so every such value is a
    subset of itself. *)
Theorem deepEqual_values_contain_each_other (a b : JsonValue) :
  distinctKeys a -> distinctKeys b -> deepEqual a b = true ->
  isSubset a b = true /\ isSubset b a = true /\ contains a b = true
  /\ isSubset a a = true.
Proof.
  intros Ha Hb He. apply (deepEqual_same_iff a b Ha) in He.
  assert (Hab : isSubset a b = true).
  { apply checkSubset_decides; [exact Ha | now apply sameJson_part]. }
  assert (Hba : isSubset b a = true).
  { apply checkSubset_decides; [exact Hb | now apply sameJson_part, sameJson_sym]. }
  repeat split; try assumption.
  apply checkSubset_decides; [exact Ha | apply sameJson_part, sameJson_refl].
Qed.

Lemma deepEqual_values_contain_each_other_witness :
  isSubset xyObject yxObject = true /\ isSubset yxObject xyObject = true
  /\ contains xyObject yxObject = true /\ isSubset xyObject xyObject = true.
Proof.
  apply deepEqual_values_contain_each_other;
    [exact (proj1 xyObject_distinctKeys) | exact (proj2 xyObject_distinctKeys)
    | reflexivity].
Defined.

End PatchFacts.

(** ** Transform Engine: flattening and omitting *)

Module TransformFacts.

Import Transform TransformSpec CompareMore.

Lemma flattenJson_object fs d p :
  flattenJson (JObject fs) d p = flattenEntries d p fs [].
Proof. reflexivity. Qed.

Lemma leaves_object fs d p : leaves (JObject fs) d p = leavesOf d p fs.
Proof. reflexivity. Qed.

(** *** Assignments to a property list *)

Lemma setProp_twice {A : Type} (X : list (string * A)) k w v :
  setProp (setProp X k w) k v = setProp X k v.
Proof.
  induction X as [|[k0 w0] X IH]; simpl.
  - now rewrite String.eqb_refl.
  - destruct (String.eqb k0 k) eqn:Hk; simpl; rewrite Hk; [reflexivity | now rewrite IH].
Qed.

Lemma setProp_comm {A : Type} (X : list (string * A)) k k' u v :
  k <> k' -> hasProp X k = true ->
  setProp (setProp X k' u) k v = setProp (setProp X k v) k' u.
Proof.
  unfold hasProp. intros Hne. induction X as [|[k0 w0] X IH]; simpl; [discriminate|].
  destruct (String.eqb_spec k0 k) as [->|Hk0].
  - intros _. destruct (String.eqb_spec k k') as [?|_]; [contradiction|].
    simpl. rewrite String.eqb_refl.
    destruct (String.eqb_spec k k') as [?|_]; [contradiction | reflexivity].
  - intros H. destruct (String.eqb_spec k0 k') as [->|Hk0'].
    + simpl. destruct (String.eqb_spec k' k) as [?|_]; [congruence|].
      now rewrite String.eqb_refl.
    + simpl. destruct (String.eqb_spec k0 k) as [?|_]; [contradiction|].
      destruct (String.eqb_spec k0 k') as [?|_]; [contradiction|].
      now rewrite IH.
Qed.

Lemma hasProp_setProp {A : Type} (X : list (string * A)) k k' (u : A) :
  hasProp X k = true -> hasProp (setProp X k' u) k = true.
Proof.
  unfold hasProp. induction X as [|[k0 w0] X IH]; simpl; [discriminate|].
  destruct (String.eqb_spec k0 k') as [->|Hk0']; simpl.
  - destruct (String.eqb k' k); [reflexivity | auto].
  - destruct (String.eqb k0 k); [reflexivity | auto].
Qed.

Lemma setProp_new {A : Type} (X : list (string * A)) k (v : A) :
  getProp X k = None -> setProp X k v = (X ++ [(k, v)])%list.
Proof.
  induction X as [|[k0 w0] X IH]; simpl; [reflexivity|].
  destruct (String.eqb k0 k); [discriminate|]. intros H. now rewrite IH.
Qed.

Lemma getProp_None {A : Type} (X : list (string * A)) k :
  getProp X k = None <-> ~ In k (objectKeys X).
Proof.
  unfold objectKeys. induction X as [|[k0 w0] X IH]; simpl; [tauto|].
  destruct (String.eqb_spec k0 k) as [->|Hne].
  - split; [discriminate | intros H; exfalso; auto].
  - rewrite IH. tauto.
Qed.

Lemma objectKeys_setProp {A : Type} (X : list (string * A)) k (v : A) :
  objectKeys (setProp X k v)
  = if hasProp X k then objectKeys X else (objectKeys X ++ [k])%list.
Proof.
  unfold hasProp, objectKeys. induction X as [|[k0 w0] X IH]; simpl; [reflexivity|].
  destruct (String.eqb_spec k0 k) as [->|Hne]; simpl; [reflexivity|].
  rewrite IH. now destruct (getProp X k).
Qed.

Lemma NoDup_setProp {A : Type} (X : list (string * A)) k (v : A) :
  NoDup (objectKeys X) -> NoDup (objectKeys (setProp X k v)).
Proof.
  intros Hnd. rewrite objectKeys_setProp. unfold hasProp.
  destruct (getProp X k) eqn:Hg; [exact Hnd|].
  apply NoDup_app. split; [exact Hnd|]. split; [|apply NoDup_singleton].
  intros x Hx Hin. apply list_elem_of_singleton in Hin. subst.
  apply getProp_None in Hg. apply Hg. now apply list_elem_of_In.
Qed.

Lemma NoDup_assign (R L : JsonObject) :
  NoDup (objectKeys R) -> NoDup (objectKeys (assign R L)).
Proof.
  unfold assign. revert R. induction L as [|[k v] L IH]; intros R Hnd; [exact Hnd|].
  simpl. apply IH. now apply NoDup_setProp.
Qed.

Lemma assign_app (R A B : JsonObject) :
  assign R (A ++ B)%list = assign (assign R A) B.
Proof. unfold assign. apply fold_left_app. Qed.

Lemma setProp_assign (M : JsonObject) : forall (X : JsonObject) k v,
  ~ In k (objectKeys M) -> hasProp X k = true ->
  setProp (assign X M) k v = assign (setProp X k v) M.
Proof.
  induction M as [|[k1 w1] M IH]; intros X k v Hnot Hhas; [reflexivity|].
  change (assign X ((k1, w1) :: M)) with (assign (setProp X k1 w1) M).
  change (assign (setProp X k v) ((k1, w1) :: M))
    with (assign (setProp (setProp X k v) k1 w1) M).
  simpl in Hnot. rewrite IH.
  - rewrite setProp_comm; [reflexivity | | exact Hhas]. intros ->. auto.
  - auto.
  - now apply hasProp_setProp.
Qed.

Lemma assign_setProp (M : JsonObject) : forall (R : JsonObject) k v,
  NoDup (objectKeys M) ->
  assign R (setProp M k v) = setProp (assign R M) k v.
Proof.
  induction M as [|[k0 w0] M IH]; intros R k v Hnd; [reflexivity|].
  simpl in Hnd. apply NoDup_cons in Hnd as [Hnot Hnd].
  cbn [setProp]. destruct (String.eqb_spec k0 k) as [->|Hne].
  - change (assign R ((k, v) :: M)) with (assign (setProp R k v) M).
    change (assign R ((k, w0) :: M)) with (assign (setProp R k w0) M).
    rewrite setProp_assign.
    + now rewrite setProp_twice.
    + intros Hin. apply Hnot. now apply list_elem_of_In.
    + unfold hasProp.
      destruct (getProp (setProp R k w0) k) eqn:Hg; [reflexivity|].
      apply getProp_None in Hg. rewrite objectKeys_setProp in Hg.
      unfold hasProp in Hg. destruct (getProp R k) as [w|] eqn:Hr.
      * exfalso. apply Hg. apply getProp_In in Hr.
        unfold objectKeys. apply in_map_iff. now exists (k, w).
      * exfalso. apply Hg. apply in_or_app. right. now left.
  - change (assign R ((k0, w0) :: setProp M k v))
      with (assign (setProp R k0 w0) (setProp M k v)).
    change (assign R ((k0, w0) :: M)) with (assign (setProp R k0 w0) M).
    now apply IH.
Qed.

(** Assigning an object built by assignments is assigning what it was
    built from. *)
Lemma assign_assigned (L : JsonObject) : forall R,
  assign R (assign [] L) = assign R L.
Proof.
  induction L as [|[k v] L IH] using rev_ind; intros R; [reflexivity|].
  rewrite !assign_app.
  change (assign (assign [] L) [(k, v)]) with (setProp (assign [] L) k v).
  change (assign (assign R L) [(k, v)]) with (setProp (assign R L) k v).
  rewrite assign_setProp by (apply NoDup_assign; constructor).
  now rewrite IH.
Qed.

Lemma assign_fresh (L : JsonObject) : forall R,
  NoDup (objectKeys (R ++ L)) -> assign R L = (R ++ L)%list.
Proof.
  induction L as [|[k v] L IH]; intros R Hnd; [now rewrite app_nil_r|].
  change (assign R ((k, v) :: L)) with (assign (setProp R k v) L).
  assert (Hnew : getProp R k = None).
  { apply getProp_None. intros Hin. unfold objectKeys in Hnd.
    rewrite map_app in Hnd. apply NoDup_app in Hnd as (_ & Hdis & _).
    apply (Hdis k); [now apply list_elem_of_In | now left]. }
  rewrite (setProp_new R k v Hnew), IH; rewrite <- app_assoc; [reflexivity | exact Hnd].
Qed.

(** *** Flattening *)

Lemma flattenEntries_leaves d p l :
  Forall (fun kv => flattens (snd kv)) l ->
  forall result,
    flattenEntries d p l result = Returns (assign result (leavesOf d p l)).
Proof.
  induction 1 as [|[key value] rest Hx _ IH]; intros result; [reflexivity|].
  cbn [flattenEntries leavesOf]. cbn [snd] in Hx.
  specialize (Hx d (joinKey d p key)).
  destruct value; try (rewrite IH, assign_app; reflexivity).
  rewrite Hx, IH, assign_app, assign_assigned. reflexivity.
Qed.

Lemma flattenJson_flattens x : flattens x.
Proof.
  induction x as [ | b | n | s | xs IH | fs IH] using json_induction;
    intros d p; try exact I.
  rewrite flattenJson_object, leaves_object. now apply flattenEntries_leaves.
Qed.

Lemma leaves_flat x :
  forall d p, Forall (fun kv => isPlainObject (snd kv) = false) (leaves x d p).
Proof.
  induction x as [ | b | n | s | xs IH | fs IH] using json_induction;
    intros d p; try constructor.
  rewrite leaves_object. induction IH as [|[key value] rest Hx _ IHl]; [constructor|].
  cbn [leavesOf]. apply Forall_app. split; [|exact IHl].
  cbn [snd] in Hx. destruct value; try (constructor; [reflexivity | constructor]).
  apply Hx.
Qed.

Lemma Forall_setProp (P : JsonValue -> Prop) (X : JsonObject) k v :
  Forall (fun kv => P (snd kv)) X -> P v ->
  Forall (fun kv => P (snd kv)) (setProp X k v).
Proof.
  intros HX Hv. induction HX as [|[k0 w0] X Hw HX IH]; simpl.
  - constructor; [exact Hv | constructor].
  - destruct (String.eqb k0 k); constructor; auto.
Qed.

Lemma Forall_assign (P : JsonValue -> Prop) (L : JsonObject) : forall R,
  Forall (fun kv => P (snd kv)) R -> Forall (fun kv => P (snd kv)) L ->
  Forall (fun kv => P (snd kv)) (assign R L).
Proof.
  induction L as [|[k v] L IH]; intros R HR HL; [exact HR|].
  inversion HL; subst.
  change (assign R ((k, v) :: L)) with (assign (setProp R k v) L).
  apply IH; [now apply Forall_setProp | assumption].
Qed.

(** X24.  [flattenJson] of an object returns, at any depth of nesting:
    the result is the object built by assigning, in document order, every
    leaf of the input (a value that is not a plain object) under the keys
    on the way to it joined by the delimiter, after the prefix when there
    is one; a later leaf with the same joined key replaces the value of an
    earlier one, and no value of the result is a plain object.  Any other
    input throws. *)
Theorem flattenJson_assigns_leaves (json : JsonValue) (delimiter prefix : string) :
  (isPlainObject json = true ->
   flattenJson json delimiter prefix
   = Returns (assign [] (leaves json delimiter prefix))
   /\ Forall (fun kv => isPlainObject (snd kv) = false)
        (assign [] (leaves json delimiter prefix)))
  /\ (isPlainObject json = false ->
      flattenJson json delimiter prefix
      = Throws (JsonTransformError "Input must be a non-null object" (Some prefix)
                  (Some json))).
Proof.
  split.
  - intros Hobj. destruct json; try discriminate Hobj. split.
    + apply (flattenJson_flattens (JObject fields)).
    + apply (Forall_assign (fun v => isPlainObject v = false));
        [constructor | apply leaves_flat].
  - intros Hobj. destruct json; try discriminate Hobj; reflexivity.
Qed.

Lemma flattenEntries_flat d l :
  Forall (fun kv => isPlainObject (snd kv) = false) l ->
  forall acc,
    NoDup (objectKeys (acc ++ l)) ->
    flattenEntries d "" l acc = Returns (acc ++ l)%list.
Proof.
  induction 1 as [|[key value] rest Hv _ IH]; intros acc Hnd.
  - now rewrite app_nil_r.
  - cbn [flattenEntries]. cbn [snd] in Hv.
    assert (Hnew : getProp acc key = None).
    { apply getProp_None. intros Hin. unfold objectKeys in Hnd.
      rewrite map_app in Hnd. apply NoDup_app in Hnd as (_ & Hdis & _).
      apply (Hdis key); [now apply list_elem_of_In | now left]. }
    assert (Hstep : flattenEntries d "" rest (setProp acc (joinKey d "" key) value)
                    = Returns (acc ++ (key, value) :: rest)%list).
    { change (joinKey d "" key) with key.
      rewrite (setProp_new acc key value Hnew), IH; rewrite <- app_assoc;
        [reflexivity | exact Hnd]. }
    destruct value; try exact Hstep. discriminate Hv.
Qed.

(** X25.  Flattening is idempotent: what [flattenJson] returns,
    with any delimiter and prefix, is flattened to itself. *)
Theorem flattenJson_twice (json : JsonValue) (delimiter prefix : string)
  (r : JsonObject) :
  flattenJson json delimiter prefix = Returns r ->
  flattenJson (JObject r) delimiter "" = Returns r.
Proof.
  intros Hrun.
  destruct (flattenJson_assigns_leaves json delimiter prefix) as [Hobj Hother].
  destruct (isPlainObject json) eqn:Hj.
  - destruct (Hobj eq_refl) as [Hr Hflat]. rewrite Hr in Hrun. injection Hrun as <-.
    rewrite flattenJson_object.
    apply (flattenEntries_flat delimiter _ Hflat []).
    cbn [app]. apply NoDup_assign. constructor.
  - rewrite (Hother eq_refl) in Hrun. discriminate.
Qed.

Lemma flattenJson_twice_witness :
  flattenJson (JObject [("a.b", JNumber 1); ("d", JArray [JNumber 2])]) "." ""
  = Returns [("a.b", JNumber 1); ("d", JArray [JNumber 2])].
Proof. exact (flattenJson_twice nested "." "" _ eq_refl). Defined.

(** An empty object inside the input leaves no trace in the result. *)
Example flattenJson_drops_empty_objects :
  flattenJson nested "." "" = Returns [("a.b", JNumber 1); ("d", JArray [JNumber 2])].
Proof. reflexivity. Qed.

(** *** Omitting keys *)

Lemma filter_keeps_all {A : Type} (X : list (string * A)) k :
  ~ In k (objectKeys X) ->
  List.filter (fun kv => negb (String.eqb (fst kv) k)) X = X.
Proof.
  unfold objectKeys. induction X as [|[k0 w0] X IH]; intros Hnot; [reflexivity|].
  simpl in Hnot |- *. destruct (String.eqb_spec k0 k) as [->|Hne].
  - exfalso. auto.
  - cbn [negb]. rewrite IH; auto.
Qed.

Lemma deleteProp_filter {A : Type} (X : list (string * A)) k :
  NoDup (objectKeys X) ->
  deleteProp X k = List.filter (fun kv => negb (String.eqb (fst kv) k)) X.
Proof.
  unfold objectKeys. induction X as [|[k0 w0] X IH]; intros Hnd; [reflexivity|].
  simpl in Hnd. apply NoDup_cons in Hnd as [Hnot Hnd]. simpl.
  destruct (String.eqb_spec k0 k) as [->|Hne]; cbn [negb].
  - symmetry. apply filter_keeps_all. intros Hin. apply Hnot.
    now apply list_elem_of_In.
  - now rewrite IH.
Qed.

Lemma NoDup_filter_keys {A : Type} (f : string * A -> bool) (X : list (string * A)) :
  NoDup (objectKeys X) -> NoDup (objectKeys (List.filter f X)).
Proof.
  unfold objectKeys. induction X as [|[k0 w0] X IH]; intros Hnd; [constructor|].
  simpl in Hnd. apply NoDup_cons in Hnd as [Hnot Hnd]. simpl.
  destruct (f (k0, w0)); [|now apply IH]. simpl. apply NoDup_cons. split; [|now apply IH].
  intros Hin. apply Hnot. apply list_elem_of_In in Hin. apply list_elem_of_In.
  apply in_map_iff in Hin as (kv & Hk & Hin). apply List.filter_In in Hin as [Hin _].
  apply in_map_iff. now exists kv.
Qed.

Lemma deleteProps_filter {A : Type} (keys : list string) : forall X : list (string * A),
  NoDup (objectKeys X) ->
  fold_left (fun result key => deleteProp result key) keys X
  = List.filter (fun kv => negb (includesStr keys (fst kv))) X.
Proof.
  induction keys as [|k ks IH]; intros X Hnd.
  - simpl. symmetry. apply forallb_filter_id. now apply forallb_forall.
  - cbn [fold_left]. rewrite (deleteProp_filter X k Hnd).
    rewrite IH by now apply NoDup_filter_keys.
    clear. induction X as [|[k0 w0] X IHX]; [reflexivity|].
    unfold includesStr in *. simpl.
    destruct (String.eqb k0 k); cbn [negb orb]; [exact IHX|]. simpl.
    destruct (existsb (String.eqb k0) ks); cbn [negb]; now rewrite IHX.
Qed.

Lemma getProp_filter {A : Type} (f : string -> bool) (X : list (string * A)) k :
  getProp (List.filter (fun kv => f (fst kv)) X) k
  = if f k then getProp X k else None.
Proof.
  induction X as [|[k0 w0] X IH]; [now destruct (f k)|].
  cbn [List.filter fst getProp].
  destruct (String.eqb_spec k0 k) as [->|Hne].
  - destruct (f k) eqn:Hf.
    + cbn [getProp]. now rewrite String.eqb_refl.
    + rewrite IH. now rewrite ?Hf.
  - destruct (f k0).
    + cbn [getProp]. destruct (String.eqb_spec k0 k) as [?|_]; [contradiction | exact IH].
    + exact IH.
Qed.

(** X26.  [omitKeys] of an object with distinct keys returns the
    object without the listed keys, the others in their order: a listed
    key is no longer found, every other key reads as before, and a listed
    key that the object does not have is ignored.  Any other input throws. *)
Theorem omitKeys_removes_exactly (fs : JsonObject) (keys : list string) :
  NoDup (objectKeys fs) ->
  omitKeys (JObject fs) keys
  = Returns (List.filter (fun kv => negb (includesStr keys (fst kv))) fs)
  /\ (forall r k, omitKeys (JObject fs) keys = Returns r ->
      getProp r k = if includesStr keys k then None else getProp fs k)
  /\ (forall json, isPlainObject json = false ->
      omitKeys json keys
      = Throws (JsonTransformError "Input must be a non-null object" None
                  (Some json))).
Proof.
  intros Hnd.
  assert (Hrun : omitKeys (JObject fs) keys
                 = Returns (List.filter (fun kv => negb (includesStr keys (fst kv))) fs)).
  { unfold omitKeys. rewrite (assign_fresh fs []) by exact Hnd. cbn [app].
    now rewrite deleteProps_filter. }
  split; [exact Hrun | split].
  - intros r k Hr. rewrite Hrun in Hr. injection Hr as <-.
    rewrite (getProp_filter (fun s => negb (includesStr keys s)) fs k).
    now destruct (includesStr keys k).
  - intros json Hj. destruct json; try discriminate Hj; reflexivity.
Qed.

Lemma omitKeys_removes_exactly_witness :
  omitKeys (JObject [("a", JNumber 1); ("b", JNumber 2); ("c", JNumber 3)]) ["b"; "z"]
  = Returns [("a", JNumber 1); ("c", JNumber 3)].
Proof.
  refine (proj1 (omitKeys_removes_exactly
                   [("a", JNumber 1); ("b", JNumber 2); ("c", JNumber 3)] ["b"; "z"] _)).
  unfold objectKeys. simpl.
  repeat (apply NoDup_cons_2; [intros H; repeat (apply elem_of_cons in H as [H|H];
                                                  [discriminate|]);
                               now apply elem_of_nil in H|]).
  apply NoDup_nil_2.
Defined.

End TransformFacts.

(** ** Generate Engine: templates without directives *)

Module TemplateFacts.

Import Generate TemplateSpec CompareMore.


Section Plain.

Variable getValue : list (string * JsonValue) -> JsonValue -> option JsonValue.
Variable processTemplateString :
  string -> list (string * JsonValue) -> bool -> option JsonValue ->
  Gen (option JsonValue).
Variable evalStringCondition : string -> list (string * JsonValue) -> bool.
Variable mathOperation : option JsonValue -> list (option JsonValue) -> option JsonValue.
Variable generateDate : list (string * JsonValue) -> list (string * JsonValue) -> string.
Variable generateRandomValue : list (string * JsonValue) -> JsonValue.
Variable iterations : JsonValue -> nat.
Variable validateJsonValid : option JsonValue -> option JsonValue -> bool.

Local Abbreviation processTemplate :=
  (Generate.processTemplate getValue processTemplateString evalStringCondition
     mathOperation generateDate generateRandomValue iterations).
Local Abbreviation generateJson :=
  (Generate.generateJson getValue processTemplateString evalStringCondition
     mathOperation generateDate generateRandomValue iterations validateJsonValid).

Variable keep : string -> bool.
Variable data : list (string * JsonValue).
Variable strict : bool.
Variable defaultValue : option JsonValue.

Hypothesis kept :
  forall s, keep s = true ->
    processTemplateString s data strict defaultValue = Returns (Some (JString s)).



End Plain.



End TemplateFacts.
